(** * AI Employee vault: orchestrator, iterative task runner and safety layer

    A shallow embedding of the parts of [orchestrator.py], [ralph_loop.py],
    [security_config.py] and [base_watcher.py] that carry the behavioural
    contract of the system, followed by the properties established about
    them.

    Conventions of the embedding:
    - a Python [str] is a Rocq [string]; every character stands for one code
      point below 256, which covers every literal the sources use;
    - a method that mutates [self] or the outside world is a computation in
      the monad [M S], a state monad over [S] that may end in a raised
      exception ([Raise]) while keeping the state reached so far;
    - the outside world (the vault directories, the wall clock, the external
      agent executable) is the record [world]; the clock and the agent are
      oracles indexed by the number of readings / invocations made so far, so
      that a statement quantified over [world] covers every behaviour of the
      environment. *)

From Stdlib Require Import ZArith QArith Qround Lqa Ascii Sorted.
From stdpp Require Import base option list functions gmap sets strings pretty.

Set Default Proof Using "Type".
Set Warnings "-register-all".
Local Open Scope Z_scope.

(* ===================================================================== *)
(** * The Python runtime the sources rely on                              *)
(* ===================================================================== *)

Module Py.

(** The exception classes that occur in the modelled code. *)
Inductive exn :=
| OSError            (* includes PermissionError, FileNotFoundError on open *)
| UnicodeDecodeError
| IndexError
| ValueError.

Inductive outcome (A : Type) :=
| Ok (a : A)
| Raise (e : exn).
Global Arguments Ok {A} a.
Global Arguments Raise {A} e.

(** State monad with exceptions; the state survives a raise. *)
Definition M (S A : Type) : Type := S → outcome A * S.

Definition ret {S A} (a : A) : M S A := λ s, (Ok a, s).
Definition bind {S A B} (m : M S A) (k : A → M S B) : M S B :=
  λ s, match m s with
       | (Ok a, s') => k a s'
       | (Raise e, s') => (Raise e, s')
       end.
Definition raise {S A} (e : exn) : M S A := λ s, (Raise e, s).
Definition get {S} : M S S := λ s, (Ok s, s).
Definition gets {S A} (f : S → A) : M S A := λ s, (Ok (f s), s).
Definition modify {S} (f : S → S) : M S unit := λ s, (Ok tt, f s).
Definition state {S A} (f : S → A * S) : M S A :=
  λ s, let '(a, s') := f s in (Ok a, s').

(** [try: m except h]: the handler [h] selects the exceptions it catches. *)
Definition try_except {S A} (m : M S A) (h : exn → option (M S A)) : M S A :=
  λ s, match m s with
       | (Ok a, s') => (Ok a, s')
       | (Raise e, s') =>
           match h e with
           | Some k => k s'
           | None => (Raise e, s')
           end
       end.

Global Instance M_ret {S} : MRet (M S) := @ret S.
Global Instance M_bind {S} : MBind (M S) := λ A B k m, bind m k.

(** A computation on a component [W] of the state, run inside [S]. *)
Class Has (W S : Type) := { project : S → W; inject : W → S → S }.
Global Instance Has_refl W : Has W W := {| project w := w; inject w _ := w |}.
Definition lift {W S A} `{Has W S} (m : M W A) : M S A :=
  λ s, let '(r, w) := m (project s) in (r, inject w s).

(** ** Strings *)

Definition ord (c : ascii) : nat := nat_of_ascii c.

(** [str.isspace] on one code point below 256. *)
Definition isspace (c : ascii) : bool :=
  let n := ord c in
  ((9 <=? n) && (n <=? 13) || (28 <=? n) && (n <=? 32)
   || (n =? 133) || (n =? 160))%nat.

Fixpoint lstrip (s : string) : string :=
  match s with
  | EmptyString => EmptyString
  | String c s' => if isspace c then lstrip s' else s
  end.

Fixpoint rev (s : string) : string :=
  match s with
  | EmptyString => EmptyString
  | String c s' => rev s' +:+ String c EmptyString
  end.

Definition rstrip (s : string) : string := rev (lstrip (rev s)).
Definition strip (s : string) : string := rstrip (lstrip s).

(** [s.split(sep)] for a one-character separator. *)
Fixpoint split (sep : ascii) (s : string) : list string :=
  match s with
  | EmptyString => [EmptyString]
  | String c s' =>
      if decide (c = sep) then EmptyString :: split sep s'
      else match split sep s' with
           | [] => [String c EmptyString]
           | l :: ls => String c l :: ls
           end
  end.

(** [s.split(sep, 1)]. *)
Fixpoint split1 (sep : ascii) (s : string) : list string :=
  match s with
  | EmptyString => [EmptyString]
  | String c s' =>
      if decide (c = sep) then [EmptyString; s']
      else match split1 sep s' with
           | [] => [String c EmptyString]
           | l :: ls => String c l :: ls
           end
  end.

Fixpoint startswith (s p : string) : bool :=
  match p, s with
  | EmptyString, _ => true
  | String a p', String b s' => bool_decide (a = b) && startswith s' p'
  | String _ _, EmptyString => false
  end.

(** [needle in hay]. *)
Fixpoint contains (needle hay : string) : bool :=
  startswith hay needle ||
  match hay with
  | EmptyString => false
  | String _ hay' => contains needle hay'
  end.

(** [s.count(c)] for a one-character [c]. *)
Fixpoint count (c : ascii) (s : string) : nat :=
  match s with
  | EmptyString => O
  | String a s' => (if decide (a = c) then 1 else 0) + count c s'
  end.

(** [s[:n]]. *)
Fixpoint take (n : nat) (s : string) : string :=
  match n, s with
  | S n', String c s' => String c (take n' s')
  | _, _ => EmptyString
  end.

Definition lower_char (c : ascii) : ascii :=
  let n := ord c in
  if ((65 <=? n) && (n <=? 90)
      || (192 <=? n) && (n <=? 222) && negb (n =? 215))%nat
  then ascii_of_nat (n + 32) else c.

Fixpoint lower (s : string) : string :=
  match s with
  | EmptyString => EmptyString
  | String c s' => String (lower_char c) (lower s')
  end.

Fixpoint join (sep : string) (l : list string) : string :=
  match l with
  | [] => EmptyString
  | [x] => x
  | x :: l' => x +:+ sep +:+ join sep l'
  end.

Definition truthy (s : string) : bool := negb (bool_decide (s = EmptyString)).

Definition newline : ascii := ascii_of_nat 10.
Definition nl : string := String newline EmptyString.

(** ** [datetime] *)

Record datetime := DateTime {
  year : Z; month : Z; day : Z;
  hour : Z; minute : Z; second : Z; microsecond : Z
}.

(** The ranges the [datetime] constructor enforces. [year] starts at 1000
    so that [%Y] is four digits on every platform. *)
Definition valid (t : datetime) : Prop :=
  1000 ≤ year t ≤ 9999 ∧ 1 ≤ month t ≤ 12 ∧ 1 ≤ day t ≤ 31 ∧
  0 ≤ hour t ≤ 23 ∧ 0 ≤ minute t ≤ 59 ∧ 0 ≤ second t ≤ 59 ∧
  0 ≤ microsecond t ≤ 999999.

Definition is_leap (y : Z) : bool :=
  (y mod 4 =? 0) && (negb (y mod 100 =? 0) || (y mod 400 =? 0)).

Definition days_before_year (y : Z) : Z :=
  let y := y - 1 in y * 365 + y / 4 - y / 100 + y / 400.

Definition days_in_month (y m : Z) : Z :=
  if m =? 2 then (if is_leap y then 29 else 28)
  else if (m =? 4) || (m =? 6) || (m =? 9) || (m =? 11) then 30 else 31.

Fixpoint days_before_month_go (y : Z) (k : nat) : Z :=
  match k with
  | O => 0
  | S k' => days_before_month_go y k' + days_in_month y (Z.of_nat k)
  end.
Definition days_before_month (y m : Z) : Z :=
  days_before_month_go y (Z.to_nat (m - 1)).

Definition toordinal (t : datetime) : Z :=
  days_before_year (year t) + days_before_month (year t) (month t) + day t.

(** [date.weekday()]: Monday is 0, Sunday is 6. *)
Definition weekday (t : datetime) : Z := (toordinal t + 6) mod 7.

Definition digit (n : Z) : ascii := ascii_of_nat (48 + Z.to_nat n).

(** [%02d] for a field that the constructor keeps below 100. *)
Definition pad2 (n : Z) : string :=
  if (0 <=? n) && (n <? 100)
  then String (digit (n / 10)) (String (digit (n mod 10)) EmptyString)
  else pretty n.

(** [strftime("%Y-%m-%d")]. *)
Definition strftime_date (t : datetime) : string :=
  pretty (year t) +:+ "-" +:+ pad2 (month t) +:+ "-" +:+ pad2 (day t).

(** [strftime("%H:%M:%S")]. *)
Definition strftime_clock (t : datetime) : string :=
  pad2 (hour t) +:+ ":" +:+ pad2 (minute t) +:+ ":" +:+ pad2 (second t).

(** [strftime("%Y-%m-%dT%H:%M:%SZ")]. *)
Definition strftime_iso_z (t : datetime) : string :=
  strftime_date t +:+ "T" +:+ strftime_clock t +:+ "Z".

(** [strftime("%Y-%m-%d %H:%M:%S")]. *)
Definition strftime_human (t : datetime) : string :=
  strftime_date t +:+ " " +:+ strftime_clock t.

(** [strftime("%Y%m%d_%H%M%S")]. *)
Definition strftime_compact (t : datetime) : string :=
  pretty (year t) +:+ pad2 (month t) +:+ pad2 (day t) +:+ "_" +:+
  pad2 (hour t) +:+ pad2 (minute t) +:+ pad2 (second t).

(** Comparison of the date parts, as [date.__le__] does. *)
Definition date_le (a b : datetime) : Prop :=
  year a < year b ∨
  (year a = year b ∧ (month a < month b ∨ (month a = month b ∧ day a ≤ day b))).

Definition same_date (a b : datetime) : Prop :=
  year a = year b ∧ month a = month b ∧ day a = day b.

Global Instance same_date_dec a b : Decision (same_date a b).
Proof. unfold same_date. apply _. Defined.

End Py.

(* ===================================================================== *)
(** * The world outside the process                                       *)
(* ===================================================================== *)

Module World.
Import Py.

(** ** What gets written to files

    A file is a sequence of chunks, one per [write] call that produced it:
    [write_text] replaces the sequence, appending adds one chunk at the
    end.  A chunk records the values the source interpolates
    into its f-string, not the rendered characters. *)

(** One pass of the iterative task runner ([iter_record] in [RalphLoop.run]).
    [duration_seconds] is [round(.., 1)], held in tenths of a second. *)
Record iteration := Iteration {
  number : Z;
  timestamp : string;
  success : bool;
  duration_seconds : Z;
  summary : string;
  output_length : nat
}.

(** JSON values, for the optional metadata of an audit entry. *)
Inductive json :=
| JNull
| JBool (b : bool)
| JInt (z : Z)
| JStr (s : string)
| JList (l : list json)
| JObj (kv : list (string * json)).

(** The dict [entry] built by [audit_log]. *)
Record audit_entry := AuditEntry {
  ae_timestamp : string;
  ae_action_type : string;
  ae_actor : string;
  ae_target : string;
  ae_dry_run : bool;
  ae_result : string;
  ae_metadata : option (list (string * json))
}.

Inductive chunk :=
(** free text put there by somebody else *)
| Text (s : string)
(** [Orchestrator._create_alert]: created, skill, time, attempts *)
| SkillAlert (created skill time : string) (attempts : Z)
(** [_log_event]: the header written when the daily log is created;
    [orchestrator_section] tells whether it ends with the
    "## Orchestrator Events" heading *)
| LogHeader (date : string) (orchestrator_section : bool)
(** [_log_event]: one entry line *)
| LogEntry (time event_type detail_str : string)
(** [RalphLoop._create_task_file] and [_update_task_file] *)
| TaskDoc (task_id description created : string) (last_updated : option string)
          (status : string) (max_iterations current_iteration : Z)
          (dry_run : bool) (iter_log : list iteration)
(** [RalphLoop._create_alert] *)
| ExhaustedAlert (created description task_id : string) (max_iterations : Z)
                 (state_file : string) (iteration_summary : list iteration)
(** [audit_log]: [json.dumps(entry)] followed by a newline *)
| AuditLine (entry : audit_entry).

Record file := File { f_writable : bool; f_chunks : list chunk }.

(** A directory is missing, or it is there with a permission to create and
    remove entries and the files it holds (keyed by name). *)
Inductive dir :=
| Missing
| Dir (d_writable : bool) (files : gmap string file).

Definition dir_files (d : dir) : gmap string file :=
  match d with Missing => ∅ | Dir _ files => files end.

Definition dir_exists (d : dir) : bool :=
  match d with Missing => false | Dir _ _ => true end.

(** The folders of the vault that the modelled code touches. *)
Inductive folder :=
| Needs_Action | Approved | Pending_Approval | Done | Logs | In_Progress
| Audit.  (* Logs/audit *)

Global Instance folder_eq_dec : EqDecision folder.
Proof. solve_decision. Defined.

Abbreviation vault := (folder → dir).

(** ** Clock and external agent *)

(** One reading of the wall clock: [time.time()] and
    [datetime.now(timezone.utc)]. *)
Record instant := Instant { unix : Q; utc : datetime }.

Inductive proc_exit :=
| Exited (returncode : Z)
| TimeoutExpired
| FileNotFoundError.

(** What one [subprocess.run] of the agent does: how it ends, what it
    printed, what it did to the vault meanwhile, and whether SIGINT or
    SIGTERM reached this process before the call returned. *)
Record completed := Completed {
  p_exit : proc_exit;
  p_stdout : string;
  p_stderr : string;
  p_effect : vault → vault;
  p_signal : bool
}.

Inductive level := DEBUG | INFO | WARNING | ERROR | CRITICAL.

(** The calls the process itself makes, in order. *)
Inductive event :=
| EvSpawn (prompt : string)
| EvSleep (seconds : Z)
| EvWrite (f : folder) (name : string)
| EvAppend (f : folder) (name : string)
| EvUnlink (f : folder) (name : string)
| EvLogger (l : level).

Record world := MkWorld {
  w_vault : vault;
  w_clock : nat → instant;
  w_reads : nat;
  w_agent : nat → completed;
  w_spawned : nat;
  w_trace : list event
}.

Definition set_vault (v : vault) (w : world) : world :=
  MkWorld v (w_clock w) (w_reads w) (w_agent w) (w_spawned w) (w_trace w).
Definition emit (e : event) (w : world) : world :=
  MkWorld (w_vault w) (w_clock w) (w_reads w) (w_agent w) (w_spawned w)
          (w_trace w ++ [e]).

(** [datetime.now(timezone.utc)] and [time.time()]. *)
Definition now : M world instant :=
  λ w, (Ok (w_clock w (w_reads w)),
        MkWorld (w_vault w) (w_clock w) (S (w_reads w)) (w_agent w)
                (w_spawned w) (w_trace w)).
Definition utcnow : M world datetime := t ← now; mret (utc t).
Definition time_time : M world Q := t ← now; mret (unix t).

Definition sleep (seconds : Z) : M world unit := modify (emit (EvSleep seconds)).
Definition logger (l : level) : M world unit := modify (emit (EvLogger l)).

(** [subprocess.run(["claude", .., prompt], ..)]: the next answer of the
    agent oracle; its effect on the vault has happened when it returns. *)
Definition subprocess_run (prompt : string) : M world completed :=
  λ w, let p := w_agent w (w_spawned w) in
       (Ok p,
        MkWorld (p_effect p (w_vault w)) (w_clock w) (w_reads w) (w_agent w)
                (S (w_spawned w)) (w_trace w ++ [EvSpawn prompt])).

(** ** File operations *)

Definition path_exists (f : folder) (name : string) : M world bool :=
  gets (λ w, bool_decide (is_Some (dir_files (w_vault w f) !! name))).

(** May [open(.., "w")] or [open(.., "a")] succeed on this path? *)
Definition can_write (v : vault) (f : folder) (name : string) : bool :=
  match v f with
  | Missing => false
  | Dir dw files =>
      match files !! name with
      | Some fl => f_writable fl
      | None => dw
      end
  end.

Definition put_file (f : folder) (name : string) (cs : list chunk)
    (v : vault) : vault :=
  match v f with
  | Missing => v
  | Dir dw files =>
      let keep := match files !! name with
                  | Some fl => f_writable fl
                  | None => true
                  end in
      <[f := Dir dw (<[name := File keep cs]> files)]> v
  end.

(** [Path.write_text(content)]. *)
Definition write_text (f : folder) (name : string) (content : list chunk)
    : M world unit :=
  λ w, if can_write (w_vault w) f name
       then (Ok tt, emit (EvWrite f name)
                      (set_vault (put_file f name content (w_vault w)) w))
       else (Raise OSError, w).

Definition chunks_at (v : vault) (f : folder) (name : string) : list chunk :=
  match dir_files (v f) !! name with
  | Some fl => f_chunks fl
  | None => []
  end.

(** [with open(path, "a") as f: f.write(content)]. *)
Definition append_text (f : folder) (name : string) (c : chunk) : M world unit :=
  λ w, if can_write (w_vault w) f name
       then (Ok tt, emit (EvAppend f name)
                      (set_vault (put_file f name
                                    (chunks_at (w_vault w) f name ++ [c])
                                    (w_vault w)) w))
       else (Raise OSError, w).

(** [Path.unlink(missing_ok=True)]. *)
Definition unlink_missing_ok (f : folder) (name : string) : M world unit :=
  λ w, match w_vault w f with
       | Missing => (Ok tt, w)
       | Dir dw files =>
           match files !! name with
           | None => (Ok tt, w)
           | Some _ =>
               if dw
               then (Ok tt, emit (EvUnlink f name)
                              (set_vault (<[f := Dir dw (delete name files)]>
                                            (w_vault w)) w))
               else (Raise OSError, w)
           end
       end.

(** The names below a folder, as [rglob] enumerates them. *)
Definition listing (f : folder) : M world (gset string) :=
  gets (λ w, dom (dir_files (w_vault w f))).

(** ** Reading a trace *)

(** How many times the agent was started. *)
Definition spawns (evs : list event) : nat :=
  length (omap (λ e, match e with EvSpawn p => Some p | _ => None end) evs).

(** The names [write_text] was called on below folder [f], in order. *)
Definition written (f : folder) (evs : list event) : list string :=
  omap (λ e, match e with
             | EvWrite f' name => if decide (f' = f) then Some name else None
             | _ => None
             end) evs.

(** The [status] of the task document a file holds. *)
Definition task_status (v : vault) (f : folder) (name : string) : option string :=
  match chunks_at v f name with
  | [TaskDoc _ _ _ _ status _ _ _ _] => Some status
  | _ => None
  end.

(** A folder in which every [open] for writing succeeds. *)
Definition writable (v : vault) (f : folder) : Prop :=
  ∃ files, v f = Dir true files ∧
           map_Forall (λ _ fl, f_writable fl = true) files.

(** Did the agent exit with code 0? *)
Definition exit_ok (p : completed) : bool :=
  match p_exit p with
  | Exited returncode => returncode =? 0
  | _ => false
  end.

(** An agent run that takes away no permission of the process. *)
Definition respects_permissions (p : completed) : Prop :=
  ∀ v f, writable v f → writable (p_effect p v) f.

(** ** Following the world over several steps *)

(** How the world moves while the process runs: the oracles stay, the
    counters grow with the readings made and the events recorded. *)
Record advances (w w' : world) (reads : nat) (evs : list event) : Prop := {
  adv_trace : w_trace w' = w_trace w ++ evs;
  adv_clock : w_clock w' = w_clock w;
  adv_agent : w_agent w' = w_agent w;
  adv_reads : w_reads w' = (w_reads w + reads)%nat;
  adv_spawned : w_spawned w' = (w_spawned w + spawns evs)%nat
}.

End World.

(* ===================================================================== *)
(** * security_config.py                                                  *)
(* ===================================================================== *)

Module Security.
Import Py World.

(** [os.getenv(name, default)] on the process environment. *)
Definition getenv (environ : gmap string string) (name dflt : string) : string :=
  default dflt (environ !! name).

(** ** [_RateLimitBucket] *)

Record bucket := Bucket {
  max_count : Z;
  window_seconds : Q;
  timestamps : list Q
}.

Definition new_bucket (max_count : Z) (window_seconds : Q) : bucket :=
  Bucket max_count window_seconds [].

Global Instance Qlt_dec : RelDecision Qlt :=
  λ a b, match Qlt_le_dec a b with
         | left H => left H
         | right H => right (Qle_not_lt _ _ H)
         end.

(** [allow], given the value [time.time()] returned. *)
Definition allow_at (now : Q) (b : bucket) : bool * bucket :=
  let cutoff := (now - window_seconds b)%Q in
  let kept := filter (λ t, (cutoff < t)%Q) (timestamps b) in
  if Z.of_nat (length kept) >=? max_count b
  then (false, Bucket (max_count b) (window_seconds b) kept)
  else (true, Bucket (max_count b) (window_seconds b) (kept ++ [now])).

Definition allow (b : bucket) : M world (bool * bucket) :=
  now ← time_time;
  mret (allow_at now b).

Definition current_count_at (now : Q) (b : bucket) : Z * bucket :=
  let cutoff := (now - window_seconds b)%Q in
  let kept := filter (λ t, (cutoff < t)%Q) (timestamps b) in
  (Z.of_nat (length kept), Bucket (max_count b) (window_seconds b) kept).

Definition reset (b : bucket) : bucket :=
  Bucket (max_count b) (window_seconds b) [].

(** Successive [allow()] calls at the given clock values: the answers,
    and the bucket they leave. *)
Fixpoint allow_calls (times : list Q) (b : bucket) : list bool * bucket :=
  match times with
  | [] => ([], b)
  | now :: rest =>
      let '(r, b') := allow_at now b in
      let '(rs, b'') := allow_calls rest b' in
      (r :: rs, b'')
  end.

(** ** [SecurityConfig] *)

(** Line 87: [os.getenv("DRY_RUN", "true").lower() != "false"]. *)
Definition dry_run_from_env (environ : gmap string string) : bool :=
  negb (bool_decide (lower (getenv environ "DRY_RUN" "true") = "false")).

Record config := Config {
  dry_run : bool;
  rate_limiters : gmap string bucket
}.

(** ** [audit_log] *)

Fixpoint zeros (n : nat) : string :=
  match n with O => EmptyString | S n' => String "0" (zeros n') end.
Definition zfill (width : nat) (s : string) : string :=
  zeros (width - String.length s) +:+ s.

(** [datetime.now(timezone.utc).isoformat()]. *)
Definition isoformat (t : datetime) : string :=
  strftime_date t +:+ "T" +:+ strftime_clock t +:+
  (if microsecond t =? 0 then EmptyString
   else "." +:+ zfill 6 (pretty (microsecond t))) +:+ "+00:00".

(** ** [json.dumps], with the defaults [audit_log] leaves in place
    ([ensure_ascii=True], no indent, separators [", "] and [": "]) *)









Definition audit_file_name (today : datetime) : string :=
  "audit_" +:+ strftime_date today +:+ ".jsonl".

(** [security] is the module-level singleton; [dry_run = None] and
    [metadata = None] are the defaults of the keyword arguments. *)
Definition audit_log (security : config)
    (action_type actor target result : string)
    (dry_run : option bool) (metadata : option (list (string * json)))
    : M world audit_entry :=
  let dry_run := default (Security.dry_run security) dry_run in
  stamp ← utcnow;
  let entry :=
    AuditEntry (isoformat stamp) action_type actor target dry_run result
      (match metadata with
       | Some (_ :: _) => metadata
       | _ => None
       end) in
  today ← utcnow;
  try_except
    (append_text Audit (audit_file_name today) (AuditLine entry))
    (λ e, match e with
          | OSError => Some (logger ERROR)
          | _ => None
          end);;
  (if bool_decide (result = "failed") then logger WARNING
   else if bool_decide (result = "denied") || bool_decide (result = "rate_limited")
        then logger WARNING
        else logger INFO);;
  mret entry.

End Security.

(* ===================================================================== *)
(** * orchestrator.py                                                     *)
(* ===================================================================== *)

Module Orchestrator.
Import Py World.

Definition SCAN_INTERVAL : Z := 15.
Definition DASHBOARD_INTERVAL : Z := 1800.
Definition BRIEFING_DAY : Z := 6.
Definition BRIEFING_HOUR : Z := 23.
Definition MAX_RETRIES : Z := 1.
Definition CLAUDE_TIMEOUT : Z := 120.

(** The dict stored in [_last_error]. *)
Record error_detail := ErrorDetail {
  ed_skill : string; ed_time : string; ed_context : string
}.

(** The attributes of an [Orchestrator] object that the modelled methods
    read or assign, and the world it lives in. *)
Record t := Make {
  vault_path : string;
  dry_run : bool;
  running : bool;
  known_needs_action : gset string;
  known_approved : gset string;
  last_dashboard_update : Q;
  last_briefing_check : string;
  total_scans : Z;
  total_skills_run : Z;
  total_errors : Z;
  last_error : option error_detail;
  env : world
}.

Definition set_running (b : bool) (o : t) : t :=
  Make (vault_path o) (dry_run o) b (known_needs_action o) (known_approved o)
       (last_dashboard_update o) (last_briefing_check o) (total_scans o)
       (total_skills_run o) (total_errors o) (last_error o) (env o).
Definition set_known_needs_action (k : gset string) (o : t) : t :=
  Make (vault_path o) (dry_run o) (running o) k (known_approved o)
       (last_dashboard_update o) (last_briefing_check o) (total_scans o)
       (total_skills_run o) (total_errors o) (last_error o) (env o).
Definition set_known_approved (k : gset string) (o : t) : t :=
  Make (vault_path o) (dry_run o) (running o) (known_needs_action o) k
       (last_dashboard_update o) (last_briefing_check o) (total_scans o)
       (total_skills_run o) (total_errors o) (last_error o) (env o).
Definition set_last_briefing_check (d : string) (o : t) : t :=
  Make (vault_path o) (dry_run o) (running o) (known_needs_action o)
       (known_approved o) (last_dashboard_update o) d (total_scans o)
       (total_skills_run o) (total_errors o) (last_error o) (env o).
Definition set_total_skills_run (n : Z) (o : t) : t :=
  Make (vault_path o) (dry_run o) (running o) (known_needs_action o)
       (known_approved o) (last_dashboard_update o) (last_briefing_check o)
       (total_scans o) n (total_errors o) (last_error o) (env o).
Definition set_total_errors (n : Z) (o : t) : t :=
  Make (vault_path o) (dry_run o) (running o) (known_needs_action o)
       (known_approved o) (last_dashboard_update o) (last_briefing_check o)
       (total_scans o) (total_skills_run o) n (last_error o) (env o).
Definition set_last_error (e : option error_detail) (o : t) : t :=
  Make (vault_path o) (dry_run o) (running o) (known_needs_action o)
       (known_approved o) (last_dashboard_update o) (last_briefing_check o)
       (total_scans o) (total_skills_run o) (total_errors o) e (env o).
Definition set_env (w : world) (o : t) : t :=
  Make (vault_path o) (dry_run o) (running o) (known_needs_action o)
       (known_approved o) (last_dashboard_update o) (last_briefing_check o)
       (total_scans o) (total_skills_run o) (total_errors o) (last_error o) w.

Global Instance has_world : Has world t := {| project := env; inject := set_env |}.

(** [from_env], line 121. *)
Definition dry_run_from_env (environ : gmap string string) : bool :=
  bool_decide (lower (Security.getenv environ "DRY_RUN" "true") = "true").

(** [from_env]: the arguments handed to the constructor. *)
Definition from_env (environ : gmap string string) : outcome (string * bool) :=
  let vault_path := environ !! "VAULT_PATH" in
  let dry_run := dry_run_from_env environ in
  match vault_path with
  | Some p => if truthy p then Ok (p, dry_run) else Raise ValueError
  | None => Raise ValueError
  end.

(** [_shutdown], run when a signal arrives. *)
Definition shutdown : M t unit :=
  lift (logger INFO);; modify (set_running false).

(** ** File scanning *)

Definition endswith (s suffix : string) : bool :=
  startswith (rev s) (rev suffix).

(** [Path.name] of a path relative to the scanned folder. *)
Definition name (path : string) : string :=
  List.last (split "/" path) EmptyString.

(** [_scan_folder]: what [rglob("*.md")] yields, minus the two names. *)
Definition scan_folder (d : dir) : gset string :=
  if negb (dir_exists d) then ∅
  else filter (λ f, endswith (name f) ".md" = true ∧
                    ¬ (name f = ".gitkeep" ∨ name f = "TEMPLATE_approval.md"))
              (dom (dir_files d)).

Definition detect_new_needs_action : M t (gset string) :=
  current ← gets (λ o, scan_folder (w_vault (env o) Needs_Action));
  known ← gets known_needs_action;
  let new_files := current ∖ known in
  modify (set_known_needs_action current);;
  mret new_files.

Definition detect_new_approved : M t (gset string) :=
  current ← gets (λ o, scan_folder (w_vault (env o) Approved));
  known ← gets known_approved;
  let new_files := current ∖ known in
  modify (set_known_approved current);;
  mret new_files.

(** ** Logging *)

Definition detail_str (details : list (string * string)) : string :=
  join ", " ((λ kv, fst kv +:+ "=" +:+ snd kv) <$> details).

Definition log_event (event_type : string) (details : list (string * string))
    : M t unit :=
  today ← lift utcnow;
  let log_file := strftime_date today +:+ ".md" in
  now ← lift utcnow;
  let entry := LogEntry (strftime_clock now) event_type (detail_str details) in
  there ← lift (path_exists Logs log_file);
  if negb there
  then lift (write_text Logs log_file [LogHeader (strftime_date today) true; entry])
  else lift (append_text Logs log_file entry).

(** ** Skill execution *)

Definition build_prompt (vault_path skill_name context : string) : string :=
  let skill_path := vault_path +:+ "/.claude/skills/" +:+ skill_name +:+ ".md" in
  let base := "Read and follow the skill instructions in " +:+ skill_path +:+ "." in
  if truthy context then base +:+ " Context: " +:+ context else base.

Definition incr_total_skills_run : M t unit :=
  modify (λ o, set_total_skills_run (total_skills_run o + 1) o).

Definition run_skill (skill_name context : string) : M t bool :=
  o ← get;
  let prompt := build_prompt (vault_path o) skill_name context in
  if dry_run o then
    lift (logger INFO);;
    log_event "skill_dry_run" [("skill_name", skill_name); ("context", context)];;
    incr_total_skills_run;;
    mret true
  else
    lift (logger INFO);;
    result ← lift (subprocess_run prompt);
    (if p_signal result then shutdown else mret tt);;
    match p_exit result with
    | Exited returncode =>
        if returncode =? 0 then
          lift (logger INFO);;
          incr_total_skills_run;;
          log_event "skill_success" [("skill_name", skill_name)];;
          mret true
        else
          lift (logger ERROR);;
          log_event "skill_failed"
            [("skill_name", skill_name); ("error", take 200 (p_stderr result))];;
          mret false
    | TimeoutExpired =>
        lift (logger ERROR);;
        log_event "skill_timeout" [("skill_name", skill_name)];;
        mret false
    | FileNotFoundError =>
        lift (logger ERROR);;
        log_event "skill_error"
          [("skill_name", skill_name); ("error", "claude CLI not found")];;
        mret false
    end.

(** ** Alerting *)

Definition alert_filename (now : datetime) : string :=
  "ALERT_skill_failure_" +:+ strftime_compact now +:+ ".md".

Definition create_alert (skill_name : string) : M t unit :=
  now ← lift utcnow;
  let filename := alert_filename now in
  lift (write_text Needs_Action filename
          [SkillAlert (strftime_iso_z now) skill_name (strftime_human now)
                      (MAX_RETRIES + 1)]);;
  lift (logger CRITICAL).

Definition run_skill_with_retry (skill_name context : string) : M t bool :=
  success ← run_skill skill_name context;
  if negb success then
    lift (logger WARNING);;
    lift (sleep 5);;
    success ← run_skill skill_name context;
    (if negb success then
       modify (λ o, set_total_errors (total_errors o + 1) o);;
       stamp ← lift utcnow;
       modify (set_last_error
                 (Some (ErrorDetail skill_name (Security.isoformat stamp)
                                    (take 100 context))));;
       create_alert skill_name
     else mret tt);;
    mret success
  else mret success.

(** ** Scheduling *)

(** [_should_run_briefing], given the value [datetime.now] returned. *)
Definition should_run_briefing_at (now : datetime) (o : t) : bool * t :=
  let today_str := strftime_date now in
  if bool_decide (weekday now = BRIEFING_DAY)
     && bool_decide (hour now = BRIEFING_HOUR)
     && negb (bool_decide (last_briefing_check o = today_str))
  then (true, set_last_briefing_check today_str o)
  else (false, o).

Definition should_run_briefing : M t bool :=
  now ← lift utcnow;
  state (should_run_briefing_at now).

(** The clock values, among [nows], at which successive evaluations of
    the predicate answer [True]. *)
Fixpoint briefing_firings (nows : list datetime) (o : t) : list datetime :=
  match nows with
  | [] => []
  | now :: rest =>
      let '(r, o') := should_run_briefing_at now o in
      if r then now :: briefing_firings rest o' else briefing_firings rest o'
  end.

(** Successive detection calls, the inbox folder being in state [d] when
    the call is made: what each call reports as new. *)
Definition place_needs_action (d : dir) : M t unit :=
  modify (λ o, set_env (set_vault (<[Needs_Action := d]> (w_vault (env o)))
                                  (env o)) o).

Fixpoint detections (ds : list dir) : M t (list (gset string)) :=
  match ds with
  | [] => mret []
  | d :: rest =>
      place_needs_action d;;
      new_files ← detect_new_needs_action;
      later ← detections rest;
      mret (new_files :: later)
  end.

(** ** Item type *)

(** The loop of [_detect_item_type] over the lines of the file: it ends
    in a [return] of the value ([Some]), runs out of lines or breaks
    ([None]), or raises where the subscript [[1]] finds no element. *)
Definition find_type_line : list string → outcome (option string) :=
  fix go (lines : list string) : outcome (option string) :=
    match lines with
    | [] => Ok None
    | line :: rest =>
        let line := strip line in
        if startswith line "type:"
        then match split1 ":" line !! 1%nat with
             | Some value => Ok (Some (strip value))
             | None => Raise IndexError
             end
        else if bool_decide (line = "---") && negb (startswith line "---")
             then Ok None  (* break *)
             else go rest
    end.

(** [_detect_item_type], given how [filepath.read_text] ended.  The
    handler is [except Exception], which catches whatever the body
    raises. *)
Definition detect_item_type (read_text : outcome string) : string :=
  match read_text with
  | Ok text =>
      match find_type_line (split newline text) with
      | Ok (Some value) => value
      | Ok None => "unknown"
      | Raise _ => "unknown"
      end
  | Raise _ => "unknown"
  end.

(** What the docstring and spec ask of [_detect_item_type]: the value of
    the first line that, trimmed, starts with "type:", trimmed itself. *)
Fixpoint drop (n : nat) (s : string) : string :=
  match n, s with
  | S n', String _ s' => drop n' s'
  | _, _ => s
  end.

Definition declared_type (text : string) : option string :=
  line ← List.find (λ l, startswith (strip l) "type:") (split newline text);
  Some (strip (drop (String.length "type:") (strip line))).

End Orchestrator.

(* ===================================================================== *)
(** * ralph_loop.py                                                       *)
(* ===================================================================== *)

Module RalphLoop.
Import Py World.

Definition DEFAULT_MAX_ITERATIONS : Z := 10.
Definition CLAUDE_TIMEOUT : Z := 180.
Definition COMPLETION_MARKER : string := "TASK_COMPLETE".

(** The attributes of a [RalphLoop] object and the world it lives in.
    [task_file] is a path: a folder of the vault and a file name. *)
Record t := Make {
  vault_path : string;
  task_description : string;
  max_iterations : Z;
  dry_run : bool;
  task_id : string;
  task_filename : string;
  task_file : folder * string;
  iterations : list iteration;
  completed : bool;
  running : bool;
  env : world
}.

Definition set_task_file (p : folder * string) (r : t) : t :=
  Make (vault_path r) (task_description r) (max_iterations r) (dry_run r)
       (task_id r) (task_filename r) p (iterations r) (completed r)
       (running r) (env r).
Definition set_iterations (l : list iteration) (r : t) : t :=
  Make (vault_path r) (task_description r) (max_iterations r) (dry_run r)
       (task_id r) (task_filename r) (task_file r) l (completed r)
       (running r) (env r).
Definition set_completed (b : bool) (r : t) : t :=
  Make (vault_path r) (task_description r) (max_iterations r) (dry_run r)
       (task_id r) (task_filename r) (task_file r) (iterations r) b
       (running r) (env r).
Definition set_running (b : bool) (r : t) : t :=
  Make (vault_path r) (task_description r) (max_iterations r) (dry_run r)
       (task_id r) (task_filename r) (task_file r) (iterations r)
       (completed r) b (env r).
Definition set_env (w : world) (r : t) : t :=
  Make (vault_path r) (task_description r) (max_iterations r) (dry_run r)
       (task_id r) (task_filename r) (task_file r) (iterations r)
       (completed r) (running r) w.

Global Instance has_world : Has world t := {| project := env; inject := set_env |}.

(** ** Construction *)

(** The characters [re.sub] deletes from the description: the angle
    brackets, colon, double quote, slash, backslash, bar, question mark
    and star. *)
Definition unsafe_char (c : ascii) : bool :=
  bool_decide (ord c ∈ [60; 62; 58; 34; 47; 92; 124; 63; 42]%nat).

Fixpoint remove_unsafe (s : string) : string :=
  match s with
  | EmptyString => EmptyString
  | String c s' =>
      if unsafe_char c then remove_unsafe s' else String c (remove_unsafe s')
  end.

(** [re.sub(r"\s+", "_", s)]; [in_run] tells that the previous character
    was white space. *)
Fixpoint sub_spaces (in_run : bool) (s : string) : string :=
  match s with
  | EmptyString => EmptyString
  | String c s' =>
      if isspace c
      then (if in_run then sub_spaces true s' else String "_" (sub_spaces true s'))
      else String c (sub_spaces false s')
  end.

Definition safe_desc (task_description : string) : string :=
  take 40 (sub_spaces false (remove_unsafe task_description)).

(** [d.mkdir(parents=True, exist_ok=True)]. *)
Definition mkdir (f : folder) : M world unit :=
  modify (λ w, match w_vault w f with
               | Missing => set_vault (<[f := Dir true ∅]> (w_vault w)) w
               | Dir _ _ => w
               end).

Definition ensure_dirs : M world unit :=
  mkdir In_Progress;; mkdir Done;; mkdir Logs.

(** [__init__]; [security_dry_run] is [security.dry_run]. *)
Definition init (security_dry_run : bool) (vault_path task_description : string)
    (max_iterations : option Z) (dry_run : option bool) : M world t :=
  let max_iterations :=
    match max_iterations with
    | Some n => if n =? 0 then DEFAULT_MAX_ITERATIONS else n
    | None => DEFAULT_MAX_ITERATIONS
    end in
  let dry_run := default security_dry_run dry_run in
  stamp ← utcnow;
  let task_id := strftime_compact stamp in
  let task_filename := "TASK_" +:+ safe_desc task_description +:+ "_" +:+ task_id +:+ ".md" in
  ensure_dirs;;
  w ← get;
  mret (Make vault_path task_description max_iterations dry_run task_id
             task_filename (In_Progress, task_filename) [] false true w).

(** [_shutdown], run when a signal arrives. *)
Definition shutdown : M t unit :=
  lift (logger INFO);; modify (set_running false).

(** ** Task state file *)

Definition create_task_file : M t unit :=
  stamp ← lift utcnow;
  r ← get;
  lift (write_text (fst (task_file r)) (snd (task_file r))
          [TaskDoc (task_id r) (task_description r) (strftime_iso_z stamp) None
                   "in_progress" (max_iterations r) 0 (dry_run r) []]);;
  lift (logger INFO).

Definition clip_summary (n : nat) (it : iteration) : iteration :=
  Iteration (number it) (timestamp it) (success it) (duration_seconds it)
            (take n (summary it)) (output_length it).

Definition update_task_file (iteration : Z) (output_summary status : string)
    : M t unit :=
  stamp ← lift utcnow;
  let now := strftime_iso_z stamp in
  r ← get;
  let content :=
    [TaskDoc (task_id r) (task_description r)
             (match iterations r with
              | it :: _ => timestamp it
              | [] => now
              end)
             (Some now) status (max_iterations r) iteration (dry_run r)
             (clip_summary 200 <$> iterations r)] in
  let target := task_file r in
  if bool_decide (status = "completed") && bool_decide (fst target = In_Progress)
  then
    let new_path := (Done, task_filename r) in
    lift (unlink_missing_ok (fst target) (snd target));;
    modify (set_task_file new_path);;
    lift (write_text (fst new_path) (snd new_path) content)
  else
    lift (write_text (fst target) (snd target) content).

(** ** Completion detection *)

Definition pending_items (d : dir) : gset string :=
  filter (λ f, Orchestrator.endswith (Orchestrator.name f) ".md" = true ∧
               Orchestrator.name f ≠ ".gitkeep")
         (dom (dir_files d)).

Definition check_completion (claude_output : string) : M t bool :=
  r ← get;
  moved ← lift (path_exists Done (task_filename r));
  if (moved : bool) then
    lift (logger INFO);;
    modify (set_task_file (Done, task_filename r));;
    mret true
  else if contains COMPLETION_MARKER claude_output then
    lift (logger INFO);;
    mret true
  else
    pending ← gets (λ r, pending_items (w_vault (env r) Needs_Action));
    if bool_decide (pending = ∅) && contains "Needs_Action" (task_description r)
    then lift (logger INFO);; mret true
    else mret false.

(** ** Prompt building *)

Definition result_word (ok : bool) : string := if ok then "success" else "failed".

(** The em dash of the second and third line, a code point above 255,
    is written as a hyphen here. *)
Definition build_prompt (iteration : Z) (r : t) : string :=
  let head :=
    [ "You are the AI Employee working in an Obsidian vault at "
        +:+ vault_path r +:+ ".";
      "Your skills are defined in .claude/skills/ - read them for instructions.";
      "Your rules are in Company_Handbook.md - always follow them.";
      EmptyString;
      "## Task";
      task_description r;
      EmptyString ] in
  let history :=
    if (1 <? iteration) && negb (bool_decide (iterations r = []))
    then
      [ "## Previous Iterations";
        "This is iteration " +:+ pretty iteration +:+ " of "
          +:+ pretty (max_iterations r) +:+ ". "
          +:+ "The task is NOT yet complete. Here is what was done so far:";
        EmptyString ]
      ++ (it ← iterations r;
          [ "### Iteration " +:+ pretty (number it);
            "Result: " +:+ result_word (success it);
            "Output summary: " +:+ take 300 (summary it);
            EmptyString ])
      ++ [ "## What to do now";
           "Continue where the previous iteration left off. "
             +:+ "Do NOT repeat work that was already completed. "
             +:+ "Focus on the remaining steps.";
           EmptyString ]
    else [] in
  let tail :=
    [ "## Completion";
      "When the task is fully complete:";
      "1. Move the task file from /In_Progress/" +:+ task_filename r +:+ " to /Done/";
      "2. Include the string TASK_COMPLETE in your final output";
      "3. Update Dashboard.md with the results";
      EmptyString;
      "If the task is NOT complete after this iteration, summarize what was done";
      "and what still needs to be done. Do NOT output TASK_COMPLETE." ] in
  join nl (head ++ history ++ tail).

(** ** Agent execution *)

Section WithSecurity.
(** The module-level singleton [security] of [security_config.py]. *)
Variable security : Security.config.

Definition run_claude (prompt : string) : M t (bool * string) :=
r ← get;
if dry_run r then
  lift (logger INFO);;
  lift (Security.audit_log security "skill_run" "ralph_loop"
          (take 100 (task_description r)) "dry_run" None
          (Some [("task_id", JStr (task_id r))]));;
  mret (true, "DRY RUN: Would execute task. Iteration prompt length: "
                +:+ pretty (String.length prompt) +:+ " chars")
else
  result ← lift (subprocess_run prompt);
  (if p_signal result then shutdown else mret tt);;
  match p_exit result with
  | Exited returncode =>
      let output := p_stdout result in
      if returncode =? 0 then mret (true, output)
      else
        let error := if truthy (p_stderr result) then p_stderr result
                     else "Unknown error" in
        lift (logger ERROR);;
        mret (false, "ERROR (exit " +:+ pretty returncode +:+ "): "
                       +:+ take 200 error)
  | TimeoutExpired =>
      lift (logger ERROR);;
      mret (false, "TIMEOUT after " +:+ pretty CLAUDE_TIMEOUT +:+ "s")
  | FileNotFoundError =>
      lift (logger ERROR);;
      mret (false, "ERROR: claude CLI not found")
  end.

(** ** Helpers *)

Definition is_noise (line : string) : bool :=
startswith line "{" || startswith line "```" || startswith line "---".

Definition summarize_output (output : string) : outcome string :=
if negb (truthy output) then Ok "(no output)"
else
  let lines :=
    strip <$> filter (λ l, truthy (strip l) = true) (split newline (strip output)) in
  let meaningful := list.take 5 (filter (λ l, is_noise l = false) lines) in
  match meaningful with
  | _ :: _ => Ok (join " | " meaningful)
  | [] => match lines with
          | first :: _ => Ok (take 200 first)
          | [] => Raise IndexError
          end
  end.

Definition of_outcome {S A} (o : outcome A) : M S A := λ s, (o, s).

Definition str_bool (b : bool) : string := if b then "True" else "False".

(** [str] of a float that [round(.., 1)] returned, held in tenths. *)
Definition str_tenths (d : Z) : string :=
(if d <? 0 then "-" else EmptyString) +:+ pretty (Z.abs d / 10) +:+ "."
  +:+ pretty (Z.abs d mod 10).

(** [round(x, 1)], in tenths: to the nearest, ties to even. *)
Definition round1 (x : Q) : Z :=
let y := (x * 10)%Q in
let f := Qfloor y in
let rest := (y - inject_Z f)%Q in
if decide (rest < 1 # 2)%Q then f
else if decide ((1 # 2) < rest)%Q then f + 1
else if Z.even f then f else f + 1.

Definition log_event (event_type : string) (details : list (string * string))
  : M t unit :=
today ← lift utcnow;
let log_file := strftime_date today +:+ ".md" in
now ← lift utcnow;
r ← get;
let entry :=
  LogEntry (strftime_clock now) event_type
           ("task=" +:+ task_id r +:+ ", " +:+ Orchestrator.detail_str details) in
there ← lift (path_exists Logs log_file);
if negb there
then lift (write_text Logs log_file [LogHeader (strftime_date today) false; entry])
else lift (append_text Logs log_file entry).

Definition alert_filename (r : t) : string :=
"ALERT_ralph_loop_exhausted_" +:+ task_id r +:+ ".md".

Definition create_alert : M t unit :=
now ← lift utcnow;
r ← get;
lift (write_text Needs_Action (alert_filename r)
        [ExhaustedAlert (strftime_iso_z now) (task_description r) (task_id r)
                        (max_iterations r) ("In_Progress/" +:+ task_filename r)
                        (clip_summary 100 <$> iterations r)]);;
lift (logger WARNING).

(** ** Main loop *)

(** The body of [for iteration in range(1, max_iterations + 1)], with [n]
  passes left; [Some b] is [return b] from inside the loop. *)
Fixpoint run_loop (n : nat) (iteration : Z) : M t (option bool) :=
match n with
| O => mret None
| S n' =>
    r ← get;
    if negb (running r) then
      lift (logger INFO);;
      update_task_file (iteration - 1) "Interrupted by user" "interrupted";;
      log_event "ralph_interrupted" [("iteration", pretty iteration)];;
      mret (Some false)
    else
      lift (logger INFO);;
      prompt ← gets (build_prompt iteration);
      start_time ← lift time_time;
      '(success, output) ← run_claude prompt;
      end_time ← lift time_time;
      let duration := round1 (end_time - start_time) in
      summary ← of_outcome (summarize_output output);
      stamp ← lift utcnow;
      let iter_record :=
        Iteration iteration (strftime_iso_z stamp) success duration summary
                  (String.length output) in
      modify (λ r, set_iterations (iterations r ++ [iter_record]) r);;
      lift (logger INFO);;
      lift (logger INFO);;
      complete ← (if success then check_completion output else mret false);
      if (complete : bool) then
        modify (set_completed true);;
        update_task_file iteration summary "completed";;
        log_event "ralph_complete"
          [("iterations", pretty iteration); ("duration_total", str_tenths duration)];;
        lift (logger INFO);;
        mret (Some true)
      else
        update_task_file iteration summary "in_progress";;
        log_event "ralph_iteration"
          [("iteration", pretty iteration); ("success", str_bool success)];;
        (if negb success then lift (logger WARNING) else mret tt);;
        max ← gets max_iterations;
        (if iteration <? max then lift (sleep 2) else mret tt);;
        run_loop n' (iteration + 1)
end.

Definition run : M t bool :=
lift (logger INFO);;
create_task_file;;
log_event "ralph_start" [];;
max ← gets max_iterations;
returned ← run_loop (Z.to_nat max) 1;
match returned with
| Some b => mret b
| None =>
    update_task_file max "Max iterations reached" "max_iterations_exceeded";;
    log_event "ralph_exhausted" [("iterations", pretty max)];;
    lift (logger WARNING);;
    create_alert;;
    mret false
end.

(** [main], from [loop.run()] on: the status handed to [sys.exit]. *)
Definition main_exit : M t Z :=
success ← run;
mret (if (success : bool) then 0 else 1).

End WithSecurity.

(** How the runner's state moves over some steps: what was recorded,
    what the agent oracle is, and the attributes fixed at construction. *)
Record proceeds (r r' : t) (evs : list event) : Prop := {
  pr_trace : w_trace (env r') = w_trace (env r) ++ evs;
  pr_agent : w_agent (env r') = w_agent (env r);
  pr_spawned : w_spawned (env r') = (w_spawned (env r) + spawns evs)%nat;
  pr_max : max_iterations r' = max_iterations r;
  pr_dry : dry_run r' = dry_run r;
  pr_id : task_id r' = task_id r;
  pr_desc : task_description r' = task_description r;
  pr_name : task_filename r' = task_filename r;
  pr_file : task_file r' = task_file r
}.

End RalphLoop.

(* ===================================================================== *)
(** * Character classes used when reading rendered text                   *)
(* ===================================================================== *)

Module Chars.
Import Py.

(** The ten digits. *)
Definition digit_char (c : ascii) : bool :=
  ((48 <=? ord c) && (ord c <=? 57))%nat.

(** The characters of a rendered integer: the digits and the minus. *)
Definition numeric_char (c : ascii) : bool :=
  bool_decide (c = "-"%char) || digit_char c.

End Chars.

(* ===================================================================== *)
(** * security_config.py: the rate limits of [SecurityConfig]             *)
(* ===================================================================== *)

Module SecurityConfig.
Import Py World Security.

(** The clock values, among those of successive [allow()] calls, at which
    the call was granted. *)
Fixpoint granted (times : list Q) (answers : list bool) : list Q :=
  match times, answers with
  | t :: times', r :: answers' =>
      if r then t :: granted times' answers' else granted times' answers'
  | _, _ => []
  end.

(** The process as the methods of [SecurityConfig] see it: the singleton
    [security] and the world outside. *)
Record process := Process {
  security : config;
  env : world
}.

Definition set_security (c : config) (p : process) : process :=
  Process c (env p).
Definition set_env (w : world) (p : process) : process :=
  Process (security p) w.

Global Instance has_world : Has world process :=
  {| project := env; inject := set_env |}.

(** The bucket object is shared: what [allow] and [current_count] assign
    to [_timestamps] is seen through the dict. *)
Definition store (action_type : string) (b : bucket) : M process unit :=
  modify (λ p, set_security
                 (Config (dry_run (security p))
                         (<[action_type := b]> (rate_limiters (security p)))) p).

(** [check_rate_limit].  The warning's f-string calls
    [bucket.current_count()], which reads the clock and purges again. *)
Definition check_rate_limit (action_type : string) : M process bool :=
  limiters ← gets (λ p, rate_limiters (security p));
  match limiters !! action_type with
  | None => mret true
  | Some b =>
      '(allowed, b') ← lift (allow b);
      store action_type b';;
      (if negb allowed then
         now ← lift time_time;
         store action_type (snd (current_count_at now b'));;
         lift (logger WARNING)
       else mret tt);;
      mret allowed
  end.

End SecurityConfig.

(* ===================================================================== *)
(** * security_config.py: successive calls of [audit_log]                 *)
(* ===================================================================== *)

Module AuditLog.
Import Py World Security.

(** The arguments of one call of [audit_log]. *)
Record call := Call {
  action_type : string;
  actor : string;
  target : string;
  result : string;
  dry_run : option bool;
  metadata : option (list (string * json))
}.

(** The calls made one after the other; the entries they return. *)
Fixpoint audit_calls (security : config) (calls : list call)
    : M world (list audit_entry) :=
  match calls with
  | [] => mret []
  | c :: rest =>
      entry ← audit_log security (action_type c) (actor c) (target c)
                        (result c) (dry_run c) (metadata c);
      entries ← audit_calls security rest;
      mret (entry :: entries)
  end.

End AuditLog.

(* ===================================================================== *)
(** * orchestrator.py: reports of successive scans, uptime                *)
(* ===================================================================== *)

Module Monitoring.
Import Py World.

(** What a caller that keeps the previous scan and reports the
    difference reports over successive scans. *)
Fixpoint successive_differences (known : gset string)
    (scans : list (gset string)) : list (gset string) :=
  match scans with
  | [] => []
  | current :: later => (current ∖ known) :: successive_differences current later
  end.

(** [int(x)] of a float: truncation towards zero. *)
Definition int (x : Q) : Z :=
  if Qle_bool 0 x then Qfloor x else Qceiling x.

(** [Orchestrator._format_uptime]; [divmod] rounds towards minus
    infinity, as [Z.div] and [Z.modulo] do for a positive divisor. *)
Definition format_uptime (seconds : Q) : string :=
  let hours := int seconds / 3600 in
  let remainder := int seconds mod 3600 in
  let minutes := remainder / 60 in
  let secs := remainder mod 60 in
  if 0 <? hours
  then pretty hours +:+ "h " +:+ pretty minutes +:+ "m " +:+ pretty secs +:+ "s"
  else if 0 <? minutes
       then pretty minutes +:+ "m " +:+ pretty secs +:+ "s"
       else pretty secs +:+ "s".

(** [_should_update_dashboard], given the value [time.time()] returned. *)
Definition should_update_dashboard_at (now : Q) (o : Orchestrator.t) : bool :=
  Qle_bool (inject_Z Orchestrator.DASHBOARD_INTERVAL)
           (now - Orchestrator.last_dashboard_update o).

End Monitoring.

(* ===================================================================== *)
(** * orchestrator.py: the two watched folders                            *)
(* ===================================================================== *)

Module Watching.
Import Py World Orchestrator.

(** The folders that [_tick] diffs against a snapshot. *)
Inductive watched := WatchedInbox | WatchedApproved.

Global Instance watched_eq_dec : EqDecision watched.
Proof. solve_decision. Defined.

(** [self.needs_action] and [self.approved]. *)
Definition watched_folder (k : watched) : folder :=
  match k with
  | WatchedInbox => Needs_Action
  | WatchedApproved => Approved
  end.

(** [_known_needs_action] and [_known_approved]. *)
Definition known (k : watched) (o : t) : gset string :=
  match k with
  | WatchedInbox => known_needs_action o
  | WatchedApproved => known_approved o
  end.

(** [_detect_new_needs_action] and [_detect_new_approved]. *)
Definition detect_new (k : watched) : M t (gset string) :=
  match k with
  | WatchedInbox => detect_new_needs_action
  | WatchedApproved => detect_new_approved
  end.

(** The watched folder is in state [d]. *)
Definition place (k : watched) (d : dir) : M t unit :=
  modify (λ o, set_env (set_vault (<[watched_folder k := d]> (w_vault (env o)))
                                  (env o)) o).

(** Detection calls made one after the other, in any order of the two
    detectors, the folder scanned being in state [d] when its call is
    made: what each call reports as new. *)
Fixpoint detection_calls (calls : list (watched * dir))
    : M t (list (gset string)) :=
  match calls with
  | [] => mret []
  | (k, d) :: rest =>
      place k d;;
      new_files ← detect_new k;
      later ← detection_calls rest;
      mret (new_files :: later)
  end.

End Watching.

(* ===================================================================== *)
(** * base_watcher.py: the loop of [BaseWatcher.run]                      *)
(* ===================================================================== *)

Module BaseWatcher.
Import Py World.

Definition MAX_CONSECUTIVE_ERRORS : Z := 10.

(** The attributes of a watcher that [run] reads or assigns. *)
Record t := Make {
  check_interval : Z;
  running : bool;
  error_count : Z;
  env : world
}.

Definition set_running (b : bool) (r : t) : t :=
  Make (check_interval r) b (error_count r) (env r).
Definition set_error_count (n : Z) (r : t) : t :=
  Make (check_interval r) (running r) n (env r).
Definition set_env (w : world) (r : t) : t :=
  Make (check_interval r) (running r) (error_count r) w.

Global Instance has_world : Has world t := {| project := env; inject := set_env |}.

(** [_shutdown], run when a signal arrives. *)
Definition shutdown : M t unit :=
  lift (logger INFO);; modify (set_running false).

Section WithSubclass.
(** The two abstract methods, as the cycle of the loop and the position
    in the list of updates determine them: how many updates
    [check_for_updates] returns, or what it raises, and how
    [create_action_file] ends.  What they do to the world is left out. *)
Variable check_for_updates : nat → outcome nat.
Variable create_action_file : nat → nat → outcome unit.
(** Whether SIGINT or SIGTERM arrives during a cycle. *)
Variable signal : nat → bool.

Definition of_outcome {A} (o : outcome A) : M t A := λ s, (o, s).

(** [for action in updates: self.create_action_file(action)]. *)
Fixpoint create_all (cycle : nat) (k : nat) (left : nat) : M t unit :=
  match left with
  | O => mret tt
  | S left' =>
      of_outcome (create_action_file cycle k);;
      create_all cycle (S k) left'
  end.

(** The body of the [try] statement. *)
Definition attempt (cycle : nat) : M t unit :=
  updates ← of_outcome (check_for_updates cycle);
  (if (0 <? updates)%nat
   then lift (logger INFO);; create_all cycle 0 updates
   else lift (logger DEBUG));;
  modify (set_error_count 0).

(** The [while self._running] loop, with [fuel] cycles at most; the
    answer tells whether the loop was left. *)
Fixpoint cycles (fuel : nat) (cycle : nat) : M t bool :=
  match fuel with
  | O => mret false
  | S fuel' =>
      r ← get;
      if negb (running r) then mret true
      else
        broke ← try_except (attempt cycle;; mret false)
                  (λ _, Some (
                     modify (λ r, set_error_count (error_count r + 1) r);;
                     lift (logger ERROR);;
                     r ← get;
                     if MAX_CONSECUTIVE_ERRORS <=? error_count r
                     then lift (logger CRITICAL);;
                          modify (set_running false);;
                          mret true
                     else mret false));
        if (broke : bool) then mret true
        else
          (if signal cycle then shutdown else mret tt);;
          r ← get;
          (if running r then lift (sleep (check_interval r)) else mret tt);;
          cycles fuel' (S cycle)
  end.

(** [run]. *)
Definition run (fuel : nat) : M t bool :=
  lift (logger INFO);;
  modify (set_running true);;
  modify (set_error_count 0);;
  left ← cycles fuel 0;
  (if (left : bool) then lift (logger INFO) else mret tt);;
  mret left.

(** Does the [try] body of a cycle raise? *)
Fixpoint creation_fails (cycle : nat) (k : nat) (left : nat) : bool :=
  match left with
  | O => false
  | S left' =>
      match create_action_file cycle k with
      | Ok _ => creation_fails cycle (S k) left'
      | Raise _ => true
      end
  end.

Definition fails (cycle : nat) : bool :=
  match check_for_updates cycle with
  | Ok updates => creation_fails cycle 0 updates
  | Raise _ => true
  end.

End WithSubclass.

End BaseWatcher.

(* ===================================================================== *)
(** * orchestrator.py: item tracking and the scan cycle                   *)
(* ===================================================================== *)

Module Pipeline.
Import Py World.

Inductive State :=
| IDLE | DETECTED | PROCESSING | AWAITING_APPROVAL | APPROVED | EXECUTING | DONE.

Record ItemTracker := Tracker {
  filepath : string;
  item_type : string;
  state : State;
  created_at : datetime;
  last_updated : datetime;
  retries : Z;
  error : option string
}.

(** The orchestrator with the dict [_items], keyed by file name. *)
Record t := Make {
  core : Orchestrator.t;
  items : gmap string ItemTracker
}.

Definition set_core (o : Orchestrator.t) (p : t) : t := Make o (items p).
Definition set_items (m : gmap string ItemTracker) (p : t) : t := Make (core p) m.

Global Instance has_core : Has Orchestrator.t t :=
  {| project := core; inject := set_core |}.
Global Instance has_world : Has world t :=
  {| project := λ p, Orchestrator.env (core p);
     inject := λ w p, set_core (Orchestrator.set_env w (core p)) p |}.

Definition set_total_scans (n : Z) (o : Orchestrator.t) : Orchestrator.t :=
  Orchestrator.Make
    (Orchestrator.vault_path o) (Orchestrator.dry_run o) (Orchestrator.running o)
    (Orchestrator.known_needs_action o) (Orchestrator.known_approved o)
    (Orchestrator.last_dashboard_update o) (Orchestrator.last_briefing_check o)
    n (Orchestrator.total_skills_run o) (Orchestrator.total_errors o)
    (Orchestrator.last_error o) (Orchestrator.env o).

Definition set_last_dashboard_update (x : Q) (o : Orchestrator.t)
    : Orchestrator.t :=
  Orchestrator.Make
    (Orchestrator.vault_path o) (Orchestrator.dry_run o) (Orchestrator.running o)
    (Orchestrator.known_needs_action o) (Orchestrator.known_approved o)
    x (Orchestrator.last_briefing_check o)
    (Orchestrator.total_scans o) (Orchestrator.total_skills_run o)
    (Orchestrator.total_errors o) (Orchestrator.last_error o) (Orchestrator.env o).

(** [ItemTracker.__init__]. *)
Definition new_tracker (filepath item_type : string) : M t ItemTracker :=
  now ← lift utcnow;
  mret (Tracker filepath item_type DETECTED now now 0 None).

(** [self._items[key] = tracker]. *)
Definition put_item (key : string) (tracker : ItemTracker) : M t unit :=
  modify (λ p, set_items (<[key := tracker]> (items p)) p).

(** [self._items[key].transition(new_state)]; the callers test
    [key in self._items] first. *)
Definition transition (key : string) (new_state : State) : M t unit :=
  now ← lift utcnow;
  modify (λ p, set_items
                 (alter (λ tr, Tracker (filepath tr) (item_type tr) new_state
                                       (created_at tr) now (retries tr) (error tr))
                        key (items p)) p).

(** [self._items[key].error = message]. *)
Definition set_error (key message : string) : M t unit :=
  modify (λ p, set_items
                 (alter (λ tr, Tracker (filepath tr) (item_type tr) (state tr)
                                       (created_at tr) (last_updated tr)
                                       (retries tr) (Some message))
                        key (items p)) p).

(** [self._items[key].retries += 1]. *)
Definition incr_retries (key : string) : M t unit :=
  modify (λ p, set_items
                 (alter (λ tr, Tracker (filepath tr) (item_type tr) (state tr)
                                       (created_at tr) (last_updated tr)
                                       (retries tr + 1) (error tr))
                        key (items p)) p).

Definition tracked (key : string) : M t bool :=
  gets (λ p, bool_decide (is_Some (items p !! key))).

(** [for x in l: body(x)]. *)
Fixpoint for_each {A} (body : A → M t unit) (l : list A) : M t unit :=
  match l with
  | [] => mret tt
  | x :: l' => body x;; for_each body l'
  end.

Section WithFiles.
(** [filepath.read_text(encoding="utf-8")], as the file system answers
    it: the text, or the exception raised. *)
Variable read_text : world → string → outcome string.

Definition track_new (f : string) : M t unit :=
  let key := Orchestrator.name f in
  item_type ← gets (λ p, Orchestrator.detect_item_type
                           (read_text (Orchestrator.env (core p)) f));
  tracker ← new_tracker f item_type;
  put_item key tracker;;
  lift (Orchestrator.log_event "item_detected"
          [("file", key); ("type", item_type)]).

(** [_handle_new_items]; [new_files] is the set in the order in which
    the [for] loops go through it. *)
Definition handle_new_items (new_files : list string) : M t unit :=
  for_each track_new new_files;;
  let file_list := join ", " (Orchestrator.name <$> new_files) in
  success ← lift (Orchestrator.run_skill_with_retry "process_inbox"
                    ("New items detected: " +:+ file_list));
  for_each (λ f,
    let key := Orchestrator.name f in
    there ← tracked key;
    if (there : bool) then
      if (success : bool) then
        transition key PROCESSING;;
        transition key AWAITING_APPROVAL
      else
        set_error key "process_inbox failed";;
        incr_retries key
    else mret tt) new_files.

Definition mark_approved (f : string) : M t unit :=
  let key := Orchestrator.name f in
  lift (Orchestrator.log_event "item_approved" [("file", key)]);;
  there ← tracked key;
  if (there : bool) then transition key APPROVED
  else
    tracker ← new_tracker f "approved_action";
    (* [tracker.transition(State.APPROVED)], before it is stored *)
    now ← lift utcnow;
    put_item key (Tracker (filepath tracker) (item_type tracker) APPROVED
                          (created_at tracker) now (retries tracker)
                          (error tracker)).

(** [_handle_approved]. *)
Definition handle_approved (approved_files : list string) : M t unit :=
  for_each mark_approved approved_files;;
  let file_list := join ", " (Orchestrator.name <$> approved_files) in
  success ← lift (Orchestrator.run_skill_with_retry "execute_approved"
                    ("Approved items to execute: " +:+ file_list));
  for_each (λ f,
    let key := Orchestrator.name f in
    there ← tracked key;
    if (there : bool) then
      if (success : bool) then
        transition key EXECUTING;;
        transition key DONE
      else set_error key "execute_approved failed"
    else mret tt) approved_files;;
  if (success : bool) then
    lift (Orchestrator.run_skill_with_retry "update_dashboard" EmptyString);;
    now ← lift time_time;
    lift (modify (set_last_dashboard_update now))
  else mret tt.

(** [_tick].  The sets are gone through in the order of [elements]. *)
Definition tick : M t unit :=
  lift (modify (λ o, set_total_scans (Orchestrator.total_scans o + 1) o));;
  new_items ← lift Orchestrator.detect_new_needs_action;
  (if bool_decide (new_items = ∅) then mret tt
   else lift (logger INFO);; handle_new_items (elements new_items));;
  new_approved ← lift Orchestrator.detect_new_approved;
  (if bool_decide (new_approved = ∅) then mret tt
   else lift (logger INFO);; handle_approved (elements new_approved));;
  now ← lift time_time;
  due ← gets (λ p, Monitoring.should_update_dashboard_at now (core p));
  (if (due : bool) then
     lift (logger INFO);;
     lift (Orchestrator.run_skill_with_retry "update_dashboard" EmptyString);;
     now ← lift time_time;
     lift (modify (set_last_dashboard_update now))
   else mret tt);;
  briefing ← lift Orchestrator.should_run_briefing;
  if (briefing : bool) then
    lift (logger INFO);;
    lift (Orchestrator.run_skill_with_retry "ceo_briefing" EmptyString);;
    mret tt
  else mret tt.

End WithFiles.

(** The states in which a tracker can be seen between two calls. *)
Definition settled_state (s : State) : bool :=
  match s with
  | DETECTED | AWAITING_APPROVAL | APPROVED | DONE => true
  | IDLE | PROCESSING | EXECUTING => false
  end.

Definition settled (p : t) : Prop :=
  map_Forall (λ _ tr, settled_state (state tr) = true) (items p).

(** A computation that keeps the trackers in settled states, however it
    ends. *)
Definition keeps {A} (m : M t A) : Prop :=
  ∀ p, settled p → settled (snd (m p)).

(** A computation that, started in dry-run mode, ends in dry-run mode
    with the count of agent runs as it was, however it ends. *)
Definition hushed {A} (m : M t A) : Prop :=
  ∀ p, Orchestrator.dry_run (core p) = true →
       Orchestrator.dry_run (core (snd (m p))) = true ∧
       w_spawned (Orchestrator.env (core (snd (m p))))
         = w_spawned (Orchestrator.env (core p)).

(** The computation returns from [p], with an answer and a state that
    [Q] holds of. *)
Definition returns {A} (m : M t A) (p : t) (Q : A → t → Prop) : Prop :=
  ∃ a p', m p = (Ok a, p') ∧ Q a p'.

(** Dry-run mode, with a log folder in which every write succeeds. *)
Definition rehearsing (p : t) : Prop :=
  Orchestrator.dry_run (core p) = true ∧
  writable (w_vault (Orchestrator.env (core p))) Logs.

(** How many times the agent was started so far. *)
Definition agent_runs (p : t) : nat :=
  w_spawned (Orchestrator.env (core p)).

(** A step of a rehearsal that leaves the trackers alone. *)
Definition steady (p p' : t) : Prop :=
  items p' = items p ∧ rehearsing p' ∧ agent_runs p' = agent_runs p.

End Pipeline.

(* ===================================================================== *)
(** * Computations that start no agent                                    *)
(* ===================================================================== *)

Module Quiet.
Import Py World.

(** A computation on the world that leaves the count of agent runs as it
    was, however it ends. *)
Definition still {A} (m : M world A) : Prop :=
  ∀ w, w_spawned (snd (m w)) = w_spawned w.

(** A computation of the task runner that, started in dry-run mode, ends
    in dry-run mode with the count of agent runs as it was, however it
    ends. *)
Definition quiet {A} (m : M RalphLoop.t A) : Prop :=
  ∀ r, RalphLoop.dry_run r = true →
       RalphLoop.dry_run (snd (m r)) = true ∧
       w_spawned (RalphLoop.env (snd (m r))) = w_spawned (RalphLoop.env r).

(** The same, of a computation of the orchestrator. *)
Definition calm {A} (m : M Orchestrator.t A) : Prop :=
  ∀ o, Orchestrator.dry_run o = true →
       Orchestrator.dry_run (snd (m o)) = true ∧
       w_spawned (Orchestrator.env (snd (m o))) = w_spawned (Orchestrator.env o).

End Quiet.

(* ===================================================================== *)
(** * Concrete situations                                                 *)
(* ===================================================================== *)

Module Scenario.
Import Py World.

(** A clock that advances one second per reading, on the night of
    Sunday 8 November 2026. *)
Definition sunday_night (h m s : Z) : datetime := DateTime 2026 11 8 h m s 0.

Definition ticking (n : nat) : instant :=
  Instant (inject_Z (Z.of_nat n))
          (sunday_night 23 5 (Z.of_nat n mod 60)).

(** A vault whose folders are all there, empty and writable. *)
Definition open_vault : vault := λ _, Dir true ∅.

(** Agents. *)
Definition failing : completed :=
  Completed (Exited 1) EmptyString "boom" (λ v, v) false.

Definition succeeding (stdout : string) : completed :=
  Completed (Exited 0) stdout EmptyString (λ v, v) false.


Definition world_with (agent : nat → completed) : world :=
  MkWorld open_vault ticking 0 agent 0 [].

(** An orchestrator in live mode. *)
Definition orchestrator_with (agent : nat → completed) : Orchestrator.t :=
  Orchestrator.Make "/vault" false true ∅ ∅ 0 EmptyString 0 0 0 None (world_with agent).

Definition always_failing : nat → completed := λ _, failing.

Definition failing_once : nat → completed :=
  λ n, match n with O => failing | S _ => succeeding "ok" end.

(** An inbox holding one note. *)
Definition inbox_with_note : dir :=
  Dir true {[ "note.md" := File true [Text "type: email"] ]}.

(** A task runner in live mode, built by the constructor. *)
Definition runner_with (max_iterations : Z) (agent : nat → completed)
    : RalphLoop.t :=
  match RalphLoop.init true "/vault" "Summarise the inbox"
          (Some max_iterations) (Some false) (world_with agent) with
  | (Ok r, _) => r
  | (Raise _, w) =>
      RalphLoop.Make EmptyString EmptyString 0 false EmptyString EmptyString (In_Progress, EmptyString) [] false true w
  end.

Definition task_name : string :=
  "TASK_Summarise_the_inbox_20261108_230500.md".



(** Prints the marker and leaves the task file alone. *)
Definition announces : nat → completed :=
  λ _, succeeding "all steps finished TASK_COMPLETE".

Definition security : Security.config := Security.Config true ∅.


End Scenario.

(* ===================================================================== *)
(** * More concrete situations                                            *)
(* ===================================================================== *)

Module Fixtures.
Import Py World.

(** A task runner in dry-run mode, built by the constructor. *)
Definition dry_runner (max_iterations : Z) : RalphLoop.t :=
  match RalphLoop.init true "/vault" "Summarise the inbox"
          (Some max_iterations) (Some true)
          (Scenario.world_with Scenario.always_failing) with
  | (Ok r, _) => r
  | (Raise _, w) =>
      RalphLoop.Make EmptyString EmptyString 0 true EmptyString EmptyString
                     (In_Progress, EmptyString) [] false true w
  end.

(** An orchestrator in dry-run mode. *)
Definition dry_orchestrator : Orchestrator.t :=
  Orchestrator.Make "/vault" true true ∅ ∅ 0 EmptyString 0 0 0 None
    (Scenario.world_with Scenario.always_failing).

(** The same with its item trackers, none yet. *)
Definition dry_pipeline : Pipeline.t := Pipeline.Make dry_orchestrator ∅.

(** A file system on which the files of the inbox can be scanned but not
    read. *)
Definition unreadable : world → string → outcome string :=
  λ _ _, Raise OSError.

End Fixtures.

(* ===================================================================== *)
(** * Facts about the world model                                         *)
(* ===================================================================== *)

Section WorldFacts.
Import Py World.

Lemma put_file_other_folder (v : vault) f name cs f' :
  f' ≠ f → put_file f name cs v f' = v f'.
Proof.
  intros Hne. unfold put_file. destruct (v f); [done|].
  by rewrite fn_lookup_insert_ne.
Qed.

Lemma chunks_at_put_file (v : vault) f name cs :
  can_write v f name = true → chunks_at (put_file f name cs v) f name = cs.
Proof.
  unfold can_write, chunks_at, put_file.
  destruct (v f) as [|dw files]; [done|]. intros _.
  rewrite fn_lookup_insert. cbn. by rewrite lookup_insert_eq.
Qed.


Lemma writable_can_write (v : vault) f name :
  writable v f → can_write v f name = true.
Proof.
  intros (files & E & Hall). unfold can_write. rewrite E.
  destruct (files !! name) as [fl|] eqn:El; [|done].
  exact (Hall _ _ El).
Qed.

Lemma writable_put_file (v : vault) f name cs f' :
  writable v f' → writable (put_file f name cs v) f'.
Proof.
  intros (files & E & Hall). destruct (decide (f' = f)) as [->|Hne].
  - unfold put_file. rewrite E.
    eexists. rewrite fn_lookup_insert. split; [done|].
    apply map_Forall_insert_2; [|done]. cbn.
    destruct (files !! name) as [fl|] eqn:El; [|done]. exact (Hall _ _ El).
  - exists files. by rewrite put_file_other_folder.
Qed.

Lemma spawns_app (evs evs' : list event) :
  spawns (evs ++ evs') = (spawns evs + spawns evs')%nat.
Proof. unfold spawns. by rewrite omap_app, length_app. Qed.

Lemma written_app f (evs evs' : list event) :
  written f (evs ++ evs') = written f evs ++ written f evs'.
Proof. unfold written. by rewrite omap_app. Qed.

Lemma spawns_cons (e : event) (evs : list event) :
  spawns (e :: evs) =
    (match e with EvSpawn _ => 1 | _ => 0 end + spawns evs)%nat.
Proof. unfold spawns. by destruct e. Qed.

Lemma spawns_nil : spawns [] = 0%nat.
Proof. done. Qed.

Lemma written_cons f (e : event) (evs : list event) :
  written f (e :: evs) =
    match e with
    | EvWrite f' name => if decide (f' = f) then [name] else []
    | _ => []
    end ++ written f evs.
Proof. unfold written. destruct e; try done. cbn. by case_decide. Qed.

Lemma written_nil f : written f [] = [].
Proof. done. Qed.

Lemma advances_refl w : advances w w 0 [].
Proof. split; rewrite ?app_nil_r; cbn; auto with lia. Qed.

Lemma advances_trans w1 w2 w3 n m evs evs' :
  advances w1 w2 n evs → advances w2 w3 m evs' →
  advances w1 w3 (n + m) (evs ++ evs').
Proof.
  intros [] []. split; try congruence.
  - rewrite app_assoc. congruence.
  - lia.
  - rewrite spawns_app. lia.
Qed.

End WorldFacts.

(* ===================================================================== *)
(** * Properties of the audit trail                                       *)
(* ===================================================================== *)

Section JsonLines.
Import Py World Security.

Lemma count_app (c : ascii) (s1 s2 : string) :
  count c (s1 +:+ s2) = (count c s1 + count c s2)%nat.
Proof.
  induction s1 as [|a s1 IH]; [done|].
  change (String a s1 +:+ s2) with (String a (s1 +:+ s2)).
  cbn [count]. rewrite IH. lia.
Qed.










End JsonLines.

Section AuditTrail.
Import Py World Security.


End AuditTrail.
(* ===================================================================== *)
(** * Properties of the rate limiter                                      *)
(* ===================================================================== *)

Section RateLimiter.
Import Security.

Lemma purge_all_kept (cutoff : Q) (ts : list Q) :
  Forall (λ t, (cutoff < t)%Q) ts → filter (λ t, (cutoff < t)%Q) ts = ts.
Proof.
  induction 1 as [|t ts Ht _ IH]; [done|].
  rewrite filter_cons, decide_True by done. by rewrite IH.
Qed.

Lemma purge_shrinks (cutoff : Q) (ts : list Q) :
  (length (filter (λ t, (cutoff < t)%Q) ts) ≤ length ts)%nat.
Proof. apply length_filter. Qed.

(** A denied call retains a part of the old timestamps and nothing else:
    the current time is not recorded. *)
Lemma allow_at_denied now b b' :
  allow_at now b = (false, b') →
  timestamps b' = filter (λ t, (now - window_seconds b < t)%Q) (timestamps b).
Proof.
  unfold allow_at. case_match; intros [= <-]; done.
Qed.

Lemma allow_at_admitted now b b' :
  allow_at now b = (true, b') →
  timestamps b' =
    filter (λ t, (now - window_seconds b < t)%Q) (timestamps b) ++ [now].
Proof.
  unfold allow_at. case_match; intros [= <-]; done.
Qed.

(** C2. With [max_count = 3] and a window of 60 seconds, four calls made
    in chronological order less than 60 seconds apart answer true, true,
    true, false; a fifth call made once 60 seconds have passed since the
    first admitted one answers true again; and the denied call leaves the
    recorded timestamps as the third call left them. *)
Theorem allow_three_then_deny_then_recover (t1 t2 t3 t4 t5 : Q) :
  (t1 <= t2)%Q → (t2 <= t3)%Q → (t3 <= t4)%Q →
  (t4 < t1 + 60)%Q →
  (t1 + 60 <= t5)%Q →
  let b0 := new_bucket 3 60 in
  fst (allow_calls [t1; t2; t3; t4; t5] b0) = [true; true; true; false; true] ∧
  timestamps (snd (allow_calls [t1; t2; t3] b0)) = [t1; t2; t3] ∧
  timestamps (snd (allow_calls [t1; t2; t3; t4] b0)) = [t1; t2; t3].
Proof.
  intros H12 H23 H34 H41 H15 b0. subst b0. unfold new_bucket.
  assert (Hk2 : filter (λ t, (t2 - 60 < t)%Q) [t1] = [t1]).
  { apply purge_all_kept. repeat constructor. lra. }
  assert (Hk3 : filter (λ t, (t3 - 60 < t)%Q) [t1; t2] = [t1; t2]).
  { apply purge_all_kept. repeat constructor; lra. }
  assert (Hk4 : filter (λ t, (t4 - 60 < t)%Q) [t1; t2; t3] = [t1; t2; t3]).
  { apply purge_all_kept. repeat constructor; lra. }
  assert (Hk5 : (length (filter (λ t, (t5 - 60 < t)%Q) [t1; t2; t3]) ≤ 2)%nat).
  { rewrite filter_cons, decide_False by lra. apply (purge_shrinks _ [t2; t3]). }
  assert (E1 : allow_at t1 (Bucket 3 60 []) = (true, Bucket 3 60 [t1]))
    by reflexivity.
  assert (E2 : allow_at t2 (Bucket 3 60 [t1]) = (true, Bucket 3 60 [t1; t2])).
  { unfold allow_at. cbn [max_count window_seconds timestamps]. by rewrite Hk2. }
  assert (E3 : allow_at t3 (Bucket 3 60 [t1; t2])
               = (true, Bucket 3 60 [t1; t2; t3])).
  { unfold allow_at. cbn [max_count window_seconds timestamps]. by rewrite Hk3. }
  assert (E4 : allow_at t4 (Bucket 3 60 [t1; t2; t3])
               = (false, Bucket 3 60 [t1; t2; t3])).
  { unfold allow_at. cbn [max_count window_seconds timestamps]. by rewrite Hk4. }
  assert (E5 : fst (allow_at t5 (Bucket 3 60 [t1; t2; t3])) = true).
  { unfold allow_at. cbn [max_count window_seconds timestamps].
    case_match; [lia | done]. }
  cbn [allow_calls]. rewrite E1, E2, E3, E4.
  destruct (allow_at t5 _) as [r5 b5]. cbn in E5 |- *. by subst r5.
Qed.

Lemma allow_three_then_deny_then_recover_witness :
  let b0 := new_bucket 3 60 in
  fst (allow_calls [0; 10; 20; 30; 61]%Q b0) = [true; true; true; false; true] ∧
  timestamps (snd (allow_calls [0; 10; 20]%Q b0)) = [0; 10; 20]%Q ∧
  timestamps (snd (allow_calls [0; 10; 20; 30]%Q b0)) = [0; 10; 20]%Q.
Proof.
  apply (allow_three_then_deny_then_recover 0 10 20 30 61);
    unfold Qle, Qlt; simpl; lia.
Defined.

End RateLimiter.

(* ===================================================================== *)
(** * Properties of the orchestrator: configuration, scanning, schedule   *)
(* ===================================================================== *)

Section DryRunFlag.

(** The two readings of [DRY_RUN] agree as soon as the value, lowered,
    is one of the two words they compare against, or the variable is
    unset. *)
Lemma dry_run_flags_agree_on_booleans (environ : gmap string string) :
  (environ !! "DRY_RUN" = None ∨
   ∃ v, environ !! "DRY_RUN" = Some v ∧
        (Py.lower v = "true" ∨ Py.lower v = "false")) →
  Orchestrator.dry_run_from_env environ = Security.dry_run_from_env environ.
Proof.
  unfold Orchestrator.dry_run_from_env, Security.dry_run_from_env,
    Security.getenv.
  intros [-> | (v & -> & [E | E])]; simpl; rewrite ?E; reflexivity.
Qed.

(** C9. With [DRY_RUN=yes] (any value other than the two words behaves
    alike) the orchestrator computes live mode while the security
    configuration computes dry-run mode. *)
Theorem dry_run_flags_disagree :
  let environ : gmap string string := {[ "DRY_RUN" := "yes" ]} in
  Orchestrator.dry_run_from_env environ = false ∧
  Security.dry_run_from_env environ = true.
Proof. split; reflexivity. Qed.

End DryRunFlag.

Section ItemType.
Import Py Orchestrator.

Lemma startswith_drop (s p : string) :
  startswith s p = true → s = p +:+ drop (String.length p) s.
Proof.
  revert s. induction p as [|a p IH]; intros s; [done|].
  destruct s as [|b s]; [done|]. cbn.
  intros [Hab Hs]%andb_prop.
  apply bool_decide_eq_true in Hab as ->.
  unfold String.app. cbn. f_equal. by apply IH.
Qed.

Lemma type_value_split1 (line : string) :
  startswith line "type:" = true →
  split1 ":" line !! 1%nat = Some (drop (String.length "type:") line).
Proof.
  intros H. rewrite (startswith_drop _ _ H) at 1.
  generalize (drop (String.length "type:") line). intros rest.
  reflexivity.
Qed.

Lemma frontmatter_break_dead (line : string) :
  bool_decide (line = "---") && negb (startswith line "---") = false.
Proof. case_bool_decide as E; [by rewrite E | done]. Qed.

(** The loop never raises, and never breaks before a "type:" line. *)
Lemma find_type_line_declared (lines : list string) :
  find_type_line lines =
    Ok (line ← List.find (λ l, startswith (strip l) "type:") lines;
        Some (strip (drop (String.length "type:") (strip line)))).
Proof.
  induction lines as [|l lines IH]; [done|].
  cbn [find_type_line List.find].
  destruct (startswith (strip l) "type:") eqn:E.
  - cbn. by rewrite (type_value_split1 _ E).
  - by rewrite frontmatter_break_dead.
Qed.

(** C10. [_detect_item_type] always returns a string: the trimmed text
    after the "type:" prefix of the first line that starts with it once
    trimmed, if the file could be read and has such a line, and
    "unknown" when reading raised or no line qualifies. *)
Theorem detect_item_type_total (read_text : outcome string) :
  detect_item_type read_text =
    match read_text with
    | Ok text => default "unknown" (declared_type text)
    | Raise _ => "unknown"
    end.
Proof.
  destruct read_text as [text|e]; [|done].
  unfold detect_item_type, declared_type.
  rewrite find_type_line_declared.
  by destruct (List.find _ _).
Qed.

End ItemType.

Section FolderScanning.
Import Py World Orchestrator Watching.

(** One detection call, the inbox being in state [d]. *)
Lemma detect_after_place (d : dir) (o : t) :
  (place_needs_action d;; detect_new_needs_action) o =
    (Ok (scan_folder d ∖ known_needs_action o),
     set_known_needs_action (scan_folder d)
       (set_env (set_vault (<[Needs_Action := d]> (w_vault (env o))) (env o)) o)).
Proof.
  unfold place_needs_action, detect_new_needs_action.
  reflexivity.
Qed.

Lemma detections_cons (d : dir) (ds : list dir) (o : t) :
  detections (d :: ds) o =
    match detections ds (set_known_needs_action (scan_folder d)
             (set_env (set_vault (<[Needs_Action := d]> (w_vault (env o)))
                                 (env o)) o)) with
    | (Ok later, o') => (Ok ((scan_folder d ∖ known_needs_action o) :: later), o')
    | (Raise e, o') => (Raise e, o')
    end.
Proof.
  reflexivity.
Qed.

(** One detection call on a watched folder in state [d]: the report, and
    the snapshots it leaves. *)
Lemma detect_new_after_place (k : watched) (d : dir) (o : t) :
  ∃ o',
    (place k d;; detect_new k) o = (Ok (scan_folder d ∖ known k o), o') ∧
    known k o' = scan_folder d ∧
    ∀ k', k' ≠ k → known k' o' = known k' o.
Proof.
  destruct k.
  - exists (set_known_needs_action (scan_folder d)
              (set_env (set_vault (<[Needs_Action := d]> (w_vault (env o)))
                                  (env o)) o)).
    split; [reflexivity|]. split; [done|]. by intros [].
  - exists (set_known_approved (scan_folder d)
              (set_env (set_vault (<[Approved := d]> (w_vault (env o)))
                                  (env o)) o)).
    split; [reflexivity|]. split; [done|]. by intros [].
Qed.

Lemma detection_calls_cons (k : watched) (d : dir)
    (calls : list (watched * dir)) (o : t) :
  detection_calls ((k, d) :: calls) o =
    (new_files ← (place k d;; detect_new k);
     later ← detection_calls calls;
     mret (new_files :: later)) o.
Proof. reflexivity. Qed.

(** Once a file is in the snapshot of a watched folder and stays in that
    folder, no later call on that folder reports it, whatever calls are
    made on the other folder in between. *)
Lemma known_file_never_reported
    (k : watched) (f : string) (calls : list (watched * dir)) (o : t) :
  f ∈ known k o →
  Forall (λ c, c.1 = k → f ∈ scan_folder c.2) calls →
  ∃ reports o', detection_calls calls o = (Ok reports, o') ∧
                Forall2 (λ c new_files, c.1 = k → f ∉ new_files) calls reports.
Proof.
  intros Hk Hcalls. revert o Hk.
  induction Hcalls as [|[k' d] calls Hd _ IH]; intros o Hk.
  - exists [], o. split; [done|]. constructor.
  - destruct (detect_new_after_place k' d o) as (o1 & E1 & Hsame & Hother).
    assert (Hk1 : f ∈ known k o1).
    { destruct (decide (k' = k)) as [->|Hne].
      - rewrite Hsame. by apply Hd.
      - rewrite Hother by done. exact Hk. }
    destruct (IH o1 Hk1) as (reports & o' & E & Hno).
    exists ((scan_folder d ∖ known k' o) :: reports), o'.
    rewrite detection_calls_cons. unfold mbind, M_bind in *.
    unfold bind at 1. rewrite E1. unfold bind at 1. rewrite E.
    split; [done|]. constructor; [|done].
    cbn. intros ->. rewrite elem_of_difference. by intros [_ ?].
Qed.

(** C3. For either watched folder, the inbox with
    [_detect_new_needs_action] and the approved folder with
    [_detect_new_approved], and any sequence of detection calls on the
    two: a file that a scan finds and the snapshot of that folder lacks
    is in the report of that detection call, and in the report of none
    of the following calls on that folder for as long as every scan of
    it still finds the file. *)
Theorem new_file_reported_exactly_once
    (k : watched) (f : string) (d : dir) (later : list (watched * dir))
    (o : t) :
  f ∈ scan_folder d →
  f ∉ known k o →
  Forall (λ c, c.1 = k → f ∈ scan_folder c.2) later →
  ∃ first rest o',
    detection_calls ((k, d) :: later) o = (Ok (first :: rest), o') ∧
    f ∈ first ∧
    length rest = length later ∧
    Forall2 (λ c new_files, c.1 = k → f ∉ new_files) later rest.
Proof.
  intros Hin Hnew Hlater.
  destruct (detect_new_after_place k d o) as (o1 & E1 & Hsame & _).
  destruct (known_file_never_reported k f later o1) as (rest & o' & E & Hno);
    [by rewrite Hsame | done |].
  exists (scan_folder d ∖ known k o), rest, o'.
  rewrite detection_calls_cons. unfold mbind, M_bind in *.
  unfold bind at 1. rewrite E1. unfold bind at 1. rewrite E.
  split; [done|]. split; [by apply elem_of_difference|].
  split; [|done]. symmetry. by eapply Forall2_length.
Qed.

(** The note arrives in the inbox and stays; later it also appears in
    the approved folder.  Each detector reports it once. *)
Lemma new_file_reported_exactly_once_witness :
  let note := Scenario.inbox_with_note in
  let o := Scenario.orchestrator_with Scenario.always_failing in
  (∃ first rest o',
     detection_calls
       [(WatchedInbox, note); (WatchedApproved, Dir true ∅);
        (WatchedInbox, note); (WatchedApproved, note);
        (WatchedInbox, note)] o = (Ok (first :: rest), o') ∧
     "note.md" ∈ first ∧
     length rest = 4%nat ∧
     Forall2 (λ c new_files, c.1 = WatchedInbox → "note.md" ∉ new_files)
       [(WatchedApproved, Dir true ∅); (WatchedInbox, note);
        (WatchedApproved, note); (WatchedInbox, note)] rest) ∧
  (∃ first rest o',
     detection_calls
       [(WatchedApproved, note); (WatchedInbox, Dir true ∅);
        (WatchedApproved, note); (WatchedApproved, note)] o
       = (Ok (first :: rest), o') ∧
     "note.md" ∈ first ∧
     length rest = 3%nat ∧
     Forall2 (λ c new_files, c.1 = WatchedApproved → "note.md" ∉ new_files)
       [(WatchedInbox, Dir true ∅); (WatchedApproved, note);
        (WatchedApproved, note)] rest).
Proof.
  split.
  - apply (new_file_reported_exactly_once WatchedInbox "note.md"
             Scenario.inbox_with_note
             [(WatchedApproved, Dir true ∅);
              (WatchedInbox, Scenario.inbox_with_note);
              (WatchedApproved, Scenario.inbox_with_note);
              (WatchedInbox, Scenario.inbox_with_note)]
             (Scenario.orchestrator_with Scenario.always_failing)).
    + apply (bool_decide_unpack _). vm_compute. reflexivity.
    + apply (bool_decide_unpack _). vm_compute. reflexivity.
    + repeat constructor;
        first [ (intros _; apply (bool_decide_unpack _); vm_compute; reflexivity)
              | (intros H; discriminate H) ].
  - apply (new_file_reported_exactly_once WatchedApproved "note.md"
             Scenario.inbox_with_note
             [(WatchedInbox, Dir true ∅);
              (WatchedApproved, Scenario.inbox_with_note);
              (WatchedApproved, Scenario.inbox_with_note)]
             (Scenario.orchestrator_with Scenario.always_failing)).
    + apply (bool_decide_unpack _). vm_compute. reflexivity.
    + apply (bool_decide_unpack _). vm_compute. reflexivity.
    + repeat constructor;
        first [ (intros _; apply (bool_decide_unpack _); vm_compute; reflexivity)
              | (intros H; discriminate H) ].
Defined.

End FolderScanning.

Section WeeklyBriefing.
Import Py Orchestrator.

Lemma same_date_today_str (a b : datetime) :
  same_date a b → strftime_date a = strftime_date b.
Proof. unfold same_date, strftime_date. by intros (-> & -> & ->). Qed.

Lemma date_le_trans (a b c : datetime) :
  date_le a b → date_le b c → date_le a c.
Proof. unfold date_le. lia. Qed.

Lemma date_le_antisym (a b : datetime) :
  date_le a b → date_le b a → same_date a b.
Proof. unfold date_le, same_date. lia. Qed.

(** The predicate answers [True] only when the remembered date differs
    from today's, and then remembers today's. *)
Lemma should_run_briefing_fires (now : datetime) (o o' : t) :
  should_run_briefing_at now o = (true, o') →
  last_briefing_check o ≠ strftime_date now ∧
  o' = set_last_briefing_check (strftime_date now) o.
Proof.
  unfold should_run_briefing_at. case_match eqn:E; intros [= <-].
  apply andb_prop in E as [_ E]. apply negb_true_iff in E.
  by apply bool_decide_eq_false in E.
Qed.

Lemma should_run_briefing_idle (now : datetime) (o o' : t) :
  should_run_briefing_at now o = (false, o') → o' = o.
Proof. unfold should_run_briefing_at. by case_match; intros [= <-]. Qed.

(** Evaluations made on other dates do not fire on [d]. *)
Lemma firings_on_other_dates (d : datetime) (nows : list datetime) (o : t) :
  Forall (λ now, ¬ same_date d now) nows →
  filter (same_date d) (briefing_firings nows o) = [].
Proof.
  intros H. revert o. induction H as [|now nows Hnow _ IH]; intros o; [done|].
  cbn [briefing_firings].
  destruct (should_run_briefing_at now o) as [[] o']; [|done].
  by rewrite filter_cons, decide_False.
Qed.

(** While the remembered date is [d] and the clock does not fall behind
    it, the predicate does not fire on [d]. *)
Lemma no_second_firing (d : datetime) (nows : list datetime) (o : t) :
  last_briefing_check o = strftime_date d →
  StronglySorted date_le (d :: nows) →
  filter (same_date d) (briefing_firings nows o) = [].
Proof.
  revert o. induction nows as [|now nows IH]; intros o Hlast Hsorted; [done|].
  apply StronglySorted_inv in Hsorted as [Hnows Hd].
  apply Forall_cons in Hd as [Hdnow Hd].
  apply StronglySorted_inv in Hnows as [Hnows Hnow].
  cbn [briefing_firings].
  destruct (should_run_briefing_at now o) as [[] o'] eqn:E.
  - apply should_run_briefing_fires in E as [Hne _].
    assert (¬ same_date d now) as Hdiff.
    { intros Hsame. apply Hne. rewrite Hlast. by apply same_date_today_str. }
    rewrite filter_cons, decide_False by done.
    apply firings_on_other_dates.
    eapply Forall_impl; [exact Hnow|]. intros later Hle Hsame.
    apply Hdiff. apply date_le_antisym; [done|].
    revert Hle Hsame. unfold date_le, same_date. lia.
  - apply should_run_briefing_idle in E as ->.
    apply IH; [done|]. by constructor.
Qed.

(** C7. Over evaluations made at clock values in chronological order, the
    predicate answers [True] at most once on any calendar date [d]. *)
Theorem briefing_fires_at_most_once_per_date
    (d : datetime) (nows : list datetime) (o : t) :
  StronglySorted date_le nows →
  (length (filter (same_date d) (briefing_firings nows o)) ≤ 1)%nat.
Proof.
  revert o. induction nows as [|now nows IH]; intros o Hsorted; [cbn; lia|].
  pose proof Hsorted as Hall.
  apply StronglySorted_inv in Hsorted as [Hnows Hnow].
  cbn [briefing_firings].
  destruct (should_run_briefing_at now o) as [[] o'] eqn:E; [|by apply IH].
  apply should_run_briefing_fires in E as [_ ->].
  destruct (decide (same_date d now)) as [Hsame|Hdiff].
  - rewrite filter_cons, decide_True by done.
    assert (filter (same_date d) (briefing_firings nows
              (set_last_briefing_check (strftime_date now) o)) = []) as ->;
      [|cbn; lia].
    rewrite <- (no_second_firing now nows
                  (set_last_briefing_check (strftime_date now) o)) by done.
    apply list_filter_iff. intros t. unfold same_date in *. lia.
  - rewrite filter_cons, decide_False by done. by apply IH.
Qed.

Lemma briefing_fires_at_most_once_per_date_witness :
  let o := Scenario.orchestrator_with Scenario.always_failing in
  let nows := [Scenario.sunday_night 23 0 0; Scenario.sunday_night 23 0 15;
               Scenario.sunday_night 23 59 45] in
  briefing_firings nows o = [Scenario.sunday_night 23 0 0] ∧
  (length (filter (same_date (Scenario.sunday_night 23 0 0))
                  (briefing_firings nows o)) ≤ 1)%nat.
Proof.
  split; [vm_compute; reflexivity|].
  apply briefing_fires_at_most_once_per_date.
  repeat constructor; unfold date_le; simpl; lia.
Defined.

End WeeklyBriefing.

(* ===================================================================== *)
(** * Properties of dispatch with retry                                   *)
(* ===================================================================== *)

Section Dispatch.
Import Py World Orchestrator.

Ltac proj_norm :=
  cbn [set_env set_running set_known_needs_action set_known_approved
       set_last_briefing_check set_total_skills_run set_total_errors
       set_last_error emit set_vault
       vault_path dry_run running known_needs_action known_approved
       last_dashboard_update last_briefing_check total_scans
       total_skills_run total_errors last_error env
       w_vault w_clock w_reads w_agent w_spawned w_trace
       project inject has_world fst snd] in *.

Lemma log_event_ok (event_type : string) details (o : t) :
  writable (w_vault (env o)) Logs →
  ∃ w' e,
    log_event event_type details o = (Ok tt, set_env w' o) ∧
    advances (env o) w' 2 [e] ∧
    spawns [e] = 0%nat ∧ written Needs_Action [e] = [] ∧
    (∀ f, f ≠ Logs → w_vault w' f = w_vault (env o) f) ∧
    (∀ f, writable (w_vault (env o)) f → writable (w_vault w') f).
Proof.
  intros Hlogs.
  pose proof (writable_can_write _ _
    (strftime_date (utc (w_clock (env o) (w_reads (env o)))) +:+ ".md") Hlogs) as Hcw.
  unfold log_event, lift, utcnow, now, path_exists, write_text, append_text,
    gets, mbind, M_bind, bind, mret, M_ret, ret.
  proj_norm.
  case_bool_decide; cbn [negb]; proj_norm; rewrite Hcw;
    do 2 eexists; (split; [reflexivity|]).
  all: repeat split; proj_norm; auto with lia.
  all: intros f Hf; first [by apply put_file_other_folder | by apply writable_put_file].
Qed.

Local Arguments log_event : simpl never.
Local Arguments can_write : simpl never.
Local Arguments put_file : simpl never.
Local Arguments spawns : simpl never.
Local Arguments written : simpl never.
Local Arguments Py.take : simpl never.
Local Arguments build_prompt : simpl never.

Lemma run_skill_live (skill_name context : string) (o : t) :
  let p := w_agent (env o) (w_spawned (env o)) in
  dry_run o = false →
  writable (p_effect p (w_vault (env o))) Logs →
  ∃ o' evs,
    run_skill skill_name context o = (Ok (exit_ok p), o') ∧
    advances (env o) (env o') 2 evs ∧
    spawns evs = 1%nat ∧ written Needs_Action evs = [] ∧
    dry_run o' = false ∧ total_errors o' = total_errors o ∧
    (∀ f, writable (p_effect p (w_vault (env o))) f →
          writable (w_vault (env o')) f).
Proof.
  intros p Hdry Hlogs.
  unfold run_skill, shutdown, incr_total_skills_run, exit_ok.
  unfold mbind, M_bind, mret, M_ret.
  unfold bind at 1. unfold get at 1. rewrite Hdry.
  unfold bind at 1. unfold lift at 1, logger at 1, modify at 1.
  proj_norm.
  unfold bind at 1. unfold lift at 1, subprocess_run at 1.
  proj_norm. fold p.
  destruct (p_signal p), (p_exit p) as [rc| |];
    [destruct (rc =? 0) | | | destruct (rc =? 0) | |].
  all: unfold bind, lift, logger, modify, ret; proj_norm.
  all: match goal with
       | |- context [log_event ?ev ?ds ?s] =>
           destruct (log_event_ok ev ds s Hlogs)
             as (w' & e & E & [Ht Hc Ha Hr Hs] & Hsp & Hwr & Hother & Hkeep);
           rewrite E; clear E
       end.
  all: proj_norm; do 2 eexists; (split; [reflexivity|]).
  all: split; [split; proj_norm|].
  all: try (rewrite Ht, <- ?app_assoc; reflexivity).
  all: try congruence.
  all: try lia.
  all: cbn [app]; rewrite ?spawns_cons, ?written_cons, ?spawns_nil, ?written_nil in *.
  all: try lia.
  all: repeat split; try done; try lia.
Qed.

Lemma create_alert_ok (skill_name : string) (o : t) :
  let now := utc (w_clock (env o) (w_reads (env o))) in
  writable (w_vault (env o)) Needs_Action →
  ∃ w',
    create_alert skill_name o = (Ok tt, set_env w' o) ∧
    advances (env o) w' 1
      [EvWrite Needs_Action (alert_filename now); EvLogger CRITICAL] ∧
    chunks_at (w_vault w') Needs_Action (alert_filename now) =
      [SkillAlert (strftime_iso_z now) skill_name (strftime_human now)
                  (MAX_RETRIES + 1)].
Proof.
  intros now Hna.
  pose proof (writable_can_write _ _ (alert_filename now) Hna) as Hcw.
  unfold create_alert, lift, utcnow, World.now, write_text, logger, modify,
    mbind, M_bind, bind, mret, M_ret, ret.
  proj_norm. fold now. rewrite Hcw. proj_norm.
  eexists. split; [reflexivity|]. split.
  - split; proj_norm; rewrite <- ?app_assoc; auto with lia.
  - proj_norm. by apply chunks_at_put_file.
Qed.

Local Arguments run_skill : simpl never.
Local Arguments create_alert : simpl never.

(** C1. In live mode, when the first run of the agent fails, the
    dispatcher runs it exactly once more, the whole dispatch making two
    runs.  If the second run succeeds the dispatch answers [True], writes
    nothing into the inbox folder and leaves the error counter alone.  If
    it fails too the dispatch answers [False], the error counter has
    grown by one, and the single file written into the inbox folder is
    the alert, holding the skill name, the time and the count of
    attempts. *)
Theorem dispatch_with_retry (skill_name context : string) (o : t) :
  let w := env o in
  let p1 := w_agent w (w_spawned w) in
  let p2 := w_agent w (S (w_spawned w)) in
  let now := utc (w_clock w (w_reads w + 5)) in
  dry_run o = false →
  exit_ok p1 = false →
  respects_permissions p1 → respects_permissions p2 →
  writable (w_vault w) Logs → writable (w_vault w) Needs_Action →
  ∃ o' evs,
    run_skill_with_retry skill_name context o = (Ok (exit_ok p2), o') ∧
    w_trace (env o') = w_trace w ++ evs ∧
    spawns evs = 2%nat ∧
    if exit_ok p2
    then written Needs_Action evs = [] ∧
         total_errors o' = total_errors o
    else written Needs_Action evs = [alert_filename now] ∧
         chunks_at (w_vault (env o')) Needs_Action (alert_filename now) =
           [SkillAlert (strftime_iso_z now) skill_name (strftime_human now) 2] ∧
         total_errors o' = total_errors o + 1.
Proof.
  intros w p1 p2 now Hdry Hfail Hp1 Hp2 Hlogs Hna.
  destruct (run_skill_live skill_name context o Hdry (Hp1 _ _ Hlogs))
    as (o1 & evs1 & E1 & [Ht1 Hc1 Ha1 Hr1 Hs1] & Hsp1 & Hwr1 & Hdry1 & Herr1 & Hkeep1).
  fold w p1 in E1, Hkeep1. rewrite Hfail in E1.
  unfold run_skill_with_retry, mbind, M_bind, mret, M_ret.
  unfold bind at 1. rewrite E1. cbn [negb].
  unfold bind at 1, lift at 1, logger at 1, modify at 1. proj_norm.
  unfold bind at 1, lift at 1, sleep at 1, modify at 1. proj_norm.
  set (o2 := set_env _ (set_env _ o1)).
  assert (Hp : w_agent (env o2) (w_spawned (env o2)) = p2).
  { subst o2 p2 w. proj_norm. rewrite Ha1, Hs1, Hsp1. f_equal. lia. }
  destruct (run_skill_live skill_name context o2) as
    (o3 & evs3 & E3 & [Ht3 Hc3 Ha3 Hr3 Hs3] & Hsp3 & Hwr3 & Hdry3 & Herr3 & Hkeep3).
  { exact Hdry1. }
  { rewrite Hp. apply Hp2. subst o2. proj_norm. apply Hkeep1, Hp1, Hlogs. }
  rewrite Hp in E3, Hkeep3.
  unfold bind at 1. rewrite E3.
  assert (Ht : w_trace (env o3) =
               w_trace w ++ evs1 ++ [EvLogger WARNING; EvSleep 5] ++ evs3).
  { rewrite Ht3. subst o2 w. proj_norm. rewrite Ht1, <- !app_assoc. done. }
  assert (Hsp : spawns (evs1 ++ [EvLogger WARNING; EvSleep 5] ++ evs3) = 2%nat).
  { rewrite !spawns_app, Hsp1, Hsp3. done. }
  assert (Hwr : written Needs_Action
                  (evs1 ++ [EvLogger WARNING; EvSleep 5] ++ evs3) = []).
  { rewrite !written_app, Hwr1, Hwr3. done. }
  destruct (exit_ok p2); cbn [negb].
  - exists o3, (evs1 ++ [EvLogger WARNING; EvSleep 5] ++ evs3).
    unfold bind, ret. repeat split; try done.
    rewrite Herr3. subst o2. proj_norm. done.
  - unfold bind at 1. unfold bind at 1, modify at 1. proj_norm.
    unfold bind at 1, lift at 1, utcnow at 1, World.now at 1,
      mbind, M_bind, bind at 1, mret, M_ret, ret at 1. proj_norm.
    unfold bind at 1, modify at 1. proj_norm.
    set (o4 := set_last_error _ _).
    assert (Hnow : utc (w_clock (env o4) (w_reads (env o4))) = now).
    { subst o4 o2 now w. proj_norm. rewrite Hc3, Hr3. proj_norm.
      rewrite Hc1, Hr1. do 2 f_equal. lia. }
    destruct (create_alert_ok skill_name o4) as (w5 & E5 & [Ht5 _ _ _ _] & Hch5).
    { subst o4. proj_norm. apply Hkeep3, Hp2. subst o2. proj_norm.
      apply Hkeep1, Hp1, Hna. }
    rewrite Hnow in Ht5, Hch5. rewrite E5. unfold ret.
    exists (set_env w5 o4),
      ((evs1 ++ [EvLogger WARNING; EvSleep 5] ++ evs3)
       ++ [EvWrite Needs_Action (alert_filename now); EvLogger CRITICAL]).
    split; [done|]. proj_norm. split.
    { rewrite Ht5. subst o4. proj_norm. rewrite Ht, <- !app_assoc. done. }
    split.
    { rewrite spawns_app, Hsp. done. }
    split.
    { rewrite written_app, Hwr. done. }
    split; [exact Hch5|].
    subst o4. proj_norm. rewrite Herr3. subst o2. proj_norm. by rewrite Herr1.
Qed.

End Dispatch.

(* ===================================================================== *)
(** * Facts about strings                                                 *)
(* ===================================================================== *)

Section StringFacts.
Import Py.

Lemma lstrip_snoc_nonspace (s : string) (c : ascii) :
  isspace c = false →
  ∃ s', lstrip (s +:+ String c EmptyString) = s' +:+ String c EmptyString.
Proof.
  intros Hc. induction s as [|a s IH].
  - exists EmptyString.
    change (lstrip (String c EmptyString) = String c EmptyString).
    cbn [lstrip]. by rewrite Hc.
  - change (String a s +:+ String c EmptyString)
      with (String a (s +:+ String c EmptyString)).
    cbn [lstrip]. destruct (isspace a); [exact IH|].
    by exists (String a s).
Qed.

Lemma rev_snoc (s : string) (c : ascii) :
  rev (s +:+ String c EmptyString) = String c (rev s).
Proof.
  induction s as [|a s IH]; [done|].
  change (String a s +:+ String c EmptyString)
    with (String a (s +:+ String c EmptyString)).
  cbn [rev]. by rewrite IH.
Qed.

(** Trimming keeps a leading character that is not white space. *)
Lemma strip_cons_nonspace (c : ascii) (s : string) :
  isspace c = false → ∃ s', strip (String c s) = String c s'.
Proof.
  intros Hc. unfold strip, rstrip. cbn [lstrip]. rewrite Hc. cbn [rev].
  destruct (lstrip_snoc_nonspace (rev s) c Hc) as [s' ->].
  rewrite rev_snoc. by eexists.
Qed.

Lemma split_cons_other (sep c : ascii) (s : string) :
  c ≠ sep → ∃ l ls, split sep (String c s) = String c l :: ls.
Proof.
  intros Hc. cbn [split]. rewrite decide_False by done.
  destruct (split sep s); by eauto.
Qed.

Lemma isspace_newline : isspace newline = true.
Proof. reflexivity. Qed.

End StringFacts.

Section Summaries.
Import Py RalphLoop.

(** [_summarize_output] returns on every output that starts with a
    character other than white space. *)
Lemma summarize_output_returns (c : ascii) (output : string) :
  isspace c = false →
  ∃ summary, summarize_output (String c output) = Ok summary.
Proof.
  intros Hc. unfold summarize_output.
  unfold truthy at 1. rewrite bool_decide_eq_false_2 by done.
  cbn [negb].
  destruct (strip_cons_nonspace c output Hc) as [s' ->].
  destruct (split_cons_other newline c s') as (l & ls & ->).
  { intros ->. by rewrite isspace_newline in Hc. }
  rewrite filter_cons.
  destruct (strip_cons_nonspace c l Hc) as [l' El].
  rewrite decide_True by (by rewrite El; unfold truthy; rewrite bool_decide_eq_false_2).
  rewrite fmap_cons, El.
  destruct (list.take 5 _); eauto.
Qed.

End Summaries.

(* ===================================================================== *)
(** * Properties of the iterative task runner                             *)
(* ===================================================================== *)

Section TaskRunner.
Import Py World RalphLoop.
Variable security : Security.config.

Local Arguments can_write : simpl never.
Local Arguments put_file : simpl never.
Local Arguments spawns : simpl never.
Local Arguments written : simpl never.
Local Arguments Py.take : simpl never.
Local Arguments build_prompt : simpl never.
Local Arguments chunks_at : simpl never.

Ltac proj_norm :=
  cbn [set_env set_running set_task_file set_iterations set_completed
       emit set_vault
       vault_path task_description max_iterations dry_run task_id
       task_filename task_file iterations completed running env
       w_vault w_clock w_reads w_agent w_spawned w_trace
       project inject has_world fst snd] in *.

(** Runs the leading primitive steps of a computation in hypothesis [H]. *)
Ltac run_prims H :=
  unfold utcnow, time_time in H;
  unfold mbind, M_bind, mret, M_ret in H; cbn in H.

(** Splits on how the first computation of a [bind] in [H] ended. *)
Ltac bind_step H E :=
  unfold bind at 1 in H;
  lazymatch type of H with
  | match ?m with _ => _ end = _ =>
      destruct m as [[?|?] ?] eqn:E; [|discriminate H]
  end.

Lemma task_status_ext (v v' : vault) f name :
  v f = v' f → task_status v f name = task_status v' f name.
Proof. unfold task_status, chunks_at. by intros ->. Qed.

Lemma lift_write_text_returned f name content (r r' : t) u :
  lift (write_text f name content) r = (Ok u, r') →
  r' = set_env (emit (EvWrite f name)
                  (set_vault (put_file f name content (w_vault (env r))) (env r))) r ∧
  can_write (w_vault (env r)) f name = true.
Proof.
  unfold lift, write_text. cbn.
  destruct (can_write _ _ _); intros [= <- <-]; done.
Qed.

Lemma lift_unlink_returned f name (r r' : t) u :
  lift (unlink_missing_ok f name) r = (Ok u, r') →
  ∃ w', r' = set_env w' r.
Proof.
  unfold lift, unlink_missing_ok. cbn.
  destruct (w_vault (env r) f) as [|[] files];
    [|destruct (files !! name)..]; intros [= <-]; by eexists.
Qed.

Lemma lift_append_text_returned f name c (r r' : t) u :
  lift (append_text f name c) r = (Ok u, r') →
  r' = set_env (emit (EvAppend f name)
                  (set_vault (put_file f name
                                (chunks_at (w_vault (env r)) f name ++ [c])
                                (w_vault (env r))) (env r))) r ∧
  can_write (w_vault (env r)) f name = true.
Proof.
  unfold lift, append_text. cbn.
  destruct (can_write _ _ _); intros [= <- <-]; done.
Qed.

(** What [_log_event] leaves behind when it returns. *)
Lemma log_event_returned (event_type : string) details (r r' : t) u :
  log_event event_type details r = (Ok u, r') →
  ∃ w', r' = set_env w' r ∧
        ∀ f, f ≠ Logs → w_vault w' f = w_vault (env r) f.
Proof.
  unfold log_event. intros H. run_prims H.
  destruct (negb _);
    [apply lift_write_text_returned in H as [-> _]
    |apply lift_append_text_returned in H as [-> _]];
    (eexists; split; [reflexivity|]);
    intros f Hf; cbn; by rewrite put_file_other_folder.
Qed.

Lemma create_alert_returned (r r' : t) u :
  create_alert r = (Ok u, r') →
  ∃ w', r' = set_env w' r ∧
        ∀ f, f ≠ Needs_Action → w_vault w' f = w_vault (env r) f.
Proof.
  unfold create_alert. intros H. run_prims H.
  bind_step H E.
  apply lift_write_text_returned in E as [-> _]. cbn in H.
  injection H as _ <-.
  eexists; split; [reflexivity|].
  intros f Hf; cbn; by rewrite put_file_other_folder.
Qed.

Lemma task_status_put_file (v : vault) f name doc :
  can_write v f name = true →
  task_status (put_file f name [doc] v) f name =
    match doc with
    | TaskDoc _ _ _ _ status _ _ _ _ => Some status
    | _ => None
    end.
Proof.
  intros Hcw. unfold task_status. by rewrite chunks_at_put_file.
Qed.

(** What [_update_task_file] leaves behind when it returns: the document,
    with the status passed, at the place it designates. *)
Lemma update_task_file_returned iteration output_summary status (r r' : t) u :
  update_task_file iteration output_summary status r = (Ok u, r') →
  let dest :=
    if bool_decide (status = "completed")
       && bool_decide (fst (task_file r) = In_Progress)
    then (Done, task_filename r) else task_file r in
  task_filename r' = task_filename r ∧
  task_file r' = dest ∧
  task_status (w_vault (env r')) (fst dest) (snd dest) = Some status.
Proof.
  unfold update_task_file. intros H. run_prims H.
  destruct (_ && _).
  - bind_step H E.
    apply lift_unlink_returned in E as [w1 ->]. cbn in H.
    apply lift_write_text_returned in H as [-> Hcw]. cbn.
    repeat split. by apply task_status_put_file.
  - apply lift_write_text_returned in H as [-> Hcw]. cbn.
    repeat split. by apply task_status_put_file.
Qed.

(** [_run_claude] leaves the task file where it is. *)
Lemma run_claude_returned prompt (r r' : t) x :
  run_claude security prompt r = (Ok x, r') →
  task_filename r' = task_filename r ∧ task_file r' = task_file r.
Proof.
  unfold run_claude, shutdown. intros H. run_prims H.
  destruct (dry_run r).
  - unfold bind, lift in H. cbn in H.
    destruct (Security.audit_log _ _ _ _ _ _ _ _) as [[entry|e] w1];
      [|discriminate].
    by injection H as _ <-.
  - cbn in H.
    destruct (p_signal _), (p_exit _) as [rc| |];
      try destruct (rc =? 0); cbn in H; by injection H as _ <-.
Qed.

(** [_check_completion] moves the recorded path of the task file only
    to the done folder, and only when it answers [True]. *)
Lemma check_completion_returned output (r r' : t) (b : bool) :
  check_completion output r = (Ok b, r') →
  task_filename r' = task_filename r ∧
  (task_file r' = task_file r ∨
   (b = true ∧ task_file r' = (Done, task_filename r))).
Proof.
  unfold check_completion. intros H. run_prims H.
  destruct (bool_decide (is_Some _)); [cbn in H; injection H as <- <-; auto|].
  destruct (contains COMPLETION_MARKER output);
    [cbn in H; injection H as <- <-; auto|].
  cbn in H. destruct (_ && _); cbn in H; injection H as <- <-; auto.
Qed.

Local Arguments log_event : simpl never.
Local Arguments update_task_file : simpl never.
Local Arguments create_alert : simpl never.
Local Arguments create_task_file : simpl never.
Local Arguments check_completion : simpl never.
Local Arguments run_claude : simpl never.
Local Arguments summarize_output : simpl never.
Local Arguments round1 : simpl never.
Local Arguments str_tenths : simpl never.
Local Arguments pretty : simpl never.
Local Arguments strftime_iso_z : simpl never.

(** Where a pass of the loop leaves the task file, by how it ends. *)
Lemma run_loop_returned (n : nat) : ∀ (iteration : Z) (r r' : t) returned,
  task_file r = (In_Progress, task_filename r) →
  run_loop security n iteration r = (Ok returned, r') →
  task_filename r' = task_filename r ∧
  match returned with
  | Some true =>
      task_status (w_vault (env r')) Done (task_filename r) = Some "completed"
  | Some false =>
      task_status (w_vault (env r')) In_Progress (task_filename r)
        = Some "interrupted"
  | None => task_file r' = (In_Progress, task_filename r)
  end.
Proof.
  induction n as [|n IH]; intros iteration r r' returned Hfile H.
  { injection H as <- <-. done. }
  cbn [run_loop] in H. run_prims H.
  destruct (running r); cbn in H.
  - (* the pass runs the agent *)
    bind_step H Erun. destruct a as [success output].
    apply run_claude_returned in Erun as [Hname1 Hfile1]. cbn in Hname1, Hfile1.
    cbn in H.
    destruct (summarize_output output) as [summary|e]; [|discriminate].
    cbn in H.
    bind_step H Echeck.
    assert (task_filename t1 = task_filename r ∧
            (task_file t1 = (In_Progress, task_filename r) ∨
             (a = true ∧ task_file t1 = (Done, task_filename r))))
      as [Hname2 Hfile2].
    { destruct success.
      - apply check_completion_returned in Echeck as [Hn Hf].
        cbn in Hn, Hf. rewrite Hn, Hname1. rewrite Hfile1, Hfile in Hf.
        by rewrite Hname1 in Hf.
      - injection Echeck as <- <-. cbn. rewrite Hname1, Hfile1. auto. }
    clear Echeck. destruct a.
    + (* complete *)
      cbn in H. bind_step H Eup.
      apply update_task_file_returned in Eup as (Hn3 & Hf3 & Hst3).
      cbn in Hn3, Hf3, Hst3.
      rewrite (bool_decide_eq_true_2 ("completed" = "completed")) in Hf3, Hst3
        by done.
      assert ((if true && bool_decide ((task_file t1).1 = In_Progress)
               then (Done, task_filename t1) else task_file t1)
              = (Done, task_filename r)) as Hdest.
      { destruct Hfile2 as [->|[_ ->]]; cbn; by rewrite ?Hname2. }
      rewrite Hdest in Hf3, Hst3. cbn in Hst3.
      bind_step H Elog.
      apply log_event_returned in Elog as (w3 & -> & Hframe).
      cbn in H. injection H as <- <-. cbn. split; [congruence|].
      rewrite <- Hst3. apply task_status_ext. by apply Hframe.
    + (* not complete: next pass *)
      destruct Hfile2 as [Hfile2|[? _]]; [|done].
      bind_step H Eup.
      apply update_task_file_returned in Eup as (Hn3 & Hf3 & _).
      cbn in Hn3, Hf3.
      bind_step H Elog.
      apply log_event_returned in Elog as (w3 & -> & _).
      cbn in H.
      rewrite (bool_decide_eq_false_2 ("in_progress" = "completed")) in Hf3
        by done.
      cbn in Hf3.
      assert (Hn : task_filename t2 = task_filename r) by congruence.
      assert (Hf : task_file t2 = (In_Progress, task_filename t2)) by congruence.
      destruct (negb success); cbn in H;
        destruct (iteration <? _); cbn in H;
        (apply IH in H; [|cbn; congruence]);
        destruct H as [Hn' Hres]; cbn in Hn', Hres;
        rewrite Hn in Hn', Hres; done.
  - (* interrupted before the pass *)
    bind_step H Eup.
    apply update_task_file_returned in Eup as (Hn3 & Hf3 & Hst3).
    cbn in Hn3, Hf3, Hst3.
    rewrite (bool_decide_eq_false_2 ("interrupted" = "completed")) in Hf3, Hst3
      by done.
    cbn in Hf3, Hst3. rewrite Hfile in Hst3. cbn in Hst3.
    bind_step H Elog.
    apply log_event_returned in Elog as (w3 & -> & Hframe).
    cbn in H. injection H as <- <-. cbn. split; [done|].
    rewrite <- Hst3. apply task_status_ext. by apply Hframe.
Qed.

(** ** When the folders are writable *)

Ltac run_goal :=
  unfold utcnow, time_time; unfold mbind, M_bind, mret, M_ret; cbn.

Lemma runner_log_event_ok (event_type : string) details (r : t) :
  writable (w_vault (env r)) Logs →
  ∃ w' e,
    log_event event_type details r = (Ok tt, set_env w' r) ∧
    w_trace w' = w_trace (env r) ++ [e] ∧
    w_agent w' = w_agent (env r) ∧
    w_spawned w' = w_spawned (env r) ∧
    spawns [e] = 0%nat ∧ written Needs_Action [e] = [] ∧
    (∀ f, f ≠ Logs → w_vault w' f = w_vault (env r) f) ∧
    (∀ f, writable (w_vault (env r)) f → writable (w_vault w') f).
Proof.
  intros Hlogs.
  pose proof (writable_can_write _ _
    (strftime_date (utc (w_clock (env r) (w_reads (env r)))) +:+ ".md") Hlogs) as Hcw.
  unfold log_event. run_goal.
  destruct (negb _); unfold lift, write_text, append_text; cbn; rewrite Hcw;
    do 2 eexists; (split; [reflexivity|]); cbn.
  all: repeat split; try done.
  all: intros f Hf; first [by apply put_file_other_folder | by apply writable_put_file].
Qed.

Lemma write_task_doc_ok (f : folder) (name : string) (doc : chunk) (r : t) :
  writable (w_vault (env r)) f →
  ∃ w',
    lift (write_text f name [doc]) r = (Ok tt, set_env w' r) ∧
    w_trace w' = w_trace (env r) ++ [EvWrite f name] ∧
    w_agent w' = w_agent (env r) ∧
    w_spawned w' = w_spawned (env r) ∧
    w_clock w' = w_clock (env r) ∧ w_reads w' = w_reads (env r) ∧
    chunks_at (w_vault w') f name = [doc] ∧
    (∀ f', f' ≠ f → w_vault w' f' = w_vault (env r) f') ∧
    (∀ f', writable (w_vault (env r)) f' → writable (w_vault w') f').
Proof.
  intros Hw. pose proof (writable_can_write _ _ name Hw) as Hcw.
  unfold lift, write_text. cbn. rewrite Hcw.
  eexists; split; [reflexivity|]. cbn. repeat split; try done.
  - by apply chunks_at_put_file.
  - intros f' Hf'. by apply put_file_other_folder.
  - intros f' Hf'. by apply writable_put_file.
Qed.

Lemma proceeds_trans r1 r2 r3 evs evs' :
  proceeds r1 r2 evs → proceeds r2 r3 evs' → proceeds r1 r3 (evs ++ evs').
Proof.
  intros [] []. split; try congruence.
  - rewrite app_assoc. congruence.
  - rewrite spawns_app. lia.
Qed.

Lemma proceeds_world (r : t) (w' : world) (evs : list event) :
  w_trace w' = w_trace (env r) ++ evs →
  w_agent w' = w_agent (env r) →
  w_spawned w' = (w_spawned (env r) + spawns evs)%nat →
  proceeds r (set_env w' r) evs.
Proof. by split. Qed.

(** A failing run of the agent: [_run_claude] answers [False] with an
    output that [_summarize_output] accepts. *)
Lemma run_claude_failed (prompt : string) (r : t) :
  let p := w_agent (env r) (w_spawned (env r)) in
  dry_run r = false → exit_ok p = false → p_signal p = false →
  ∃ output summary w',
    run_claude security prompt r = (Ok (false, output), set_env w' r) ∧
    summarize_output output = Ok summary ∧
    w_trace w' = w_trace (env r) ++ [EvSpawn prompt; EvLogger ERROR] ∧
    w_agent w' = w_agent (env r) ∧
    w_spawned w' = S (w_spawned (env r)) ∧
    w_vault w' = p_effect p (w_vault (env r)).
Proof.
  intros p Hdry Hfail Hsig. unfold run_claude, shutdown. run_goal.
  rewrite Hdry. cbn. fold p. rewrite Hsig. cbn.
  unfold exit_ok in Hfail.
  destruct (p_exit p) as [rc| |]; [rewrite Hfail|..]; cbn.
  - destruct (summarize_output_returns "E"
                ("RROR (exit " +:+ pretty rc +:+ "): " +:+
                 take 200 (if truthy (p_stderr p) then p_stderr p
                           else "Unknown error"))) as [summary Hs]; [done|].
    do 3 eexists. split; [reflexivity|]. split; [exact Hs|].
    cbn. by rewrite <- app_assoc.
  - destruct (summarize_output_returns "T"
                ("IMEOUT after " +:+ pretty CLAUDE_TIMEOUT +:+ "s"))
      as [summary Hs]; [done|].
    do 3 eexists. split; [reflexivity|]. split; [exact Hs|].
    cbn. by rewrite <- app_assoc.
  - destruct (summarize_output_returns "E" "RROR: claude CLI not found")
      as [summary Hs]; [done|].
    do 3 eexists. split; [reflexivity|]. split; [exact Hs|].
    cbn. by rewrite <- app_assoc.
Qed.

Lemma update_task_file_in_place iteration output_summary status (r : t) :
  status ≠ "completed" ∨ fst (task_file r) ≠ In_Progress →
  writable (w_vault (env r)) (fst (task_file r)) →
  ∃ w',
    update_task_file iteration output_summary status r = (Ok tt, set_env w' r) ∧
    w_trace w' = w_trace (env r) ++ [EvWrite (fst (task_file r)) (snd (task_file r))] ∧
    w_agent w' = w_agent (env r) ∧
    w_spawned w' = w_spawned (env r) ∧
    task_status (w_vault w') (fst (task_file r)) (snd (task_file r)) = Some status ∧
    (∀ f, f ≠ fst (task_file r) → w_vault w' f = w_vault (env r) f) ∧
    (∀ f, writable (w_vault (env r)) f → writable (w_vault w') f).
Proof.
  intros Hst Hw. unfold update_task_file. run_goal.
  assert (bool_decide (status = "completed")
          && bool_decide (fst (task_file r) = In_Progress) = false) as ->.
  { apply andb_false_iff.
    destruct Hst; [left|right]; by apply bool_decide_eq_false_2. }
  match goal with
  | |- context [lift (write_text ?f ?n [?doc]) ?s] =>
      destruct (write_task_doc_ok f n doc s Hw)
        as (w' & E & Ht & Ha & Hs & _ & _ & Hch & Hframe & Hkeep)
  end.
  rewrite E. exists w'. split; [reflexivity|].
  cbn in Ht, Ha, Hs, Hframe, Hkeep.
  repeat split; try done.
  unfold task_status. by rewrite Hch.
Qed.

(** A pass of the loop in which the agent fails: the loop goes on to the
    next pass, one iteration record richer. *)
Lemma failed_pass (n : nat) (iteration : Z) (r : t) :
  let p := w_agent (env r) (w_spawned (env r)) in
  running r = true → dry_run r = false →
  task_file r = (In_Progress, task_filename r) →
  exit_ok p = false → p_signal p = false → respects_permissions p →
  writable (w_vault (env r)) In_Progress →
  writable (w_vault (env r)) Logs →
  ∃ r1 evs it,
    run_loop security (S n) iteration r
      = run_loop security n (iteration + 1) r1 ∧
    proceeds r r1 evs ∧
    spawns evs = 1%nat ∧ written Needs_Action evs = [] ∧
    running r1 = true ∧
    iterations r1 = iterations r ++ [it] ∧
    number it = iteration ∧ success it = false ∧
    (∀ f, writable (w_vault (env r)) f → writable (w_vault (env r1)) f).
Proof.
  intros p Hrun Hdry Hfile Hfail Hsig Hperm Hip Hlogs.
  cbn [run_loop]. run_goal. rewrite Hrun. cbn.
  match goal with
  | |- context [bind (run_claude security ?prompt) _ ?s] =>
      destruct (run_claude_failed prompt s Hdry Hfail Hsig)
        as (output & summary & w1 & E1 & Hsum & Ht1 & Ha1 & Hs1 & Hv1)
  end.
  unfold bind at 1. rewrite E1. clear E1. cbn. rewrite Hsum. cbn.
  cbn in Ht1, Ha1, Hs1, Hv1. fold p in Hv1.
  assert (Hip1 : writable (w_vault w1) In_Progress) by (rewrite Hv1; by apply Hperm).
  assert (Hlogs1 : writable (w_vault w1) Logs) by (rewrite Hv1; by apply Hperm).
  match goal with
  | |- context [bind (update_task_file ?i ?s ?st) _ ?s2] =>
      destruct (update_task_file_in_place i s st s2)
        as (w2 & E2 & Ht2 & Ha2 & Hs2 & _ & _ & Hkeep2);
        [by left | by cbn; rewrite Hfile |]
  end.
  unfold bind at 1. rewrite E2. clear E2. cbn in Ht2, Ha2, Hs2, Hkeep2.
  rewrite Hfile in Ht2. cbn in Ht2.
  match goal with
  | |- context [bind (log_event ?ev ?ds) _ ?s3] =>
      destruct (runner_log_event_ok ev ds s3)
        as (w3 & e & E3 & Ht3 & Ha3 & Hs3 & Hsp3 & Hwr3 & _ & Hkeep3);
        [by cbn; apply Hkeep2 |]
  end.
  unfold bind at 1. rewrite E3. clear E3. cbn in Ht3, Ha3, Hs3, Hkeep3. cbn.
  rewrite spawns_cons, spawns_nil in Hsp3.
  rewrite written_cons, written_nil in Hwr3.
  destruct (iteration <? max_iterations r); cbn.
  all: do 3 eexists; (split; [reflexivity|]).
  all: split; [split; cbn; try done|].
  all: try (rewrite Ht3, Ht2, Ht1, <- ?app_assoc; cbn [app]; reflexivity).
  all: try congruence.
  all: rewrite ?spawns_cons, ?spawns_nil, ?written_cons, ?written_nil.
  all: try (rewrite Hs3, Hs2, Hs1; lia).
  all: repeat split; try done; try lia.
  all: try (intros f Hf; apply Hkeep3, Hkeep2; rewrite Hv1; by apply Hperm).
Qed.

Lemma create_task_file_ok (r : t) :
  writable (w_vault (env r)) (fst (task_file r)) →
  ∃ w',
    create_task_file r = (Ok tt, set_env w' r) ∧
    w_trace w' = w_trace (env r)
                 ++ [EvWrite (fst (task_file r)) (snd (task_file r)); EvLogger INFO] ∧
    w_agent w' = w_agent (env r) ∧
    w_spawned w' = w_spawned (env r) ∧
    (∀ f, writable (w_vault (env r)) f → writable (w_vault w') f).
Proof.
  intros Hw. unfold create_task_file. run_goal.
  match goal with
  | |- context [bind (lift (write_text ?f ?n [?doc])) _ ?s] =>
      destruct (write_task_doc_ok f n doc s Hw)
        as (w' & E & Ht & Ha & Hs & _ & _ & Hch & Hframe & Hkeep)
  end.
  unfold bind at 1. rewrite E. cbn. cbn in Ht, Ha, Hs, Hkeep.
  eexists. split; [reflexivity|]. cbn. rewrite Ht, <- app_assoc. done.
Qed.

Lemma runner_create_alert_ok (r : t) :
  writable (w_vault (env r)) Needs_Action →
  ∃ w' created,
    create_alert r = (Ok tt, set_env w' r) ∧
    w_trace w' = w_trace (env r)
                 ++ [EvWrite Needs_Action (alert_filename r); EvLogger WARNING] ∧
    w_agent w' = w_agent (env r) ∧
    w_spawned w' = w_spawned (env r) ∧
    chunks_at (w_vault w') Needs_Action (alert_filename r) =
      [ExhaustedAlert created (task_description r) (task_id r)
         (max_iterations r) ("In_Progress/" +:+ task_filename r)
         (clip_summary 100 <$> iterations r)] ∧
    (∀ f, f ≠ Needs_Action → w_vault w' f = w_vault (env r) f).
Proof.
  intros Hw. unfold create_alert. run_goal.
  match goal with
  | |- context [bind (lift (write_text ?f ?n [?doc])) _ ?s] =>
      destruct (write_task_doc_ok f n doc s Hw)
        as (w' & E & Ht & Ha & Hs & _ & _ & Hch & Hframe & Hkeep)
  end.
  unfold bind at 1. rewrite E. cbn. cbn in Ht, Ha, Hs, Hframe, Hch.
  do 2 eexists. split; [reflexivity|]. cbn. rewrite Ht, <- app_assoc.
  repeat split; first [done | exact Hch].
Qed.

Local Arguments run_loop : simpl never.

(** C5. In live mode with [max_iterations = 2], no shutdown signal and an
    agent that fails on both runs, [run] makes exactly two runs of the
    agent and records two iterations, leaves the task file in the
    in-progress folder with status [max_iterations_exceeded], writes one
    file into the inbox folder, the alert listing the two iterations, and
    returns [False]; the command then exits with status 1. *)
Theorem exhaustion_after_two_failures (r : t) :
  let w := env r in
  let p1 := w_agent w (w_spawned w) in
  let p2 := w_agent w (S (w_spawned w)) in
  max_iterations r = 2 → dry_run r = false → running r = true →
  iterations r = [] → task_file r = (In_Progress, task_filename r) →
  exit_ok p1 = false → exit_ok p2 = false →
  p_signal p1 = false → p_signal p2 = false →
  respects_permissions p1 → respects_permissions p2 →
  writable (w_vault w) In_Progress → writable (w_vault w) Logs →
  writable (w_vault w) Needs_Action →
  ∃ r' evs it1 it2 created,
    run security r = (Ok false, r') ∧
    main_exit security r = (Ok 1, r') ∧
    w_trace (env r') = w_trace w ++ evs ∧
    spawns evs = 2%nat ∧
    iterations r' = [it1; it2] ∧
    number it1 = 1 ∧ number it2 = 2 ∧
    success it1 = false ∧ success it2 = false ∧
    task_status (w_vault (env r')) In_Progress (task_filename r)
      = Some "max_iterations_exceeded" ∧
    written Needs_Action evs = [alert_filename r] ∧
    chunks_at (w_vault (env r')) Needs_Action (alert_filename r) =
      [ExhaustedAlert created (task_description r) (task_id r) 2
         ("In_Progress/" +:+ task_filename r)
         [clip_summary 100 it1; clip_summary 100 it2]].
Proof.
  intros w p1 p2 Hmax Hdry Hrun Hits Hfile Hf1 Hf2 Hs1 Hs2 Hp1 Hp2 Hip Hlogs Hna.
  assert (∃ r' evs it1 it2 created,
    run security r = (Ok false, r') ∧
    w_trace (env r') = w_trace w ++ evs ∧
    spawns evs = 2%nat ∧
    iterations r' = [it1; it2] ∧
    number it1 = 1 ∧ number it2 = 2 ∧
    success it1 = false ∧ success it2 = false ∧
    task_status (w_vault (env r')) In_Progress (task_filename r)
      = Some "max_iterations_exceeded" ∧
    written Needs_Action evs = [alert_filename r] ∧
    chunks_at (w_vault (env r')) Needs_Action (alert_filename r) =
      [ExhaustedAlert created (task_description r) (task_id r) 2
         ("In_Progress/" +:+ task_filename r)
         [clip_summary 100 it1; clip_summary 100 it2]]) as Hrunres.
  2:{ destruct Hrunres as (r' & evs & it1 & it2 & created & E & Hrest).
      exists r', evs, it1, it2, created. split; [exact E|]. split; [|exact Hrest].
      unfold main_exit, mbind, M_bind, bind. by rewrite E. }
  unfold run. run_goal.
  set (ra := set_env (emit (EvLogger INFO) (env r)) r).
  destruct (create_task_file_ok ra) as (wa & Ea & Hta & Haa & Hsa & Hkeepa).
  { cbn. by rewrite Hfile. }
  unfold bind at 1. rewrite Ea. clear Ea. cbn in Hta, Haa, Hsa, Hkeepa.
  rewrite Hfile in Hta. cbn in Hta.
  set (rb := set_env wa ra).
  destruct (runner_log_event_ok "ralph_start" [] rb)
    as (wb & eb & Eb & Htb & Hab & Hsb & Hspb & Hwrb & _ & Hkeepb).
  { cbn. by apply Hkeepa. }
  unfold bind at 1. rewrite Eb. clear Eb. cbn in Htb, Hab, Hsb, Hkeepb.
  cbn. rewrite Hmax. change (Z.to_nat 2) with 2%nat.
  set (rc := set_env wb rb).
  assert (Hpc : w_agent (env rc) (w_spawned (env rc)) = p1).
  { cbn. by rewrite Hab, Hsb, Haa, Hsa. }
  rewrite <- Hpc in Hf1, Hs1, Hp1.
  destruct (failed_pass 1 1 rc Hrun Hdry Hfile Hf1 Hs1 Hp1)
    as (rd & evs1 & it1 & E1 & [Ht1 Ha1 Hsp1 Hmax1 Hdry1 Hid1 Hdesc1 Hname1 Hfile1]
        & Hspawn1 & Hwr1 & Hrun1 & Hits1 & Hnum1 & Hsucc1 & Hkeep1).
  { cbn. by apply Hkeepb, Hkeepa. }
  { cbn. by apply Hkeepb, Hkeepa. }
  unfold bind at 1. rewrite E1. clear E1.
  cbn in Ht1, Ha1, Hsp1, Hmax1, Hdry1, Hid1, Hdesc1, Hname1, Hfile1, Hits1, Hkeep1.
  assert (Hpd : w_agent (env rd) (w_spawned (env rd)) = p2).
  { rewrite Ha1, Hsp1, Hspawn1, Hab, Hsb, Haa, Hsa. subst p2 w. f_equal. lia. }
  rewrite <- Hpd in Hf2, Hs2, Hp2.
  assert (Hdryd : dry_run rd = false) by congruence.
  assert (Hfiled : task_file rd = (In_Progress, task_filename rd)) by congruence.
  destruct (failed_pass 0 2 rd Hrun1 Hdryd Hfiled Hf2 Hs2 Hp2)
    as (re & evs2 & it2 & E2 & [Ht2 Ha2 Hsp2 Hmax2 Hdry2 Hid2 Hdesc2 Hname2 Hfile2]
        & Hspawn2 & Hwr2 & Hrun2 & Hits2 & Hnum2 & Hsucc2 & Hkeep2).
  { by apply Hkeep1, Hkeepb, Hkeepa. }
  { by apply Hkeep1, Hkeepb, Hkeepa. }
  change (1 + 1) with 2. rewrite E2. clear E2.
  unfold run_loop. cbn.
  assert (Hfilee : task_file re = (In_Progress, task_filename r)) by congruence.
  destruct (update_task_file_in_place 2 "Max iterations reached"
              "max_iterations_exceeded" re)
    as (wf & Ef & Htf & Haf & Hsf & Hstf & _ & Hkeepf); [by left| |].
  { rewrite Hfilee. cbn. by apply Hkeep2, Hkeep1, Hkeepb, Hkeepa. }
  unfold bind at 1. rewrite Ef. clear Ef.
  rewrite Hfilee in Htf, Hstf. cbn in Htf, Hstf.
  set (rf := set_env wf re).
  destruct (runner_log_event_ok "ralph_exhausted" [("iterations", pretty 2)] rf)
    as (wg & eg & Eg & Htg & Hag & Hsg & Hspg & Hwrg & Hframeg & Hkeepg).
  { cbn. by apply Hkeepf, Hkeep2, Hkeep1, Hkeepb, Hkeepa. }
  unfold bind at 1. rewrite Eg. clear Eg. cbn in Htg, Hag, Hsg, Hframeg, Hkeepg.
  cbn.
  set (rh := set_env _ (set_env wg rf)).
  destruct (runner_create_alert_ok rh)
    as (wi & created & Ei & Hti & Hai & Hsi & Hchi & Hframei).
  { cbn. by apply Hkeepg, Hkeepf, Hkeep2, Hkeep1, Hkeepb, Hkeepa. }
  unfold bind at 1. rewrite Ei. clear Ei. cbn in Hti, Hai, Hsi, Hchi, Hframei.
  cbn.
  assert (Hal : alert_filename rh = alert_filename r).
  { unfold alert_filename. cbn. congruence. }
  rewrite Hal in Hti, Hchi.
  rewrite spawns_cons, spawns_nil in Hspb, Hspg.
  rewrite written_cons, written_nil in Hwrb, Hwrg.
  exists (set_env wi rh),
    ([EvLogger INFO; EvWrite In_Progress (task_filename r); EvLogger INFO]
     ++ [eb] ++ evs1 ++ evs2
     ++ [EvWrite In_Progress (task_filename r)] ++ [eg]
     ++ [EvLogger WARNING; EvWrite Needs_Action (alert_filename r);
         EvLogger WARNING]),
    it1, it2, created.
  split; [reflexivity|]. cbn [env set_env].
  split.
  { rewrite Hti, Htg, Htf, Ht2, Ht1, Htb, Hta. subst w.
    rewrite <- !app_assoc. reflexivity. }
  split.
  { rewrite !spawns_app, Hspawn1, Hspawn2, !spawns_cons, spawns_nil. lia. }
  split.
  { cbn. rewrite Hits2, Hits1, Hits. reflexivity. }
  do 4 (split; [done|]).
  split.
  { rewrite <- Hstf. apply task_status_ext.
    rewrite Hframei by done. cbn. by rewrite Hframeg. }
  split.
  { rewrite !written_app, Hwr1, Hwr2, !written_cons, written_nil.
    cbn. rewrite app_nil_r in Hwrb, Hwrg. by rewrite Hwrb, Hwrg. }
  rewrite Hchi. cbn. rewrite Hits2, Hits1, Hits. cbn.
  by rewrite Hdesc2, Hdesc1, Hid2, Hid1, Hmax2, Hmax1, Hmax, Hname2, Hname1.
Qed.

Lemma create_task_file_returned (r r' : t) u :
  create_task_file r = (Ok u, r') → ∃ w', r' = set_env w' r.
Proof.
  unfold create_task_file. intros H. run_prims H.
  bind_step H E. apply lift_write_text_returned in E as [-> _].
  cbn in H. injection H as _ <-. by eexists.
Qed.

(** C6, as the code has it.  Of a run started with the task file in the
    in-progress folder: when [run] returns [True] the done folder holds
    the task file with status [completed]; when it returns [False] the
    in-progress folder holds it, with status [interrupted] or
    [max_iterations_exceeded]. *)
Theorem task_file_moves_only_when_completed (r r' : t) (b : bool) :
  task_file r = (In_Progress, task_filename r) →
  run security r = (Ok b, r') →
  if b
  then task_status (w_vault (env r')) Done (task_filename r)
         = Some "completed"
  else task_status (w_vault (env r')) In_Progress (task_filename r)
         = Some "interrupted" ∨
       task_status (w_vault (env r')) In_Progress (task_filename r)
         = Some "max_iterations_exceeded".
Proof.
  intros Hfile H. unfold run in H. run_prims H.
  bind_step H Ecreate. apply create_task_file_returned in Ecreate as [w1 ->].
  bind_step H Elog. apply log_event_returned in Elog as (w2 & -> & _).
  cbn in H. bind_step H Eloop.
  apply run_loop_returned in Eloop as [Hname Hres]; [|by cbn].
  cbn in Hname, Hres.
  destruct a1 as [[]|].
  - injection H as <- <-. exact Hres.
  - injection H as <- <-. by left.
  - bind_step H Eup.
    apply update_task_file_returned in Eup as (Hn3 & Hf3 & Hst3).
    rewrite (bool_decide_eq_false_2 ("max_iterations_exceeded" = "completed"))
      in Hf3, Hst3 by done.
    cbn in Hn3, Hf3, Hst3. rewrite Hres in Hst3. cbn in Hst3.
    bind_step H Elog.
    apply log_event_returned in Elog as (w4 & -> & Hframe4).
    cbn in H. bind_step H Ealert.
    apply create_alert_returned in Ealert as (w5 & -> & Hframe5).
    cbn in H. injection H as <- <-. right. cbn.
    rewrite <- Hst3. apply task_status_ext.
    rewrite Hframe5 by done. cbn. by rewrite Hframe4.
Qed.

(** ** Completion *)




End TaskRunner.

(* ===================================================================== *)
(** * Concrete runs                                                       *)
(* ===================================================================== *)

Section ConcreteRuns.
Import Py World Scenario.

Lemma open_vault_writable (f : folder) : writable open_vault f.
Proof. exists ∅. split; [done|]. apply map_Forall_empty. Qed.

Lemma identity_respects_permissions
    (e : proc_exit) (out err : string) (sig : bool) :
  respects_permissions (Completed e out err (λ v, v) sig).
Proof. by intros v f H. Qed.

Lemma returned_pair {S A} (x : outcome A * S) (a : A) :
  fst x = Ok a → x = (Ok a, snd x).
Proof. destruct x as [y s]. cbn. by intros ->. Qed.

(** Dispatch against an agent that fails every time, and against one that
    fails the first time only. *)
Lemma dispatch_with_retry_witness :
  (let o := orchestrator_with always_failing in
   let now := utc (ticking 5) in
   ∃ o' evs,
     Orchestrator.run_skill_with_retry "update_dashboard" EmptyString o
       = (Ok false, o') ∧
     w_trace (Orchestrator.env o') = [] ++ evs ∧
     spawns evs = 2%nat ∧
     written Needs_Action evs = [Orchestrator.alert_filename now] ∧
     chunks_at (w_vault (Orchestrator.env o')) Needs_Action
               (Orchestrator.alert_filename now) =
       [SkillAlert (strftime_iso_z now) "update_dashboard"
                   (strftime_human now) 2] ∧
     Orchestrator.total_errors o' = 0 + 1) ∧
  (let o := orchestrator_with failing_once in
   ∃ o' evs,
     Orchestrator.run_skill_with_retry "update_dashboard" EmptyString o
       = (Ok true, o') ∧
     w_trace (Orchestrator.env o') = [] ++ evs ∧
     spawns evs = 2%nat ∧
     written Needs_Action evs = [] ∧
     Orchestrator.total_errors o' = 0).
Proof.
  split.
  - apply (dispatch_with_retry "update_dashboard" EmptyString
             (orchestrator_with always_failing));
      first [ reflexivity
            | apply identity_respects_permissions
            | apply open_vault_writable ].
  - apply (dispatch_with_retry "update_dashboard" EmptyString
             (orchestrator_with failing_once));
      first [ reflexivity
            | apply identity_respects_permissions
            | apply open_vault_writable ].
Defined.

Lemma exhaustion_after_two_failures_witness :
  let r := runner_with 2 always_failing in
  ∃ r' evs it1 it2 created,
    RalphLoop.run security r = (Ok false, r') ∧
    RalphLoop.main_exit security r = (Ok 1, r') ∧
    w_trace (RalphLoop.env r') = [] ++ evs ∧
    spawns evs = 2%nat ∧
    RalphLoop.iterations r' = [it1; it2] ∧
    number it1 = 1 ∧ number it2 = 2 ∧
    success it1 = false ∧ success it2 = false ∧
    task_status (w_vault (RalphLoop.env r')) In_Progress task_name
      = Some "max_iterations_exceeded" ∧
    written Needs_Action evs = ["ALERT_ralph_loop_exhausted_20261108_230500.md"] ∧
    chunks_at (w_vault (RalphLoop.env r')) Needs_Action
              "ALERT_ralph_loop_exhausted_20261108_230500.md" =
      [ExhaustedAlert created "Summarise the inbox" "20261108_230500" 2
         ("In_Progress/" +:+ task_name)
         [RalphLoop.clip_summary 100 it1; RalphLoop.clip_summary 100 it2]].
Proof.
  apply (exhaustion_after_two_failures security (runner_with 2 always_failing));
    first [ reflexivity
          | apply identity_respects_permissions
          | apply open_vault_writable ].
Defined.

(** The agent prints the marker on its first pass: the run returns [True]
    and the done folder holds the task file. *)
Lemma task_file_moves_only_when_completed_witness :
  let r := runner_with 3 announces in
  task_status (w_vault (RalphLoop.env (snd (RalphLoop.run security r))))
              Done (RalphLoop.task_filename r)
    = Some "completed".
Proof.
  apply (task_file_moves_only_when_completed security
           (runner_with 3 announces)
           (snd (RalphLoop.run security (runner_with 3 announces))) true).
  - reflexivity.
  - apply returned_pair. vm_compute. reflexivity.
Defined.

(** C6, the sentence as written fails.  After two failing passes with
    [max_iterations = 2] the run has ended with status
    [max_iterations_exceeded], and the task file is in the in-progress
    folder, not in the done folder. *)
Lemma exhausted_task_file_stays_in_progress :
  let run := RalphLoop.run security (runner_with 2 always_failing) in
  fst run = Ok false ∧
  task_status (w_vault (RalphLoop.env (snd run))) In_Progress task_name
    = Some "max_iterations_exceeded" ∧
  dir_files (w_vault (RalphLoop.env (snd run)) Done) !! task_name = None.
Proof. vm_compute. repeat split. Qed.



End ConcreteRuns.

(* ===================================================================== *)
(** * The task runner: file name and output summary                       *)
(* ===================================================================== *)

Section CharacterCounts.
Import Py Chars.

Lemma count_take_zero (c : ascii) (n : nat) (s : string) :
  count c s = 0%nat → count c (take n s) = 0%nat.
Proof.
  revert n. induction s as [|a s IH]; intros [|n] H; try done.
  cbn [take count] in *. case_decide; [lia|]. by rewrite IH.
Qed.

Lemma length_take (n : nat) (s : string) :
  (String.length (take n s) ≤ n)%nat.
Proof.
  revert s. induction n as [|n IH]; intros [|a s]; cbn; try lia.
  specialize (IH s). lia.
Qed.

Lemma numeric_not_digit (c : ascii) :
  numeric_char c = false → digit_char c = false.
Proof. unfold numeric_char. by intros [_ ?]%orb_false_elim. Qed.

Lemma count_pretty_N_go_other (c : ascii) (x : N) (s : string) :
  digit_char c = false →
  count c s = 0%nat → count c (pretty_N_go x s) = 0%nat.
Proof.
  intros Hc. revert s. induction (N.lt_wf_0 x) as [x _ IH]; intros s Hs.
  destruct (decide (x = 0%N)) as [->|Hx]; [done|].
  rewrite pretty_N_go_step by lia.
  apply IH; [apply N.div_lt; lia|].
  cbn [count]. rewrite Hs.
  case_decide as E; [|done]. exfalso. subst c.
  unfold pretty_N_char in Hc. by repeat case_match.
Qed.

Lemma count_pretty_N_other (c : ascii) (x : N) :
  digit_char c = false → count c (pretty x) = 0%nat.
Proof.
  intros Hc. unfold pretty, pretty_N. case_decide.
  - cbn. case_decide as E; [|done]. by subst c.
  - by apply count_pretty_N_go_other.
Qed.

Lemma count_pretty_Z_other (c : ascii) (z : Z) :
  numeric_char c = false → count c (pretty z) = 0%nat.
Proof.
  intros Hc. pose proof (numeric_not_digit c Hc) as Hd.
  destruct z as [|p|p].
  - cbn. case_decide as E; [|done]. by subst c.
  - change (pretty (Z.pos p)) with (pretty (N.pos p)).
    by apply count_pretty_N_other.
  - change (pretty (Z.neg p)) with ("-" +:+ pretty (N.pos p)).
    rewrite count_app, count_pretty_N_other by done.
    cbn. case_decide as E; [|done]. by subst c.
Qed.

(** A number that is not negative is rendered with digits only. *)
Lemma count_pretty_Z_nonneg (c : ascii) (z : Z) :
  0 ≤ z → digit_char c = false → count c (pretty z) = 0%nat.
Proof.
  intros Hz Hc. destruct z as [|p|p]; [|..|lia].
  - cbn. case_decide as E; [|done]. by subst c.
  - change (pretty (Z.pos p)) with (pretty (N.pos p)).
    by apply count_pretty_N_other.
Qed.

Lemma digit_neq (c : ascii) (k : nat) :
  digit_char c = false → (k < 10)%nat → digit (Z.of_nat k) ≠ c.
Proof.
  intros Hc Hk E. subst c. do 10 (destruct k as [|k]; [done|]). lia.
Qed.

Lemma pad2_digits (n : Z) :
  0 ≤ n < 100 →
  pad2 n = String (digit (n / 10)) (String (digit (n mod 10)) EmptyString).
Proof.
  intros Hn. unfold pad2.
  by rewrite (proj2 (Z.leb_le 0 n)), (proj2 (Z.ltb_lt n 100)) by lia.
Qed.

Lemma count_pad2_digit (c : ascii) (n : Z) :
  0 ≤ n < 100 → digit_char c = false → count c (pad2 n) = 0%nat.
Proof.
  intros Hn Hc. rewrite pad2_digits by done. cbn [count].
  rewrite !decide_False; [done|..].
  - rewrite <- (Z2Nat.id (n `mod` 10)) by (apply Z.mod_pos; lia).
    apply digit_neq; [done|]. apply Nat2Z.inj_lt.
    rewrite Z2Nat.id by (apply Z.mod_pos; lia). apply Z.mod_pos_bound. lia.
  - rewrite <- (Z2Nat.id (n / 10)) by (apply Z.div_pos; lia).
    apply digit_neq; [done|]. apply Nat2Z.inj_lt.
    rewrite Z2Nat.id by (apply Z.div_pos; lia).
    apply Z.div_lt_upper_bound; lia.
Qed.

Lemma count_pad2_other (c : ascii) (n : Z) :
  numeric_char c = false → count c (pad2 n) = 0%nat.
Proof.
  intros Hc. destruct (decide (0 ≤ n < 100)) as [Hn|Hn].
  - apply count_pad2_digit; [done|]. by apply numeric_not_digit.
  - unfold pad2. case_match eqn:E; [|by apply count_pretty_Z_other].
    apply andb_prop in E as [?%Z.leb_le ?%Z.ltb_lt]. lia.
Qed.

End CharacterCounts.

Section TaskFileName.
Import Py World RalphLoop Chars.

Lemma count_remove_unsafe (c : ascii) (s : string) :
  unsafe_char c = true → count c (remove_unsafe s) = 0%nat.
Proof.
  intros Hc. induction s as [|a s IH]; [done|].
  cbn [remove_unsafe]. destruct (unsafe_char a) eqn:Ha; [done|].
  cbn [count]. rewrite IH. case_decide; [congruence|done].
Qed.

Lemma count_sub_spaces_space (c : ascii) (in_run : bool) (s : string) :
  isspace c = true → count c (sub_spaces in_run s) = 0%nat.
Proof.
  intros Hc. revert in_run. induction s as [|a s IH]; intros in_run; [done|].
  cbn [sub_spaces]. destruct (isspace a) eqn:Ha.
  - destruct in_run; [done|]. cbn [count]. rewrite IH.
    case_decide as E; [|done]. by subst c.
  - cbn [count]. rewrite IH. case_decide; [congruence|done].
Qed.

Lemma count_sub_spaces_unsafe (c : ascii) (in_run : bool) (s : string) :
  unsafe_char c = true → count c s = 0%nat →
  count c (sub_spaces in_run s) = 0%nat.
Proof.
  intros Hc. revert in_run. induction s as [|a s IH]; intros in_run H; [done|].
  cbn [count] in H. case_decide as Ea; [lia|].
  cbn [sub_spaces]. destruct (isspace a).
  - destruct in_run; [apply IH; lia|]. cbn [count]. rewrite IH by lia.
    case_decide as E; [|done]. subst c. vm_compute in Hc. discriminate.
  - cbn [count]. rewrite IH by lia. by rewrite decide_False.
Qed.

(** What [__init__] makes of the description is at most 40 characters
    long and holds no white space and none of the characters that the
    first substitution deletes. *)
Lemma safe_desc_clean (task_description : string) (c : ascii) :
  unsafe_char c = true ∨ isspace c = true →
  count c (safe_desc task_description) = 0%nat.
Proof.
  intros Hc. unfold safe_desc. apply count_take_zero.
  destruct (unsafe_char c) eqn:Hu.
  - apply count_sub_spaces_unsafe; [done|]. by apply count_remove_unsafe.
  - destruct Hc as [|Hc]; [done|]. by apply count_sub_spaces_space.
Qed.

(** The name of the task file is one path component on every platform:
    whatever the description given and whatever the clock says, the name
    that [__init__] builds, when it returns, holds no slash, no backslash,
    no colon and none of the other characters deleted from the
    description, and the part taken from the description is at most 40
    characters long. *)
Theorem task_filename_is_one_component
    (security_dry_run : bool) (vault_path task_description : string)
    (max_iterations : option Z) (dry_run : option bool) (w w' : world) (r : t) :
  init security_dry_run vault_path task_description max_iterations dry_run w
    = (Ok r, w') →
  task_filename r =
    "TASK_" +:+ safe_desc task_description +:+ "_" +:+ task_id r +:+ ".md" ∧
  task_file r = (In_Progress, task_filename r) ∧
  (String.length (safe_desc task_description) ≤ 40)%nat ∧
  ∀ c, unsafe_char c = true → count c (task_filename r) = 0%nat.
Proof.
  unfold init, ensure_dirs, mkdir, utcnow, now, modify, get.
  unfold mbind, M_bind, mret, M_ret, bind, ret.
  intros E. injection E as <- _. cbn [task_filename task_id task_file].
  split; [done|]. split; [done|]. split; [apply length_take|].
  intros c Hc.
  assert (Hnum : numeric_char c = false).
  { unfold unsafe_char in Hc. apply bool_decide_eq_true in Hc.
    unfold numeric_char.
    repeat (apply elem_of_cons in Hc as [Hc|Hc];
            [apply (f_equal ascii_of_nat) in Hc;
             rewrite ascii_nat_embedding in Hc; by subst c|]).
    by apply elem_of_nil in Hc. }
  assert (Hund : count c "_" = 0%nat).
  { cbn. case_decide as E; [|done]. by subst c. }
  rewrite !count_app, safe_desc_clean, Hund by auto.
  unfold strftime_compact.
  rewrite !count_app, count_pretty_Z_other, !count_pad2_other, Hund by done.
  cbn. repeat (case_decide; [subst c; vm_compute in Hc; discriminate|]).
  done.
Qed.

(** A description that names a folder of the vault. *)
Lemma task_filename_is_one_component_witness :
  ∃ r w',
    init true "/vault" "Process all files in /Needs_Action" None None
         (Scenario.world_with Scenario.always_failing) = (Ok r, w') ∧
    task_filename r
      = "TASK_Process_all_files_in_Needs_Action_20261108_230500.md" ∧
    count "/" (task_filename r) = 0%nat.
Proof.
  do 2 eexists. split; [vm_compute; reflexivity|].
  split; [vm_compute; reflexivity|].
  eapply (task_filename_is_one_component true "/vault"
            "Process all files in /Needs_Action" None None
            (Scenario.world_with Scenario.always_failing)).
  - vm_compute. reflexivity.
  - reflexivity.
Defined.

End TaskFileName.

Section SummaryErrors.
Import Py RalphLoop.

Lemma lstrip_shape (s : string) :
  lstrip s = EmptyString ∨
  ∃ c s', lstrip s = String c s' ∧ isspace c = false.
Proof.
  induction s as [|a s IH]; [by left|].
  cbn [lstrip]. destruct (isspace a) eqn:Ha; [done|]. right. eauto.
Qed.

(** A trimmed string is empty or starts with a character that is not
    white space. *)
Lemma strip_shape (s : string) :
  strip s = EmptyString ∨
  ∃ c s', strip s = String c s' ∧ isspace c = false.
Proof.
  unfold strip. destruct (lstrip_shape s) as [->|(c & s' & -> & Hc)].
  - by left.
  - right. destruct (strip_cons_nonspace c s' Hc) as [s'' E].
    unfold strip in E. cbn [lstrip] in E. rewrite Hc in E.
    eauto.
Qed.

(** [_summarize_output] raises exactly on an output that is not empty
    and is made of white space only: such an output passes the test
    [if not output], leaves [lines] empty, and [lines[0]] raises
    [IndexError].  On every other output it returns. *)
Theorem summarize_output_raises_on_blank_only (output : string) :
  match summarize_output output with
  | Raise e =>
      e = IndexError ∧ output ≠ EmptyString ∧ strip output = EmptyString
  | Ok summary =>
      output = EmptyString ∧ summary = "(no output)" ∨
      output ≠ EmptyString ∧ strip output ≠ EmptyString
  end.
Proof.
  unfold summarize_output. unfold truthy at 1.
  case_bool_decide as Hout; cbn [negb]; [by left|].
  destruct (strip_shape output) as [->|(c & s' & -> & Hc)].
  - by cbn.
  - destruct (split_cons_other newline c s') as (l & ls & ->).
    { intros ->. by rewrite isspace_newline in Hc. }
    rewrite filter_cons.
    destruct (strip_cons_nonspace c l Hc) as [l' El].
    rewrite decide_True
      by (by rewrite El; unfold truthy; rewrite bool_decide_eq_false_2).
    rewrite fmap_cons, El.
    destruct (list.take 5 _); right; done.
Qed.

End SummaryErrors.

(* ===================================================================== *)
(** * The task runner with a limit that allows no pass                    *)
(* ===================================================================== *)

Section NoPass.
Import Py World RalphLoop.
Variable security : Security.config.

Local Arguments can_write : simpl never.
Local Arguments put_file : simpl never.
Local Arguments spawns : simpl never.
Local Arguments written : simpl never.
Local Arguments chunks_at : simpl never.
Local Arguments log_event : simpl never.
Local Arguments update_task_file : simpl never.
Local Arguments create_alert : simpl never.
Local Arguments create_task_file : simpl never.
Local Arguments pretty : simpl never.

(** With a limit that is not positive (a negative one, which [__init__]
    keeps as given) [range(1, max_iterations + 1)] is empty: whatever the
    mode, [run] makes no pass and never starts the agent, yet it reports
    exhaustion:
    the task file stays in the in-progress folder with status
    [max_iterations_exceeded], the alert is the one file written to the
    inbox folder, [run] returns [False] and the command exits with 1. *)
Theorem nonpositive_limit_runs_no_pass (r : t) :
  max_iterations r ≤ 0 →
  task_file r = (In_Progress, task_filename r) →
  writable (w_vault (env r)) In_Progress →
  writable (w_vault (env r)) Logs →
  writable (w_vault (env r)) Needs_Action →
  ∃ r' evs created,
    run security r = (Ok false, r') ∧
    main_exit security r = (Ok 1, r') ∧
    w_trace (env r') = w_trace (env r) ++ evs ∧
    spawns evs = 0%nat ∧
    iterations r' = iterations r ∧
    task_status (w_vault (env r')) In_Progress (task_filename r)
      = Some "max_iterations_exceeded" ∧
    written Needs_Action evs = [alert_filename r] ∧
    chunks_at (w_vault (env r')) Needs_Action (alert_filename r) =
      [ExhaustedAlert created (task_description r) (task_id r)
         (max_iterations r) ("In_Progress/" +:+ task_filename r)
         (clip_summary 100 <$> iterations r)].
Proof.
  intros Hmax Hfile Hip Hlogs Hna.
  assert (∃ r' evs created,
    run security r = (Ok false, r') ∧
    w_trace (env r') = w_trace (env r) ++ evs ∧
    spawns evs = 0%nat ∧
    iterations r' = iterations r ∧
    task_status (w_vault (env r')) In_Progress (task_filename r)
      = Some "max_iterations_exceeded" ∧
    written Needs_Action evs = [alert_filename r] ∧
    chunks_at (w_vault (env r')) Needs_Action (alert_filename r) =
      [ExhaustedAlert created (task_description r) (task_id r)
         (max_iterations r) ("In_Progress/" +:+ task_filename r)
         (clip_summary 100 <$> iterations r)]) as Hrunres.
  2:{ destruct Hrunres as (r' & evs & created & E & Hrest).
      exists r', evs, created. split; [exact E|]. split; [|exact Hrest].
      unfold main_exit, mbind, M_bind, bind. by rewrite E. }
  unfold run. unfold mbind, M_bind, mret, M_ret. cbn.
  set (ra := set_env (emit (EvLogger INFO) (env r)) r).
  destruct (create_task_file_ok ra) as (wa & Ea & Hta & Haa & Hsa & Hkeepa).
  { cbn. by rewrite Hfile. }
  unfold bind at 1. rewrite Ea. clear Ea. cbn in Hta, Haa, Hsa, Hkeepa.
  rewrite Hfile in Hta. cbn in Hta.
  set (rb := set_env wa ra).
  destruct (runner_log_event_ok "ralph_start" [] rb)
    as (wb & eb & Eb & Htb & Hab & Hsb & Hspb & Hwrb & _ & Hkeepb).
  { cbn. by apply Hkeepa. }
  unfold bind at 1. rewrite Eb. clear Eb. cbn in Htb, Hab, Hsb, Hkeepb.
  cbn. replace (Z.to_nat (max_iterations r)) with 0%nat by lia.
  cbn [run_loop]. unfold mret, M_ret. cbn.
  set (rc := set_env wb rb).
  assert (Hfilec : task_file rc = (In_Progress, task_filename r)) by done.
  destruct (update_task_file_in_place (max_iterations r) "Max iterations reached"
              "max_iterations_exceeded" rc)
    as (wf & Ef & Htf & Haf & Hsf & Hstf & _ & Hkeepf); [by left| |].
  { rewrite Hfilec. cbn. by apply Hkeepb, Hkeepa. }
  unfold bind at 1. rewrite Ef. clear Ef.
  rewrite Hfilec in Htf, Hstf. cbn in Htf, Hstf.
  set (rf := set_env wf rc).
  destruct (runner_log_event_ok "ralph_exhausted"
              [("iterations", pretty (max_iterations r))] rf)
    as (wg & eg & Eg & Htg & Hag & Hsg & Hspg & Hwrg & Hframeg & Hkeepg).
  { cbn. by apply Hkeepf, Hkeepb, Hkeepa. }
  unfold bind at 1. rewrite Eg. clear Eg. cbn in Htg, Hag, Hsg, Hframeg, Hkeepg.
  cbn.
  set (rh := set_env _ (set_env wg rf)).
  destruct (runner_create_alert_ok rh)
    as (wi & created & Ei & Hti & Hai & Hsi & Hchi & Hframei).
  { cbn. by apply Hkeepg, Hkeepf, Hkeepb, Hkeepa. }
  unfold bind at 1. rewrite Ei. clear Ei. cbn in Hti, Hai, Hsi, Hchi, Hframei.
  cbn.
  rewrite spawns_cons, spawns_nil in Hspb, Hspg.
  rewrite written_cons, written_nil in Hwrb, Hwrg.
  rewrite app_nil_r in Hwrb, Hwrg.
  exists (set_env wi rh),
    ([EvLogger INFO; EvWrite In_Progress (task_filename r); EvLogger INFO]
     ++ [eb] ++ [EvWrite In_Progress (task_filename r)] ++ [eg]
     ++ [EvLogger WARNING; EvWrite Needs_Action (alert_filename r);
         EvLogger WARNING]),
    created.
  split; [reflexivity|]. cbn [env set_env].
  split.
  { rewrite Hti, Htg, Htf, Htb, Hta. rewrite <- !app_assoc. reflexivity. }
  split.
  { rewrite !spawns_app, !spawns_cons, spawns_nil. cbn. lia. }
  split; [done|].
  split.
  { rewrite <- Hstf. apply task_status_ext.
    rewrite Hframei by done. cbn. by rewrite Hframeg. }
  split.
  { rewrite !written_app, !written_cons, written_nil.
    cbn. by rewrite Hwrb, Hwrg. }
  exact Hchi.
Qed.

End NoPass.

Section NoPassWitness.
Import Py World Scenario.

(** A runner built with the limit -1. *)
Lemma nonpositive_limit_runs_no_pass_witness :
  let r := runner_with (-1) always_failing in
  RalphLoop.max_iterations r = -1 ∧
  ∃ r' evs created,
    RalphLoop.run security r = (Ok false, r') ∧
    RalphLoop.main_exit security r = (Ok 1, r') ∧
    w_trace (RalphLoop.env r') = [] ++ evs ∧
    spawns evs = 0%nat ∧
    RalphLoop.iterations r' = [] ∧
    task_status (w_vault (RalphLoop.env r')) In_Progress task_name
      = Some "max_iterations_exceeded" ∧
    written Needs_Action evs = ["ALERT_ralph_loop_exhausted_20261108_230500.md"] ∧
    chunks_at (w_vault (RalphLoop.env r')) Needs_Action
              "ALERT_ralph_loop_exhausted_20261108_230500.md" =
      [ExhaustedAlert created "Summarise the inbox" "20261108_230500" (-1)
         ("In_Progress/" +:+ task_name) []].
Proof.
  split; [reflexivity|].
  apply (nonpositive_limit_runs_no_pass security (runner_with (-1) always_failing));
    first [ reflexivity | apply open_vault_writable | (vm_compute; discriminate) ].
Defined.

End NoPassWitness.

(* ===================================================================== *)
(** * The task runner in dry-run mode                                     *)
(* ===================================================================== *)

Section StillWorld.
Import Py World Quiet.

Lemma still_ret {A} (a : A) : still (mret a).
Proof. by intros w. Qed.

Lemma still_bind {A B} (m : M world A) (k : A → M world B) :
  still m → (∀ a, still (k a)) → still (m ≫= k).
Proof.
  intros Hm Hk w. unfold mbind, M_bind, bind.
  specialize (Hm w). destruct (m w) as [[a|e] w1]; cbn [snd] in *; [|done].
  by rewrite Hk.
Qed.

Lemma still_now : still now.
Proof. by intros w. Qed.

Lemma still_utcnow : still utcnow.
Proof. by intros w. Qed.

Lemma still_time_time : still time_time.
Proof. by intros w. Qed.

Lemma still_logger (l : level) : still (logger l).
Proof. by intros w. Qed.

Lemma still_sleep (seconds : Z) : still (sleep seconds).
Proof. by intros w. Qed.

Lemma still_path_exists (f : folder) (name : string) : still (path_exists f name).
Proof. by intros w. Qed.

Lemma still_write_text (f : folder) (name : string) (content : list chunk) :
  still (write_text f name content).
Proof. intros w. unfold write_text. by destruct (can_write _ _ _). Qed.

Lemma still_append_text (f : folder) (name : string) (c : chunk) :
  still (append_text f name c).
Proof. intros w. unfold append_text. by destruct (can_write _ _ _). Qed.

Lemma still_unlink (f : folder) (name : string) : still (unlink_missing_ok f name).
Proof.
  intros w. unfold unlink_missing_ok.
  destruct (w_vault w f) as [|[] files]; [done|..]; by destruct (files !! name).
Qed.

Lemma still_audit_log (security : Security.config)
    (action_type actor target result : string) (dry_run : option bool)
    (metadata : option (list (string * json))) :
  still (Security.audit_log security action_type actor target result
                            dry_run metadata).
Proof.
  intros w.
  unfold Security.audit_log, utcnow, now, try_except, append_text, logger,
    modify, mbind, M_bind, bind, mret, M_ret, ret.
  cbn [w_clock w_reads w_vault].
  destruct (can_write _ _ _); repeat case_bool_decide; reflexivity.
Qed.

End StillWorld.

Section QuietRunner.
Import Py World RalphLoop Quiet.
Variable security : Security.config.

Lemma quiet_ret {A} (a : A) : quiet (mret a).
Proof. by intros r Hd. Qed.

Lemma quiet_bind {A B} (m : M t A) (k : A → M t B) :
  quiet m → (∀ a, quiet (k a)) → quiet (m ≫= k).
Proof.
  intros Hm Hk r Hd. unfold mbind, M_bind, bind.
  destruct (Hm r Hd) as [Hd1 Hs1].
  destruct (m r) as [[a|e] r1]; cbn [snd] in *; [|done].
  destruct (Hk a r1 Hd1) as [Hd2 Hs2]. split; congruence.
Qed.

(** What [get] hands to the rest is a state in dry-run mode. *)
Lemma quiet_get_bind {B} (k : t → M t B) :
  (∀ r0, dry_run r0 = true → quiet (k r0)) → quiet (get ≫= k).
Proof. intros Hk r Hd. unfold mbind, M_bind, bind, get. by apply Hk. Qed.

Lemma quiet_gets {A} (f : t → A) : quiet (gets f).
Proof. by intros r Hd. Qed.

Lemma quiet_get : quiet get.
Proof. by intros r Hd. Qed.

Lemma quiet_lift {A} (m : M world A) : still m → quiet (lift m).
Proof.
  intros Hm r Hd. unfold lift. cbn [project inject has_world].
  specialize (Hm (env r)). by destruct (m (env r)) as [res w].
Qed.

Lemma quiet_modify (f : t → t) :
  (∀ r, dry_run (f r) = dry_run r ∧ env (f r) = env r) → quiet (modify f).
Proof. intros Hf r Hd. unfold modify. cbn. destruct (Hf r) as [-> ->]. done. Qed.

Lemma quiet_of_outcome {A} (o : outcome A) : quiet (of_outcome o).
Proof. by intros r Hd. Qed.

Ltac quiet_step :=
  lazymatch goal with
  | |- quiet (mret _) => apply quiet_ret
  | |- quiet (gets _) => apply quiet_gets
  | |- quiet get => apply quiet_get
  | |- quiet (of_outcome _) => apply quiet_of_outcome
  | |- quiet (modify _) => apply quiet_modify; by intros []
  | |- quiet (lift _) =>
      apply quiet_lift;
      first [ apply still_utcnow | apply still_time_time | apply still_logger
            | apply still_sleep | apply still_path_exists
            | apply still_write_text | apply still_append_text
            | apply still_unlink | apply still_audit_log ]
  | |- quiet (mbind _ _) => apply quiet_bind; [|intro]
  | |- quiet (if ?b then _ else _) => destruct b
  | |- quiet (match ?x with _ => _ end) => destruct x
  end.

Lemma quiet_log_event (event_type : string) details :
  quiet (log_event event_type details).
Proof. unfold log_event. repeat quiet_step. Qed.

Lemma quiet_create_task_file : quiet create_task_file.
Proof. unfold create_task_file. repeat quiet_step. Qed.

Lemma quiet_update_task_file iteration output_summary status :
  quiet (update_task_file iteration output_summary status).
Proof. unfold update_task_file. repeat quiet_step. Qed.

Lemma quiet_check_completion (claude_output : string) :
  quiet (check_completion claude_output).
Proof. unfold check_completion. repeat quiet_step. Qed.

Lemma quiet_create_alert : quiet create_alert.
Proof. unfold create_alert. repeat quiet_step. Qed.

(** In dry-run mode [_run_claude] takes the branch that simulates. *)
Lemma quiet_run_claude (prompt : string) : quiet (run_claude security prompt).
Proof.
  unfold run_claude. apply quiet_get_bind. intros r0 ->. repeat quiet_step.
Qed.

Ltac quiet_call :=
  lazymatch goal with
  | IH : ∀ i, quiet (run_loop _ _ i) |- quiet (run_loop _ _ _) => apply IH
  | |- quiet (run_loop _ _ _) => fail
  | |- quiet (run_claude _ _) => apply quiet_run_claude
  | |- quiet (log_event _ _) => apply quiet_log_event
  | |- quiet create_task_file => apply quiet_create_task_file
  | |- quiet (update_task_file _ _ _) => apply quiet_update_task_file
  | |- quiet (check_completion _) => apply quiet_check_completion
  | |- quiet create_alert => apply quiet_create_alert
  | |- _ => quiet_step
  end.

Lemma quiet_run_loop (n : nat) : ∀ iteration, quiet (run_loop security n iteration).
Proof.
  induction n as [|n IH]; intros iteration; cbn [run_loop]; [apply quiet_ret|].
  repeat quiet_call.
Qed.

(** Dry-run mode: [run] never starts the agent, however many passes it
    makes and however it ends, an exception included, and the mode is
    still dry-run at the end. *)
Theorem dry_run_never_starts_the_agent (r : t) :
  dry_run r = true →
  dry_run (snd (run security r)) = true ∧
  w_spawned (env (snd (run security r))) = w_spawned (env r).
Proof.
  revert r. change (quiet (run security)). unfold run.
  repeat lazymatch goal with
         | |- quiet (run_loop _ _ _) => apply quiet_run_loop
         | |- _ => quiet_call
         end.
Qed.

End QuietRunner.

Section QuietRunnerWitness.
Import Py World RalphLoop.

Lemma dry_run_never_starts_the_agent_witness :
  let r := Fixtures.dry_runner 2 in
  fst (run Scenario.security r) = Ok false ∧
  dry_run (snd (run Scenario.security r)) = true ∧
  w_spawned (env (snd (run Scenario.security r))) = 0%nat.
Proof.
  split; [vm_compute; reflexivity|].
  apply (dry_run_never_starts_the_agent Scenario.security (Fixtures.dry_runner 2)).
  reflexivity.
Defined.

End QuietRunnerWitness.

(* ===================================================================== *)
(** * The rate limiter over any sequence of calls                         *)
(* ===================================================================== *)

Section SlidingWindow.
Import Security SecurityConfig.

Lemma purge_twice (t0 now w : Q) (l : list Q) :
  (t0 <= now)%Q →
  filter (λ t, (now - w < t)%Q) (filter (λ t, (t0 - w < t)%Q) l)
    = filter (λ t, (now - w < t)%Q) l.
Proof.
  intros Hle. rewrite list_filter_filter. apply list_filter_iff.
  intros t. split; [by intros [? _]|]. intros H. split; [done|]. lra.
Qed.

(** The bucket holds, after each call, the granted calls that are
    within the window ending at that call. *)
Lemma allow_calls_retained (times : list Q) :
  ∀ (b : bucket) (pre : list Q) (t0 : Q),
    (0 < window_seconds b)%Q →
    StronglySorted Qle (t0 :: times) →
    timestamps b = filter (λ t, (t0 - window_seconds b < t)%Q) pre →
    timestamps (snd (allow_calls times b)) =
      filter (λ t, (foldl (λ _ t', t') t0 times - window_seconds b < t)%Q)
             (pre ++ granted times (fst (allow_calls times b))).
Proof.
  induction times as [|now times IH]; intros b pre t0 Hw Hsorted Hb.
  - cbn. by rewrite app_nil_r.
  - apply StronglySorted_inv in Hsorted as [Hrest Hall].
    apply Forall_cons in Hall as [Hnow Hlater].
    assert (Hsorted' : StronglySorted Qle (now :: times)) by done.
    cbn [allow_calls foldl].
    destruct (allow_at now b) as [r b1] eqn:E1.
    assert (Hw1 : window_seconds b1 = window_seconds b).
    { unfold allow_at in E1. by case_match; injection E1 as <- <-. }
    assert (Hkept : filter (λ t, (now - window_seconds b < t)%Q) (timestamps b)
                    = filter (λ t, (now - window_seconds b < t)%Q) pre).
    { rewrite Hb. by apply purge_twice. }
    assert (Hts1 : timestamps b1 =
                     filter (λ t, (now - window_seconds b < t)%Q)
                            (pre ++ if r then [now] else [])).
    { unfold allow_at in E1. rewrite Hkept in E1.
      case_match; simplify_eq; cbn [timestamps].
      - by rewrite app_nil_r.
      - rewrite filter_app, filter_cons, decide_True by lra. done. }
    specialize (IH b1 (pre ++ if r then [now] else []) now).
    rewrite Hw1 in IH. specialize (IH Hw Hsorted' Hts1).
    destruct (allow_calls times b1) as [rs b2]. cbn [fst snd] in *.
    rewrite IH. destruct r; cbn [granted].
    + by rewrite <- app_assoc.
    + by rewrite app_nil_r.
Qed.

(** Whatever the clock does, the bucket never holds more than
    [max_count] timestamps, once it holds no more than that. *)
Lemma allow_calls_bounded (times : list Q) :
  ∀ b : bucket,
    Z.of_nat (length (timestamps (snd (allow_calls times b))))
      ≤ Z.max (Z.of_nat (length (timestamps b))) (max_count b).
Proof.
  induction times as [|now times IH]; intros b; [cbn; lia|].
  cbn [allow_calls].
  destruct (allow_at now b) as [r b1] eqn:E1.
  specialize (IH b1).
  destruct (allow_calls times b1) as [rs b2]. cbn [fst snd] in *.
  pose proof (purge_shrinks (now - window_seconds b) (timestamps b)) as Hk.
  unfold allow_at in E1.
  case_match eqn:Hfull; injection E1 as <- <-;
    cbn [timestamps max_count] in IH.
  - lia.
  - rewrite length_app in IH. cbn [length] in IH. lia.
Qed.

(** Over calls made at clock values in chronological order, starting
    with an empty bucket: after the call made at [now], the timestamps held
    are the granted calls of the window that ends at [now], and there
    are at most [max_count] of them.  So no window ending at a call has
    more than [max_count] granted calls. *)
Theorem granted_calls_within_window
    (max_count : Z) (window_seconds : Q) (times : list Q) (now : Q) :
  (0 < window_seconds)%Q →
  StronglySorted Qle (times ++ [now]) →
  let calls := times ++ [now] in
  let answers := fst (allow_calls calls (new_bucket max_count window_seconds)) in
  let b := snd (allow_calls calls (new_bucket max_count window_seconds)) in
  timestamps b =
    filter (λ t, (now - window_seconds < t)%Q) (granted calls answers) ∧
  Z.of_nat (length (filter (λ t, (now - window_seconds < t)%Q)
                           (granted calls answers)))
    ≤ Z.max 0 max_count.
Proof.
  intros Hw Hsorted calls answers b. subst calls answers b.
  assert (∃ t0, StronglySorted Qle (t0 :: times ++ [now])) as [t0 Hs0].
  { destruct times as [|t0 rest].
    - exists now. repeat constructor. lra.
    - exists t0. constructor; [done|]. constructor; [lra|].
      by apply StronglySorted_inv in Hsorted as [_ ?]. }
  pose proof (allow_calls_retained (times ++ [now])
                (new_bucket max_count window_seconds) [] t0 Hw Hs0 eq_refl)
    as Hb.
  rewrite foldl_app in Hb.
  cbn [foldl new_bucket Security.window_seconds app] in Hb.
  split; [exact Hb|]. rewrite <- Hb.
  apply (allow_calls_bounded (times ++ [now])
           (new_bucket max_count window_seconds)).
Qed.

Lemma granted_calls_within_window_witness :
  let calls := [0; 10; 20; 30; 61; 62]%Q in
  let answers := fst (allow_calls calls (new_bucket 3 60)) in
  answers = [true; true; true; false; true; false] ∧
  timestamps (snd (allow_calls calls (new_bucket 3 60))) = [10; 20; 61]%Q ∧
  Z.of_nat (length (filter (λ t, (62 - 60 < t)%Q) (granted calls answers)))
    ≤ Z.max 0 3.
Proof.
  split; [reflexivity|].
  destruct (granted_calls_within_window 3 60 [0; 10; 20; 30; 61]%Q 62%Q)
    as [Hts Hlen].
  - reflexivity.
  - repeat constructor; unfold Qle; simpl; lia.
  - split; [reflexivity | exact Hlen].
Defined.

End SlidingWindow.

Section RateLimitCheck.
Import Py World Security SecurityConfig.

Lemma allow_at_limits (now : Q) (b : bucket) :
  max_count (snd (allow_at now b)) = max_count b ∧
  window_seconds (snd (allow_at now b)) = window_seconds b.
Proof. unfold allow_at. by case_match. Qed.

(** [check_rate_limit] never raises.  For an action type without a
    bucket it answers [True] and changes nothing.  For one with a bucket
    it answers what [allow] answers at the clock value it reads, and
    touches that bucket alone: the dry-run flag, the vault, the limits of
    the bucket and every other bucket are as before. *)
Theorem check_rate_limit_touches_one_bucket (action_type : string) (p : process) :
  let now := unix (w_clock (env p) (w_reads (env p))) in
  let limiters := rate_limiters (security p) in
  ∃ p',
    check_rate_limit action_type p =
      (Ok (match limiters !! action_type with
           | None => true
           | Some b => fst (allow_at now b)
           end), p') ∧
    dry_run (security p') = dry_run (security p) ∧
    w_vault (env p') = w_vault (env p) ∧
    (∀ other, other ≠ action_type →
              rate_limiters (security p') !! other = limiters !! other) ∧
    match limiters !! action_type with
    | None => p' = p
    | Some b =>
        ∃ b', rate_limiters (security p') !! action_type = Some b' ∧
              max_count b' = max_count b ∧
              window_seconds b' = window_seconds b ∧
              (fst (allow_at now b) = true →
               timestamps b' = timestamps (snd (allow_at now b)))
    end.
Proof.
  intros now limiters. subst now limiters.
  unfold check_rate_limit, store, allow, time_time, World.now, lift, gets,
    modify, logger.
  unfold mbind, M_bind, mret, M_ret, bind, ret. cbn [project inject has_world].
  destruct p as [[dry limiters] w]. cbn [security env rate_limiters dry_run].
  destruct (limiters !! action_type) as [b|] eqn:Hb; cbn.
  - pose proof (allow_at_limits (unix (w_clock w (w_reads w))) b) as [Hm Hw].
    destruct (allow_at _ b) as [allowed b'] eqn:E. cbn [fst snd] in *.
    destruct allowed; cbn; (eexists; split; [reflexivity|]); cbn.
    + repeat split; [|eexists; split; [apply lookup_insert_eq|done]].
      intros other Hne. by rewrite lookup_insert_ne.
    + repeat split; [|eexists; split; [apply lookup_insert_eq|done]].
      intros other Hne. by rewrite !lookup_insert_ne.
  - eexists. split; [reflexivity|]. done.
Qed.

End RateLimitCheck.

(* ===================================================================== *)
(** * The audit file over several calls                                   *)
(* ===================================================================== *)

Section AuditSequence.
Import Py World Security AuditLog.

(** One call, seen from the file of the day: the clock is read twice,
    and a file that could be appended to still can. *)
Lemma audit_log_step (security : config) (c : call) (w : world) (name : string) :
  audit_file_name (utc (w_clock w (S (w_reads w)))) = name →
  can_write (w_vault w) Audit name = true →
  ∃ entry w',
    audit_log security (action_type c) (actor c) (target c) (result c)
              (dry_run c) (metadata c) w = (Ok entry, w') ∧
    ae_action_type entry = action_type c ∧
    ae_result entry = result c ∧
    w_clock w' = w_clock w ∧
    w_reads w' = S (S (w_reads w)) ∧
    can_write (w_vault w') Audit name = true ∧
    chunks_at (w_vault w') Audit name
      = chunks_at (w_vault w) Audit name ++ [AuditLine entry].
Proof.
  intros Hname Hw.
  unfold audit_log, utcnow, now, try_except, append_text, logger, modify.
  unfold mbind, M_bind, mret, M_ret, bind, ret.
  cbn [w_clock w_reads w_vault]. rewrite Hname, Hw.
  assert (Hkeep : can_write
            (put_file Audit name
               (chunks_at (w_vault w) Audit name ++
                [AuditLine
                   (AuditEntry (isoformat (utc (w_clock w (w_reads w))))
                      (action_type c) (actor c) (target c)
                      (default (Security.dry_run security) (dry_run c))
                      (result c)
                      match metadata c with
                      | Some (_ :: _) => metadata c
                      | _ => None
                      end)]) (w_vault w)) Audit name = true).
  { unfold can_write, put_file in *.
    destruct (w_vault w Audit) as [|dw files]; [done|].
    rewrite fn_lookup_insert. rewrite lookup_insert_eq.
    by destruct (files !! name). }
  repeat case_bool_decide; cbn; do 2 eexists;
    (split; [reflexivity|]); cbn;
    (repeat split; [exact Hkeep | by apply chunks_at_put_file]).
Qed.

(** Calls made while the clock stays within one UTC day and the file of
    that day can be appended to: every call returns, and the file gains
    one line per call, in the order of the calls, after what it held. *)
Theorem audit_file_grows_in_call_order
    (security : config) (calls : list call) (w : world) (name : string) :
  (∀ k, (k < 2 * length calls)%nat →
        audit_file_name (utc (w_clock w (w_reads w + k))) = name) →
  can_write (w_vault w) Audit name = true →
  ∃ entries w',
    audit_calls security calls w = (Ok entries, w') ∧
    ae_action_type <$> entries = action_type <$> calls ∧
    ae_result <$> entries = result <$> calls ∧
    chunks_at (w_vault w') Audit name
      = chunks_at (w_vault w) Audit name ++ (AuditLine <$> entries).
Proof.
  revert w. induction calls as [|c calls IH]; intros w Hday Hw.
  - exists [], w. by rewrite app_nil_r.
  - destruct (audit_log_step security c w name) as
      (entry & w1 & E1 & Ha & Hr & Hclock & Hreads & Hw1 & Hch1); [|done|].
    { rewrite <- (Hday 1%nat) by (cbn [length]; lia). f_equal. f_equal. f_equal. lia. }
    destruct (IH w1) as (entries & w' & E & Has & Hrs & Hch); [|done|].
    { intros k Hk. rewrite Hclock, Hreads.
      rewrite <- (Hday (2 + k)%nat) by (cbn [length]; lia).
      do 3 f_equal. lia. }
    exists (entry :: entries), w'.
    cbn [audit_calls]. unfold mbind, M_bind, bind. rewrite E1, E.
    split; [done|]. rewrite !fmap_cons, Ha, Hr, Has, Hrs.
    repeat split. rewrite Hch, Hch1, <- app_assoc. done.
Qed.

Lemma audit_file_grows_in_call_order_witness :
  let calls := [Call "file_op" "watcher" "Needs_Action/files/a.md" "success"
                     None (Some [("operation", JStr "create_action_file")]);
                Call "social_post" "linkedin_mcp" "create_post" "rate_limited"
                     None (Some [("chars", JInt 12)])] in
  let w := Scenario.world_with Scenario.always_failing in
  ∃ entries w',
    audit_calls Scenario.security calls w = (Ok entries, w') ∧
    ae_action_type <$> entries = ["file_op"; "social_post"] ∧
    ae_result <$> entries = ["success"; "rate_limited"] ∧
    chunks_at (w_vault w') Audit "audit_2026-11-08.jsonl"
      = [] ++ (AuditLine <$> entries).
Proof.
  apply (audit_file_grows_in_call_order Scenario.security
           [Call "file_op" "watcher" "Needs_Action/files/a.md" "success"
                 None (Some [("operation", JStr "create_action_file")]);
            Call "social_post" "linkedin_mcp" "create_post" "rate_limited"
                 None (Some [("chars", JInt 12)])]
           (Scenario.world_with Scenario.always_failing)
           "audit_2026-11-08.jsonl").
  - intros k _. reflexivity.
  - reflexivity.
Defined.

End AuditSequence.

(* ===================================================================== *)
(** * The orchestrator: scans, dry run, schedule, uptime                  *)
(* ===================================================================== *)

Section ScanReports.
Import Py World Orchestrator Monitoring.

Lemma detections_returned (ds : list dir) (o : t) :
  ∃ o',
    detections ds o =
      (Ok (successive_differences (known_needs_action o) (scan_folder <$> ds)),
       o') ∧
    known_needs_action o' =
      default (known_needs_action o) (last (scan_folder <$> ds)) ∧
    known_approved o' = known_approved o.
Proof.
  revert o. induction ds as [|d ds IH]; intros o; [by exists o|].
  rewrite detections_cons.
  set (o1 := set_known_needs_action (scan_folder d) _).
  destruct (IH o1) as (o' & -> & Hknown & Happroved).
  exists o'. split; [done|]. split; [|done].
  rewrite Hknown, fmap_cons, last_cons. subst o1.
  cbn [known_needs_action set_known_needs_action].
  by destruct (last _).
Qed.

(** Over successive states of the inbox folder, each detection call
    reports the files of its scan that the scan before did not have (the
    first one, those that the snapshot it started from did not have); the
    snapshot left is the last scan, and the snapshot of the approved
    folder is not touched. *)
Theorem detections_report_differences (ds : list dir) (o : t) :
  ∃ o',
    detections ds o =
      (Ok (successive_differences (known_needs_action o) (scan_folder <$> ds)),
       o') ∧
    known_needs_action o' =
      default (known_needs_action o) (last (scan_folder <$> ds)) ∧
    known_approved o' = known_approved o.
Proof. apply detections_returned. Qed.

(** A file that left the folder and came back is reported again: the
    snapshot is the last scan, not the files ever seen. *)
Theorem returning_file_is_reported_again
    (f : string) (gone back : dir) (o : t) :
  f ∉ scan_folder gone →
  f ∈ scan_folder back →
  ∃ first second o',
    detections [gone; back] o = (Ok [first; second], o') ∧
    f ∈ second.
Proof.
  intros Hgone Hback.
  destruct (detections_returned [gone; back] o) as (o' & E & _).
  do 3 eexists. split; [exact E|].
  by apply elem_of_difference.
Qed.

Lemma returning_file_is_reported_again_witness :
  let o := Scenario.orchestrator_with Scenario.always_failing in
  ∃ first second o',
    detections [Dir true ∅; Scenario.inbox_with_note] o
      = (Ok [first; second], o') ∧
    "note.md" ∈ second.
Proof.
  apply (returning_file_is_reported_again "note.md" (Dir true ∅)
           Scenario.inbox_with_note
           (Scenario.orchestrator_with Scenario.always_failing)).
  - apply (bool_decide_unpack _). vm_compute. reflexivity.
  - apply (bool_decide_unpack _). vm_compute. reflexivity.
Defined.

End ScanReports.

Section Uptime.
Import Py Monitoring.

(** For a duration that is not negative, the numbers [_format_uptime]
    prints are the hours, minutes and seconds of the whole seconds
    elapsed: they add up to them, minutes and seconds are below 60, and
    the hours, then the minutes, are left out while they are zero. *)
Theorem format_uptime_parts (seconds : Q) :
  (0 <= seconds)%Q →
  ∃ h m s,
    Qfloor seconds = 3600 * h + 60 * m + s ∧
    0 ≤ h ∧ 0 ≤ m < 60 ∧ 0 ≤ s < 60 ∧
    format_uptime seconds =
      if 0 <? h
      then pretty h +:+ "h " +:+ pretty m +:+ "m " +:+ pretty s +:+ "s"
      else if 0 <? m
           then pretty m +:+ "m " +:+ pretty s +:+ "s"
           else pretty s +:+ "s".
Proof.
  intros Hpos.
  assert (Hn : 0 ≤ Qfloor seconds).
  { change 0 with (Qfloor 0). by apply Qfloor_resp_le. }
  exists (Qfloor seconds / 3600), ((Qfloor seconds mod 3600) / 60),
         ((Qfloor seconds mod 3600) mod 60).
  pose proof (Z.mod_pos_bound (Qfloor seconds) 3600 ltac:(lia)) as Hr.
  pose proof (Z.mod_pos_bound (Qfloor seconds mod 3600) 60 ltac:(lia)) as Hs.
  pose proof (Z.div_mod (Qfloor seconds) 3600 ltac:(lia)) as E1.
  pose proof (Z.div_mod (Qfloor seconds mod 3600) 60 ltac:(lia)) as E2.
  split; [lia|]. split; [apply Z.div_pos; lia|].
  split; [split; [apply Z.div_pos; lia | apply Z.div_lt_upper_bound; lia]|].
  split; [done|].
  unfold format_uptime, int.
  by rewrite (proj2 (Qle_bool_iff 0 seconds) Hpos).
Qed.

Lemma format_uptime_parts_witness :
  ∃ h m s,
    Qfloor (3725 # 1) = 3600 * h + 60 * m + s ∧
    0 ≤ h ∧ 0 ≤ m < 60 ∧ 0 ≤ s < 60 ∧
    format_uptime (3725 # 1) =
      if 0 <? h
      then pretty h +:+ "h " +:+ pretty m +:+ "m " +:+ pretty s +:+ "s"
      else if 0 <? m
           then pretty m +:+ "m " +:+ pretty s +:+ "s"
           else pretty s +:+ "s".
Proof.
  apply (format_uptime_parts (3725 # 1)). unfold Qle. simpl. lia.
Defined.

(** A negative duration (the clock was set back) is printed without its
    hours: the text is that of the duration taken modulo one hour. *)
Theorem format_uptime_negative (n : Z) :
  n < 0 →
  format_uptime (inject_Z n) = format_uptime (inject_Z (n mod 3600)).
Proof.
  intros Hneg.
  pose proof (Z.mod_pos_bound n 3600 ltac:(lia)) as Hr.
  unfold format_uptime, int.
  replace (Qle_bool 0 (inject_Z n)) with false
    by (symmetry; apply not_true_is_false; rewrite Qle_bool_iff;
        unfold Qle; simpl; lia).
  rewrite (proj2 (Qle_bool_iff 0 (inject_Z (n mod 3600))))
    by (unfold Qle; simpl; lia).
  rewrite Qceiling_Z, Qfloor_Z.
  rewrite (Z.div_small (n mod 3600) 3600), Z.mod_mod by lia.
  assert (n / 3600 < 0) by (apply Z.div_lt_upper_bound; lia).
  replace (0 <? n / 3600) with false by (symmetry; apply Z.ltb_ge; lia).
  done.
Qed.

Lemma format_uptime_negative_witness :
  format_uptime (inject_Z (-1)) = "59m 59s" ∧
  format_uptime (inject_Z (-1)) = format_uptime (inject_Z ((-1) mod 3600)).
Proof.
  split; [reflexivity|]. apply (format_uptime_negative (-1)). lia.
Defined.

End Uptime.

Section DryRunDispatch.
Import Py World Orchestrator.

Ltac proj_norm :=
  cbn [set_env set_running set_known_needs_action set_known_approved
       set_last_briefing_check set_total_skills_run set_total_errors
       set_last_error emit set_vault
       vault_path dry_run running known_needs_action known_approved
       last_dashboard_update last_briefing_check total_scans
       total_skills_run total_errors last_error env
       w_vault w_clock w_reads w_agent w_spawned w_trace
       project inject has_world fst snd] in *.

(** Writing the daily log starts no agent, whether or not it succeeds. *)
Lemma log_event_spawns_nothing (event_type : string) details (o : t) :
  w_spawned (env (snd (log_event event_type details o))) = w_spawned (env o).
Proof.
  unfold log_event, lift, utcnow, now, path_exists, write_text, append_text,
    gets, mbind, M_bind, bind, mret, M_ret, ret.
  proj_norm.
  case_bool_decide; cbn [negb]; proj_norm;
    destruct (can_write _ _ _); reflexivity.
Qed.

Local Arguments log_event : simpl never.
Local Arguments spawns : simpl never.
Local Arguments written : simpl never.

(** What [_log_event] records when the log folder can be written to:
    one write, or one append, to the log of the day. *)
Lemma log_event_logged (event_type : string) details (o : t) :
  writable (w_vault (env o)) Logs →
  let log_file :=
    strftime_date (utc (w_clock (env o) (w_reads (env o)))) +:+ ".md" in
  ∃ w' e,
    log_event event_type details o = (Ok tt, set_env w' o) ∧
    advances (env o) w' 2 [e] ∧
    (e = EvWrite Logs log_file ∨ e = EvAppend Logs log_file) ∧
    (∀ f, f ≠ Logs → w_vault w' f = w_vault (env o) f) ∧
    (∀ f, writable (w_vault (env o)) f → writable (w_vault w') f).
Proof.
  intros Hlogs log_file.
  pose proof (writable_can_write _ _ log_file Hlogs) as Hcw.
  subst log_file.
  unfold log_event, lift, utcnow, now, path_exists, write_text, append_text,
    gets, mbind, M_bind, bind, mret, M_ret, ret.
  proj_norm.
  case_bool_decide; cbn [negb]; proj_norm; rewrite Hcw;
    do 2 eexists; (split; [reflexivity|]).
  all: split; [split; proj_norm; auto with lia|].
  all: split; [first [by left | by right]|].
  all: split; intros f Hf;
    first [by apply put_file_other_folder | by apply writable_put_file].
Qed.

(** A dispatch in dry-run mode, the log folder being writable. *)
Lemma dry_dispatch_ok (skill_name context : string) (o : t) :
  dry_run o = true →
  writable (w_vault (env o)) Logs →
  let log_file :=
    strftime_date (utc (w_clock (env o) (w_reads (env o)))) +:+ ".md" in
  ∃ o' e,
    run_skill_with_retry skill_name context o = (Ok true, o') ∧
    dry_run o' = true ∧
    w_trace (env o') = w_trace (env o) ++ [EvLogger INFO; e] ∧
    (e = EvWrite Logs log_file ∨ e = EvAppend Logs log_file) ∧
    w_spawned (env o') = w_spawned (env o) ∧
    total_skills_run o' = total_skills_run o + 1 ∧
    total_errors o' = total_errors o ∧
    (∀ f, f ≠ Logs → w_vault (env o') f = w_vault (env o) f) ∧
    (∀ f, writable (w_vault (env o)) f → writable (w_vault (env o')) f).
Proof.
  intros Hdry Hlogs log_file. subst log_file.
  unfold run_skill_with_retry, run_skill, incr_total_skills_run.
  unfold mbind, M_bind, mret, M_ret.
  unfold bind at 1; unfold bind at 1; unfold get at 1; rewrite Hdry.
  unfold bind at 1; unfold lift at 1, logger at 1, modify at 1; proj_norm.
  set (o1 := set_env _ o).
  destruct (log_event_logged "skill_dry_run"
              [("skill_name", skill_name); ("context", context)] o1 Hlogs)
    as (w' & e & E & [Ht Hc Ha Hr Hs] & He & Hother & Hkeep).
  unfold bind at 1. rewrite E. unfold bind, modify, ret. cbn.
  do 2 eexists. split; [reflexivity|]. proj_norm.
  subst o1. proj_norm.
  split; [done|].
  split; [by rewrite Ht, <- app_assoc|].
  split; [exact He|].
  split; [rewrite Hs; by destruct He as [-> | ->]|].
  repeat split; try done.
Qed.

(** In dry-run mode a dispatch never starts the agent, not even when
    writing the log fails.  When the log folder can be written to, the
    dispatch answers [True] at once and records two events only, the
    console message and the write (or append) to the log of the day: no
    retry, no pause, no alert, the error counter as before and the count
    of skills run one higher, and no folder other than the log folder is
    touched. *)
Theorem dry_run_dispatch_starts_no_agent (skill_name context : string) (o : t) :
  dry_run o = true →
  w_spawned (env (snd (run_skill_with_retry skill_name context o)))
    = w_spawned (env o) ∧
  (writable (w_vault (env o)) Logs →
   let log_file :=
     strftime_date (utc (w_clock (env o) (w_reads (env o)))) +:+ ".md" in
   ∃ o' e,
     run_skill_with_retry skill_name context o = (Ok true, o') ∧
     w_trace (env o') = w_trace (env o) ++ [EvLogger INFO; e] ∧
     (e = EvWrite Logs log_file ∨ e = EvAppend Logs log_file) ∧
     spawns [EvLogger INFO; e] = 0%nat ∧
     written Needs_Action [EvLogger INFO; e] = [] ∧
     total_skills_run o' = total_skills_run o + 1 ∧
     total_errors o' = total_errors o ∧
     ∀ f, f ≠ Logs → w_vault (env o') f = w_vault (env o) f).
Proof.
  intros Hdry. split; [|intros Hlogs log_file].
  - unfold run_skill_with_retry, run_skill, incr_total_skills_run.
    unfold mbind, M_bind, mret, M_ret.
    unfold bind at 1; unfold bind at 1; unfold get at 1; rewrite Hdry.
    unfold bind at 1; unfold lift at 1, logger at 1, modify at 1; proj_norm.
    set (o1 := set_env _ o).
    pose proof (log_event_spawns_nothing "skill_dry_run"
                  [("skill_name", skill_name); ("context", context)] o1) as Hs.
    unfold bind at 1.
    destruct (log_event _ _ o1) as [[[]|e] o2]; cbn [snd] in Hs; [|exact Hs].
    unfold bind, modify, ret. cbn. exact Hs.
  - destruct (dry_dispatch_ok skill_name context o Hdry Hlogs)
      as (o' & e & E & _ & Ht & He & _ & Hrun & Herr & Hother & _).
    exists o', e. split; [done|]. split; [done|]. split; [exact He|].
    split; [by destruct He as [-> | ->]|].
    split; [by destruct He as [-> | ->]|].
    done.
Qed.

Lemma dry_run_dispatch_starts_no_agent_witness :
  let o := Fixtures.dry_orchestrator in
  w_spawned (env (snd (run_skill_with_retry "update_dashboard" EmptyString o)))
    = 0%nat ∧
  ∃ o',
    run_skill_with_retry "update_dashboard" EmptyString o = (Ok true, o') ∧
    w_trace (env o') = [EvLogger INFO; EvWrite Logs "2026-11-08.md"].
Proof.
  destruct (dry_run_dispatch_starts_no_agent "update_dashboard" EmptyString
              Fixtures.dry_orchestrator) as [Hspawned Hreturns];
    [reflexivity|].
  split; [exact Hspawned|].
  eexists. split; vm_compute; reflexivity.
Defined.

End DryRunDispatch.

Section BriefingHours.
Import Py Orchestrator.

(** Whatever the clock values of the evaluations and whatever date is
    remembered, the predicate answers [True] only at a clock value that
    is a Sunday between 23:00 and 23:59. *)
Theorem briefing_fires_only_on_sunday_night (nows : list datetime) (o : t) :
  Forall (λ now, weekday now = 6 ∧ hour now = 23) (briefing_firings nows o).
Proof.
  revert o. induction nows as [|now nows IH]; intros o; [constructor|].
  cbn [briefing_firings].
  destruct (should_run_briefing_at now o) as [[] o'] eqn:E; [|apply IH].
  constructor; [|apply IH].
  unfold should_run_briefing_at in E.
  case_match eqn:Hcond; [|discriminate].
  apply andb_prop in Hcond as [Hcond _].
  apply andb_prop in Hcond as [Hday Hhour].
  apply bool_decide_eq_true in Hday, Hhour. done.
Qed.

End BriefingHours.

(* ===================================================================== *)
(** * The orchestrator in dry-run mode                                    *)
(* ===================================================================== *)

Section CalmOrchestrator.
Import Py World Orchestrator Quiet.

Lemma calm_ret {A} (a : A) : calm (mret a).
Proof. by intros o Hd. Qed.

Lemma calm_bind {A B} (m : M t A) (k : A → M t B) :
  calm m → (∀ a, calm (k a)) → calm (m ≫= k).
Proof.
  intros Hm Hk o Hd. unfold mbind, M_bind, bind.
  destruct (Hm o Hd) as [Hd1 Hs1].
  destruct (m o) as [[a|e] o1]; cbn [snd] in *; [|done].
  destruct (Hk a o1 Hd1) as [Hd2 Hs2]. split; congruence.
Qed.

Lemma calm_get_bind {B} (k : t → M t B) :
  (∀ o0, dry_run o0 = true → calm (k o0)) → calm (get ≫= k).
Proof. intros Hk o Hd. unfold mbind, M_bind, bind, get. by apply Hk. Qed.

Lemma calm_gets {A} (f : t → A) : calm (gets f).
Proof. by intros o Hd. Qed.

Lemma calm_lift {A} (m : M world A) : still m → calm (lift m).
Proof.
  intros Hm o Hd. unfold lift. cbn [project inject has_world].
  specialize (Hm (env o)). by destruct (m (env o)) as [res w].
Qed.

Lemma calm_modify (f : t → t) :
  (∀ o, dry_run (f o) = dry_run o ∧ env (f o) = env o) → calm (modify f).
Proof. intros Hf o Hd. unfold modify. cbn. destruct (Hf o) as [-> ->]. done. Qed.

Lemma calm_state {A} (f : t → A * t) :
  (∀ o, dry_run (snd (f o)) = dry_run o ∧ env (snd (f o)) = env o) →
  calm (state f).
Proof.
  intros Hf o Hd. unfold state. specialize (Hf o).
  destruct (f o) as [a o']. cbn in *. destruct Hf as [-> ->]. done.
Qed.

Ltac calm_step :=
  lazymatch goal with
  | |- calm (mret _) => apply calm_ret
  | |- calm (gets _) => apply calm_gets
  | |- calm (modify _) => apply calm_modify; by intros []
  | |- calm (lift _) =>
      apply calm_lift;
      first [ apply still_utcnow | apply still_time_time | apply still_logger
            | apply still_sleep | apply still_path_exists
            | apply still_write_text | apply still_append_text ]
  | |- calm (mbind _ _) => apply calm_bind; [|intro]
  | |- calm (if ?b then _ else _) => destruct b
  | |- calm (match ?x with _ => _ end) => destruct x
  end.

Lemma calm_log_event (event_type : string) details :
  calm (log_event event_type details).
Proof. unfold log_event. repeat calm_step. Qed.

Lemma calm_create_alert (skill_name : string) : calm (create_alert skill_name).
Proof. unfold create_alert. repeat calm_step. Qed.

(** In dry-run mode [_run_skill] takes the branch that simulates. *)
Lemma calm_run_skill (skill_name context : string) :
  calm (run_skill skill_name context).
Proof.
  unfold run_skill, incr_total_skills_run.
  apply calm_get_bind. intros o0 ->.
  repeat lazymatch goal with
         | |- calm (log_event _ _) => apply calm_log_event
         | |- _ => calm_step
         end.
Qed.

Lemma calm_run_skill_with_retry (skill_name context : string) :
  calm (run_skill_with_retry skill_name context).
Proof.
  unfold run_skill_with_retry.
  repeat lazymatch goal with
         | |- calm (run_skill _ _) => apply calm_run_skill
         | |- calm (create_alert _) => apply calm_create_alert
         | |- _ => calm_step
         end.
Qed.

Lemma calm_detect_new_needs_action : calm detect_new_needs_action.
Proof. unfold detect_new_needs_action. repeat calm_step. Qed.

Lemma calm_detect_new_approved : calm detect_new_approved.
Proof. unfold detect_new_approved. repeat calm_step. Qed.

Lemma calm_should_run_briefing : calm should_run_briefing.
Proof.
  unfold should_run_briefing. apply calm_bind; [calm_step|]. intros now.
  apply calm_state. intros o. unfold should_run_briefing_at.
  by case_match.
Qed.

End CalmOrchestrator.

Section HushedPipeline.
Import Py World Pipeline Quiet.
Variable read_text : world → string → outcome string.

Lemma hushed_ret {A} (a : A) : hushed (mret a).
Proof. by intros p Hd. Qed.

Lemma hushed_bind {A B} (m : M t A) (k : A → M t B) :
  hushed m → (∀ a, hushed (k a)) → hushed (m ≫= k).
Proof.
  intros Hm Hk p Hd. unfold mbind, M_bind, bind.
  destruct (Hm p Hd) as [Hd1 Hs1].
  destruct (m p) as [[a|e] p1]; cbn [snd] in *; [|done].
  destruct (Hk a p1 Hd1) as [Hd2 Hs2]. split; congruence.
Qed.

Lemma hushed_gets {A} (f : t → A) : hushed (gets f).
Proof. by intros p Hd. Qed.

Lemma hushed_lift_core {A} (m : M Orchestrator.t A) : calm m → hushed (lift m).
Proof.
  intros Hm p Hd. unfold lift. cbn [project inject has_core].
  specialize (Hm (core p) Hd). by destruct (m (core p)) as [res o].
Qed.

Lemma hushed_lift_world {A} (m : M world A) : still m → hushed (lift m).
Proof.
  intros Hm p Hd. unfold lift. cbn [project inject has_world].
  specialize (Hm (Orchestrator.env (core p))).
  by destruct (m (Orchestrator.env (core p))) as [res w].
Qed.

(** Assignments to the trackers leave the orchestrator proper alone. *)
Lemma hushed_modify_items (f : t → gmap string ItemTracker) :
  hushed (modify (λ p, set_items (f p) p)).
Proof. by intros p Hd. Qed.

Lemma hushed_for_each {A} (body : A → M t unit) (l : list A) :
  (∀ x, hushed (body x)) → hushed (for_each body l).
Proof.
  intros Hbody. induction l as [|x l IH]; [apply hushed_ret|].
  cbn [for_each]. apply hushed_bind; [apply Hbody | by intros _].
Qed.

Ltac hushed_step :=
  lazymatch goal with
  | |- hushed (mret _) => apply hushed_ret
  | |- hushed (gets _) => apply hushed_gets
  | |- hushed (tracked _) => apply hushed_gets
  | |- hushed (modify (λ p, set_items _ p)) => apply hushed_modify_items
  | |- hushed (put_item _ _) => apply hushed_modify_items
  | |- hushed (set_error _ _) => apply hushed_modify_items
  | |- hushed (incr_retries _) => apply hushed_modify_items
  | |- hushed (@lift world _ _ _ _) =>
      apply hushed_lift_world;
      first [ apply still_utcnow | apply still_time_time | apply still_logger ]
  | |- hushed (@lift Orchestrator.t _ _ _ _) =>
      apply hushed_lift_core;
      first [ apply calm_run_skill_with_retry | apply calm_log_event
            | apply calm_detect_new_needs_action | apply calm_detect_new_approved
            | apply calm_should_run_briefing
            | apply calm_modify; by intros [] ]
  | |- hushed (for_each _ _) => apply hushed_for_each; intro
  | |- hushed (mbind _ _) => apply hushed_bind; [|intro]
  | |- hushed (if ?b then _ else _) => destruct b
  end.

Lemma hushed_handle_new_items (new_files : list string) :
  hushed (handle_new_items read_text new_files).
Proof.
  unfold handle_new_items, track_new, new_tracker, transition.
  repeat hushed_step.
Qed.

Lemma hushed_handle_approved (approved_files : list string) :
  hushed (handle_approved approved_files).
Proof.
  unfold handle_approved, mark_approved, new_tracker, transition.
  repeat hushed_step.
Qed.

(** Dry-run mode: a scan cycle never starts the agent, whatever it finds
    in the folders, whichever schedules are due and however it ends; the
    same holds of the two handlers called on any files. *)
Theorem dry_run_cycle_starts_no_agent (p : t) (files : list string) :
  Orchestrator.dry_run (core p) = true →
  w_spawned (Orchestrator.env (core (snd (tick read_text p))))
    = w_spawned (Orchestrator.env (core p)) ∧
  w_spawned (Orchestrator.env (core (snd (handle_new_items read_text files p))))
    = w_spawned (Orchestrator.env (core p)) ∧
  w_spawned (Orchestrator.env (core (snd (handle_approved files p))))
    = w_spawned (Orchestrator.env (core p)).
Proof.
  intros Hd.
  split; [|split; [by apply hushed_handle_new_items
                  |by apply hushed_handle_approved]].
  revert p Hd. cut (hushed (tick read_text)); [intros H p Hd; by apply H|].
  unfold tick.
  repeat lazymatch goal with
         | |- hushed (handle_new_items _ _) => apply hushed_handle_new_items
         | |- hushed (handle_approved _) => apply hushed_handle_approved
         | |- _ => hushed_step
         end.
Qed.

End HushedPipeline.

Section HushedPipelineWitness.
Import Py World Pipeline.

Lemma dry_run_cycle_starts_no_agent_witness :
  let p := Fixtures.dry_pipeline in
  w_spawned (Orchestrator.env (core (snd (tick Fixtures.unreadable p)))) = 0%nat ∧
  w_spawned (Orchestrator.env
               (core (snd (handle_new_items Fixtures.unreadable ["note.md"] p))))
    = 0%nat ∧
  w_spawned (Orchestrator.env (core (snd (handle_approved ["note.md"] p))))
    = 0%nat.
Proof.
  apply (dry_run_cycle_starts_no_agent Fixtures.unreadable
           Fixtures.dry_pipeline ["note.md"]).
  reflexivity.
Defined.

End HushedPipelineWitness.

(* ===================================================================== *)
(** * The trackers of the orchestrator                                    *)
(* ===================================================================== *)

Section SettledTrackers.
Import Py World Pipeline.
Variable read_text : world → string → outcome string.

Lemma keeps_ret {A} (a : A) : keeps (mret a).
Proof. by intros p Hp. Qed.

Lemma keeps_bind {A B} (m : M t A) (k : A → M t B) :
  keeps m → (∀ a, keeps (k a)) → keeps (m ≫= k).
Proof.
  intros Hm Hk p Hp. unfold mbind, M_bind, bind.
  specialize (Hm p Hp). destruct (m p) as [[a|e] p1]; cbn [snd] in *; [|done].
  by apply Hk.
Qed.

Lemma keeps_gets {A} (f : t → A) : keeps (gets f).
Proof. by intros p Hp. Qed.

(** What runs on the orchestrator proper, or on the world, does not
    touch the trackers. *)
Lemma keeps_lift_core {A} (m : M Orchestrator.t A) : keeps (lift m).
Proof.
  intros p Hp. unfold lift. cbn [project inject has_core].
  by destruct (m (core p)) as [res o].
Qed.

Lemma keeps_lift_world {A} (m : M world A) : keeps (lift m).
Proof.
  intros p Hp. unfold lift. cbn [project inject has_world].
  by destruct (m (Orchestrator.env (core p))) as [res w].
Qed.

Lemma keeps_put_item (key : string) (tr : ItemTracker) :
  settled_state (state tr) = true → keeps (put_item key tr).
Proof.
  intros Htr p Hp. unfold put_item, modify, settled in *.
  cbn [snd items set_items]. by apply map_Forall_insert_2.
Qed.

Lemma keeps_alter (f : ItemTracker → ItemTracker) (key : string) :
  (∀ tr, settled_state (state tr) = true → settled_state (state (f tr)) = true) →
  keeps (modify (λ p, set_items (alter f key (items p)) p)).
Proof.
  intros Hf p Hp. unfold modify, settled in *. cbn [snd items set_items].
  intros k tr' Hk.
  destruct (decide (k = key)) as [->|Hne].
  - rewrite lookup_alter_eq in Hk.
    destruct (items p !! key) as [tr|] eqn:E; [|done].
    injection Hk as <-. apply Hf. by apply (Hp key).
  - rewrite lookup_alter_ne in Hk by done. by apply (Hp k).
Qed.

Lemma keeps_transition (key : string) (s : State) :
  settled_state s = true → keeps (transition key s).
Proof.
  intros Hs. unfold transition. apply keeps_bind; [apply keeps_lift_world|].
  intros now. by apply keeps_alter.
Qed.

(** Two transitions in a row: the state in between is seen by nobody,
    since nothing between them can raise. *)
Lemma keeps_transition_twice (key : string) (s1 s2 : State) :
  settled_state s2 = true →
  keeps (transition key s1;; transition key s2).
Proof.
  intros Hs p Hp.
  unfold transition, lift, utcnow, now, modify.
  unfold mbind, M_bind, mret, M_ret, bind, ret, settled in *.
  cbn [snd items set_items set_core core project inject has_world].
  intros k tr' Hk.
  destruct (decide (k = key)) as [->|Hne].
  - rewrite !lookup_alter_eq in Hk.
    destruct (items p !! key) as [tr|] eqn:E; [|done].
    by injection Hk as <-.
  - rewrite !lookup_alter_ne in Hk by done. by apply (Hp k).
Qed.

Lemma keeps_set_error (key message : string) : keeps (set_error key message).
Proof. by apply keeps_alter. Qed.

Lemma keeps_incr_retries (key : string) : keeps (incr_retries key).
Proof. by apply keeps_alter. Qed.

Lemma keeps_for_each {A} (body : A → M t unit) (l : list A) :
  (∀ x, keeps (body x)) → keeps (for_each body l).
Proof.
  intros Hbody. induction l as [|x l IH]; [apply keeps_ret|].
  cbn [for_each]. apply keeps_bind; [apply Hbody | by intros _].
Qed.

(** A tracker is born in a settled state. *)
Lemma keeps_new_tracker {B} (filepath item_type : string)
    (k : ItemTracker → M t B) :
  (∀ tr, settled_state (state tr) = true → keeps (k tr)) →
  keeps (new_tracker filepath item_type ≫= k).
Proof.
  intros Hk p Hp. unfold new_tracker, lift, utcnow, now.
  unfold mbind, M_bind, mret, M_ret, bind, ret.
  cbn [project inject has_world]. by apply Hk.
Qed.

Ltac keeps_step :=
  lazymatch goal with
  | |- keeps (mret _) => apply keeps_ret
  | |- keeps (gets _) => apply keeps_gets
  | |- keeps (tracked _) => apply keeps_gets
  | |- keeps (@lift Orchestrator.t _ _ _ _) => apply keeps_lift_core
  | |- keeps (@lift world _ _ _ _) => apply keeps_lift_world
  | |- keeps (mbind (λ _, transition _ _) (transition _ _)) =>
      apply keeps_transition_twice; reflexivity
  | |- keeps (transition _ _) => apply keeps_transition; reflexivity
  | |- keeps (set_error _ _) => apply keeps_set_error
  | |- keeps (incr_retries _) => apply keeps_incr_retries
  | |- keeps (put_item _ _) => apply keeps_put_item; first [assumption | reflexivity]
  | |- keeps (for_each _ _) => apply keeps_for_each; intro
  | |- keeps (mbind _ (new_tracker _ _)) => apply keeps_new_tracker; intros ? ?
  | |- keeps (mbind _ _) => apply keeps_bind; [|intro]
  | |- keeps (if ?b then _ else _) => destruct b
  end.

Lemma keeps_handle_new_items (new_files : list string) :
  keeps (handle_new_items read_text new_files).
Proof.
  unfold handle_new_items, track_new, tracked.
  repeat keeps_step.
Qed.

Lemma keeps_handle_approved (approved_files : list string) :
  keeps (handle_approved approved_files).
Proof.
  unfold handle_approved, mark_approved, tracked.
  repeat keeps_step.
Qed.

(** Between two calls no tracker is ever seen in state [IDLE],
    [PROCESSING] or [EXECUTING]: if every tracker is in one of [DETECTED],
    [AWAITING_APPROVAL], [APPROVED] and [DONE] before a scan cycle or
    one of the two handlers, so it is after it, whether the call returns
    or raises and whatever the agent does. *)
Theorem trackers_rest_in_settled_states (p : t) (files : list string) :
  settled p →
  settled (snd (handle_new_items read_text files p)) ∧
  settled (snd (handle_approved files p)) ∧
  settled (snd (tick read_text p)).
Proof.
  intros Hp. split; [by apply keeps_handle_new_items|].
  split; [by apply keeps_handle_approved|].
  revert p Hp. change (keeps (tick read_text)). unfold tick.
  repeat lazymatch goal with
         | |- keeps (handle_new_items _ _) => apply keeps_handle_new_items
         | |- keeps (handle_approved _) => apply keeps_handle_approved
         | |- _ => keeps_step
         end.
Qed.

End SettledTrackers.

Section SettledTrackersWitness.
Import Py World Pipeline.

Lemma trackers_rest_in_settled_states_witness :
  settled (snd (handle_new_items Fixtures.unreadable ["note.md"]
                  Fixtures.dry_pipeline)) ∧
  settled (snd (handle_approved ["note.md"] Fixtures.dry_pipeline)) ∧
  settled (snd (tick Fixtures.unreadable Fixtures.dry_pipeline)).
Proof.
  apply (trackers_rest_in_settled_states Fixtures.unreadable
           Fixtures.dry_pipeline ["note.md"]).
  apply map_Forall_empty.
Defined.

End SettledTrackersWitness.

(* ===================================================================== *)
(** * The trackers in dry-run mode                                        *)
(* ===================================================================== *)

Section Rehearsal.
Import Py World Pipeline.
Variable read_text : world → string → outcome string.

Local Arguments Orchestrator.log_event : simpl never.
Local Arguments Orchestrator.run_skill_with_retry : simpl never.

Lemma returns_ret {A} (a : A) (p : t) (Q : A → t → Prop) :
  Q a p → returns (mret a) p Q.
Proof. intros HQ. by exists a, p. Qed.

Lemma returns_bind {A B} (m : M t A) (k : A → M t B) (p : t)
    (R : A → t → Prop) (Q : B → t → Prop) :
  returns m p R →
  (∀ a p1, R a p1 → returns (k a) p1 Q) →
  returns (m ≫= k) p Q.
Proof.
  intros (a & p1 & E & HR) Hk.
  destruct (Hk a p1 HR) as (b & p2 & E2 & HQ).
  exists b, p2. split; [|done].
  unfold mbind, M_bind, bind. by rewrite E.
Qed.

Lemma returns_gets {A} (f : t → A) (p : t) :
  returns (gets f) p (λ a p', a = f p ∧ p' = p).
Proof. by exists (f p), p. Qed.

Lemma returns_modify (f : t → t) (p : t) :
  returns (modify f) p (λ _ p', p' = f p).
Proof. by exists tt, (f p). Qed.

Lemma steady_refl (p : t) : rehearsing p → steady p p.
Proof. by intros Hp. Qed.

Lemma steady_trans (p1 p2 p3 : t) : steady p1 p2 → steady p2 p3 → steady p1 p3.
Proof. intros (? & ? & ?) (? & ? & ?). repeat split; try congruence; apply H3. Qed.

(** Reading the clock and logging to the console. *)
Lemma lifted_world_steady {A} (m : M world A) (p : t) :
  (∀ w, ∃ a w', m w = (Ok a, w') ∧ w_vault w' = w_vault w ∧
                w_spawned w' = w_spawned w) →
  rehearsing p →
  returns (lift m) p (λ _ p', steady p p').
Proof.
  intros Hm [Hd Hl].
  destruct (Hm (Orchestrator.env (core p))) as (a & w' & E & Hv & Hs).
  exists a. eexists. unfold lift. cbn [project inject has_world]. rewrite E.
  split; [reflexivity|]. unfold steady, rehearsing, agent_runs. cbn.
  rewrite Hv. done.
Qed.

Lemma utcnow_steady (p : t) :
  rehearsing p → returns (lift utcnow) p (λ _ p', steady p p').
Proof. apply lifted_world_steady. intros w. by do 2 eexists. Qed.

Lemma time_time_steady (p : t) :
  rehearsing p → returns (lift time_time) p (λ _ p', steady p p').
Proof. apply lifted_world_steady. intros w. by do 2 eexists. Qed.

Lemma log_event_steady (event_type : string) details (p : t) :
  rehearsing p →
  returns (lift (Orchestrator.log_event event_type details)) p
          (λ _ p', steady p p').
Proof.
  intros [Hd Hl].
  destruct (log_event_ok event_type details (core p) Hl)
    as (w' & e & E & [Ht Hc Ha Hr Hs] & Hsp & _ & _ & Hkeep).
  exists tt. eexists. unfold lift. cbn [project inject has_core]. rewrite E.
  split; [reflexivity|]. unfold steady, rehearsing, agent_runs. cbn.
  split; [done|]. split; [split; [done | by apply Hkeep]|].
  rewrite Hs, Hsp. lia.
Qed.

Lemma dispatch_steady (skill_name context : string) (p : t) :
  rehearsing p →
  returns (lift (Orchestrator.run_skill_with_retry skill_name context)) p
          (λ success p', success = true ∧ steady p p').
Proof.
  intros [Hd Hl].
  destruct (dry_dispatch_ok skill_name context (core p) Hd Hl)
    as (o' & e & E & Hd' & _ & _ & Hs & _ & _ & _ & Hkeep).
  exists true. eexists. unfold lift. cbn [project inject has_core]. rewrite E.
  split; [reflexivity|]. unfold steady, rehearsing, agent_runs. cbn.
  split; [done|]. split; [done|]. split; [|done]. split; [done|by apply Hkeep].
Qed.

(** [for x in l: body(x)] with an invariant [I] and, for each element, a
    fact [G] that the later passes do not undo. *)
Lemma for_each_returns {A} (body : A → M t unit) (l : list A)
    (I : t → Prop) (G : A → t → Prop) :
  (∀ x p, x ∈ l → I p →
     returns (body x) p (λ _ p', I p' ∧ G x p' ∧ ∀ y, G y p → G y p')) →
  ∀ p, I p →
    returns (for_each body l) p
            (λ _ p', I p' ∧ (∀ x, x ∈ l → G x p') ∧ ∀ y, G y p → G y p').
Proof.
  induction l as [|x l IH]; intros Hbody p Hp.
  - apply returns_ret. split; [done|]. split; [|done].
    intros x Hx. by apply elem_of_nil in Hx.
  - cbn [for_each].
    eapply returns_bind.
    { apply Hbody; [apply elem_of_cons; by left | done]. }
    cbn beta. intros _ p1 (Hp1 & Hx1 & Hstay1).
    destruct (IH (λ y q Hy, Hbody y q (proj2 (elem_of_cons l y x) (or_intror Hy)))
                 p1 Hp1) as (u & p2 & E & Hp2 & Hall & Hstay2).
    exists u, p2. split; [done|]. split; [done|]. split.
    + intros y [->|Hy]%elem_of_cons; [by apply Hstay2 | by apply Hall].
    + intros y Hy. by apply Hstay2, Hstay1.
Qed.

(** A new tracker. *)
Lemma new_tracker_returns (filepath item_type : string) (p : t) :
  rehearsing p →
  returns (new_tracker filepath item_type) p
          (λ tr p', state tr = DETECTED ∧ error tr = None ∧ retries tr = 0 ∧
                    steady p p').
Proof.
  intros Hp. unfold new_tracker.
  eapply returns_bind; [by apply utcnow_steady|].
  cbn beta. intros now p1 Hs. by apply returns_ret.
Qed.

Lemma track_new_returns (f : string) (p : t) :
  rehearsing p →
  returns (track_new read_text f) p
    (λ _ p', ∃ tr, items p' = <[Orchestrator.name f := tr]> (items p) ∧
                   state tr = DETECTED ∧ error tr = None ∧ retries tr = 0 ∧
                   rehearsing p' ∧ agent_runs p' = agent_runs p).
Proof.
  intros Hp. unfold track_new.
  eapply returns_bind; [apply returns_gets|].
  cbn beta. intros item_type ? [_ ->].
  eapply returns_bind; [by apply new_tracker_returns|].
  cbn beta. intros tr p1 (Hst & Herr & Hret & Hi1 & Hr1 & Ha1).
  eapply returns_bind; [apply returns_modify|].
  cbn beta. intros _ p2 ->.
  destruct (log_event_steady "item_detected"
              [("file", Orchestrator.name f); ("type", item_type)]
              (set_items (<[Orchestrator.name f := tr]> (items p1)) p1))
    as (u & p3 & E & Hi3 & Hr3 & Ha3); [by destruct Hr1|].
  exists u, p3. split; [exact E|]. exists tr.
  rewrite Hi3. cbn [items set_items]. rewrite Hi1.
  repeat split; try done; try apply Hr3. by rewrite Ha3.
Qed.

(** Two transitions of the tracker under [key], if there is one. *)
Lemma advance_returns (key : string) (s1 s2 : State) (p : t) :
  rehearsing p →
  returns (there ← tracked key;
           if (there : bool)
           then transition key s1;; transition key s2
           else mret tt) p
    (λ _ p', rehearsing p' ∧ agent_runs p' = agent_runs p ∧
             (∀ k, k ≠ key → items p' !! k = items p !! k) ∧
             match items p !! key with
             | Some tr =>
                 ∃ tr', items p' !! key = Some tr' ∧ state tr' = s2 ∧
                        error tr' = error tr ∧ retries tr' = retries tr
             | None => items p' !! key = None
             end).
Proof.
  intros [Hd Hl].
  unfold returns, tracked, transition, lift, utcnow, now, modify, gets.
  unfold mbind, M_bind, mret, M_ret, bind, ret.
  cbn beta. cbn [project inject has_world].
  destruct (items p !! key) as [tr|] eqn:E.
  - rewrite bool_decide_eq_true_2 by done.
    do 2 eexists. split; [reflexivity|].
    unfold rehearsing, agent_runs. cbn. repeat split; try done.
    + intros k Hk. by rewrite !lookup_alter_ne.
    + rewrite !lookup_alter_eq, E. cbn. by eexists.
  - rewrite bool_decide_eq_false_2 by (by intros [? ?]).
    do 2 eexists. split; [reflexivity|]. by rewrite E.
Qed.

Lemma advance_all_returns (files : list string) (s1 s2 : State) (p : t) :
  rehearsing p →
  returns (for_each (λ f, there ← tracked (Orchestrator.name f);
                          if (there : bool)
                          then transition (Orchestrator.name f) s1;;
                               transition (Orchestrator.name f) s2
                          else mret tt) files) p
    (λ _ p', rehearsing p' ∧ agent_runs p' = agent_runs p ∧
             (∀ k, k ∉ Orchestrator.name <$> files →
                   items p' !! k = items p !! k) ∧
             ∀ f tr, f ∈ files → items p !! Orchestrator.name f = Some tr →
               ∃ tr', items p' !! Orchestrator.name f = Some tr' ∧
                      state tr' = s2 ∧
                      error tr' = error tr ∧ retries tr' = retries tr).
Proof.
  intros Hp.
  pose (I := λ q : t,
    rehearsing q ∧ agent_runs q = agent_runs p ∧
    (∀ k, k ∉ Orchestrator.name <$> files → items q !! k = items p !! k) ∧
    ∀ k tr, items p !! k = Some tr →
      ∃ tr1, items q !! k = Some tr1 ∧
             error tr1 = error tr ∧ retries tr1 = retries tr).
  pose (G := λ (f : string) (q : t),
    ∀ tr, items p !! Orchestrator.name f = Some tr →
      ∃ tr', items q !! Orchestrator.name f = Some tr' ∧ state tr' = s2 ∧
             error tr' = error tr ∧ retries tr' = retries tr).
  destruct (for_each_returns
              (λ f, there ← tracked (Orchestrator.name f);
                    if (there : bool)
                    then transition (Orchestrator.name f) s1;;
                         transition (Orchestrator.name f) s2
                    else mret tt) files I G) with (p := p)
    as (u & p' & E & (Hr & Ha & Hframe & _) & Hall & _).
  - intros x q Hx (Hq & Haq & Hfq & Hkq).
    destruct (advance_returns (Orchestrator.name x) s1 s2 q Hq)
      as (u & q' & E & Hq' & Haq' & Hother & Hkey).
    exists u, q'. split; [done|]. split; [|split].
    + split; [done|]. split; [congruence|]. split.
      * intros k Hk. rewrite Hother; [by apply Hfq|].
        intros ->. apply Hk. by apply list_elem_of_fmap_2.
      * intros k tr Hk. destruct (Hkq k tr Hk) as (tr1 & E1 & He1 & Hr1).
        destruct (decide (k = Orchestrator.name x)) as [->|Hne].
        -- rewrite E1 in Hkey. destruct Hkey as (tr' & E' & _ & He' & Hr').
           exists tr'. split; [done|]. split; congruence.
        -- exists tr1. by rewrite Hother.
    + intros tr Htr. destruct (Hkq _ tr Htr) as (tr1 & E1 & He1 & Hr1).
      rewrite E1 in Hkey. destruct Hkey as (tr' & E' & Hs' & He' & Hr').
      exists tr'. split; [done|]. split; [done|]. split; congruence.
    + intros y Hy tr Htr. destruct (Hy tr Htr) as (tr1 & E1 & Hs1 & He1 & Hr1).
      destruct (decide (Orchestrator.name y = Orchestrator.name x)) as [Heq|Hne].
      * rewrite Heq in E1. rewrite E1 in Hkey.
        destruct Hkey as (tr' & E' & Hs' & He' & Hr').
        exists tr'. rewrite Heq. split; [done|]. split; [done|].
        split; congruence.
      * exists tr1. by rewrite Hother.
  - split; [done|]. split; [done|]. split; [done|].
    intros k tr Hk. by exists tr.
  - exists u, p'. split; [done|]. split; [done|]. split; [done|].
    split; [done|]. intros f tr Hf Htr. by apply (Hall f Hf tr).
Qed.

Lemma handle_new_items_rehearsed (files : list string) (p : t) :
  rehearsing p →
  returns (handle_new_items read_text files) p
    (λ _ p', rehearsing p' ∧ agent_runs p' = agent_runs p ∧
             (∀ k, k ∉ Orchestrator.name <$> files →
                   items p' !! k = items p !! k) ∧
             ∀ f, f ∈ files →
               ∃ tr, items p' !! Orchestrator.name f = Some tr ∧
                     state tr = AWAITING_APPROVAL ∧
                     error tr = None ∧ retries tr = 0).
Proof.
  intros Hp. unfold handle_new_items.
  pose (I := λ q : t,
    rehearsing q ∧ agent_runs q = agent_runs p ∧
    ∀ k, k ∉ Orchestrator.name <$> files → items q !! k = items p !! k).
  pose (G := λ (f : string) (q : t),
    ∃ tr, items q !! Orchestrator.name f = Some tr ∧
          error tr = None ∧ retries tr = 0).
  eapply returns_bind.
  { apply (for_each_returns (track_new read_text) files I G);
      [|split; [exact Hp|]; by split].
    intros x q Hx (Hq & Haq & Hfq).
    destruct (track_new_returns x q Hq)
      as (u & q' & E & tr & Hi & Hst & Herr & Hret & Hq' & Haq').
    exists u, q'. split; [done|]. split; [|split].
    - split; [done|]. split; [congruence|].
      intros k Hk. rewrite Hi, lookup_insert_ne; [by apply Hfq|].
      intros <-. apply Hk. by apply list_elem_of_fmap_2.
    - exists tr. by rewrite Hi, lookup_insert_eq.
    - intros y (tr1 & E1 & He1 & Hr1). unfold G. rewrite Hi.
      destruct (decide (Orchestrator.name x = Orchestrator.name y)) as [Heq|Hne].
      + exists tr. by rewrite Heq, lookup_insert_eq.
      + exists tr1. by rewrite lookup_insert_ne. }
  cbn beta. intros _ p1 ((Hr1 & Ha1 & Hf1) & Hall1 & _).
  eapply returns_bind; [by apply dispatch_steady|].
  cbn beta. intros success p2 (-> & Hi2 & Hr2 & Ha2).
  destruct (advance_all_returns files PROCESSING AWAITING_APPROVAL p2 Hr2)
    as (u & p3 & E & Hr3 & Ha3 & Hf3 & Hall3).
  exists u, p3. split; [exact E|].
  split; [done|]. split; [congruence|]. split.
  - intros k Hk. rewrite Hf3, Hi2 by done. by apply Hf1.
  - intros f Hf. destruct (Hall1 f Hf) as (tr & Etr & Herr & Hret).
    rewrite <- Hi2 in Etr.
    destruct (Hall3 f tr Hf Etr) as (tr' & E' & Hs' & He' & Hre').
    exists tr'. split; [done|]. split; [done|]. split; congruence.
Qed.

(** [mark_approved] leaves a tracker under the name of the file. *)
Lemma mark_approved_returns (f : string) (p : t) :
  rehearsing p →
  returns (mark_approved f) p
    (λ _ p', rehearsing p' ∧ agent_runs p' = agent_runs p ∧
             (∀ k, k ≠ Orchestrator.name f → items p' !! k = items p !! k) ∧
             is_Some (items p' !! Orchestrator.name f)).
Proof.
  intros Hp. unfold mark_approved.
  eapply returns_bind; [by apply log_event_steady|].
  cbn beta. intros _ p1 (Hi1 & Hr1 & Ha1).
  eapply returns_bind; [apply returns_gets|].
  cbn beta. intros there ? [-> ->].
  case_bool_decide as Hthere.
  - unfold transition.
    eapply returns_bind; [by apply utcnow_steady|].
    cbn beta. intros now p2 (Hi2 & Hr2 & Ha2).
    exists tt. eexists. split; [reflexivity|].
    cbn [items set_items]. rewrite Hi2.
    split; [done|]. split; [unfold agent_runs in *; cbn; congruence|]. split.
    + intros k Hk. by rewrite lookup_alter_ne, Hi1.
    + rewrite lookup_alter_eq. destruct Hthere as [tr ->]. by eexists.
  - eapply returns_bind; [by apply new_tracker_returns|].
    cbn beta. intros tr p2 (_ & _ & _ & Hi2 & Hr2 & Ha2).
    eapply returns_bind; [by apply utcnow_steady|].
    cbn beta. intros now p3 (Hi3 & Hr3 & Ha3).
    exists tt. eexists. split; [reflexivity|].
    cbn [items set_items]. rewrite Hi3, Hi2.
    split; [done|]. split; [unfold agent_runs in *; cbn; congruence|]. split.
    + intros k Hk. by rewrite lookup_insert_ne, Hi1.
    + rewrite lookup_insert_eq. by eexists.
Qed.

Lemma handle_approved_rehearsed (files : list string) (p : t) :
  rehearsing p →
  returns (handle_approved files) p
    (λ _ p', rehearsing p' ∧ agent_runs p' = agent_runs p ∧
             (∀ k, k ∉ Orchestrator.name <$> files →
                   items p' !! k = items p !! k) ∧
             ∀ f, f ∈ files →
               ∃ tr, items p' !! Orchestrator.name f = Some tr ∧
                     state tr = DONE).
Proof.
  intros Hp. unfold handle_approved.
  pose (I := λ q : t,
    rehearsing q ∧ agent_runs q = agent_runs p ∧
    ∀ k, k ∉ Orchestrator.name <$> files → items q !! k = items p !! k).
  pose (G := λ (f : string) (q : t), is_Some (items q !! Orchestrator.name f)).
  eapply returns_bind.
  { apply (for_each_returns mark_approved files I G);
      [|split; [exact Hp|]; by split].
    intros x q Hx (Hq & Haq & Hfq).
    destruct (mark_approved_returns x q Hq)
      as (u & q' & E & Hq' & Haq' & Hother & Hkey).
    exists u, q'. split; [done|]. split; [|split].
    - split; [done|]. split; [congruence|].
      intros k Hk. rewrite Hother; [by apply Hfq|].
      intros ->. apply Hk. by apply list_elem_of_fmap_2.
    - done.
    - intros y Hy. unfold G in *.
      destruct (decide (Orchestrator.name y = Orchestrator.name x)) as [->|Hne];
        [done|]. by rewrite Hother. }
  cbn beta. intros _ p1 ((Hr1 & Ha1 & Hf1) & Hall1 & _).
  eapply returns_bind; [by apply dispatch_steady|].
  cbn beta. intros success p2 (-> & Hi2 & Hr2 & Ha2).
  eapply returns_bind; [by apply (advance_all_returns files EXECUTING DONE)|].
  cbn beta. intros _ p3 (Hr3 & Ha3 & Hf3 & Hall3).
  eapply returns_bind; [by apply dispatch_steady|].
  cbn beta. intros _ p4 (_ & Hi4 & Hr4 & Ha4).
  eapply returns_bind; [by apply time_time_steady|].
  cbn beta. intros now p5 (Hi5 & Hr5 & Ha5).
  exists tt. eexists. split; [reflexivity|].
  unfold rehearsing, agent_runs in *. cbn. rewrite Hi5, Hi4.
  split; [done|]. split; [congruence|]. split.
  - intros k Hk. rewrite Hf3, Hi2 by done. by apply Hf1.
  - intros f Hf. destruct (Hall1 f Hf) as (tr & Etr).
    rewrite <- Hi2 in Etr.
    destruct (Hall3 f tr Hf Etr) as (tr' & E' & Hs' & _).
    by exists tr'.
Qed.

(** Dry-run mode with a log folder that can be written to: both
    handlers return, without ever starting the agent; every new file ends
    with a tracker in state [AWAITING_APPROVAL] that records no error and
    no retry, every approved file with a tracker in state [DONE], and the
    trackers under other names are as before. *)
Theorem dry_run_walks_trackers_to_the_end (files : list string) (p : t) :
  Orchestrator.dry_run (core p) = true →
  writable (w_vault (Orchestrator.env (core p))) Logs →
  (∃ p', handle_new_items read_text files p = (Ok tt, p') ∧
         agent_runs p' = agent_runs p ∧
         (∀ k, k ∉ Orchestrator.name <$> files →
               items p' !! k = items p !! k) ∧
         ∀ f, f ∈ files →
           ∃ tr, items p' !! Orchestrator.name f = Some tr ∧
                 state tr = AWAITING_APPROVAL ∧
                 error tr = None ∧ retries tr = 0) ∧
  (∃ p', handle_approved files p = (Ok tt, p') ∧
         agent_runs p' = agent_runs p ∧
         (∀ k, k ∉ Orchestrator.name <$> files →
               items p' !! k = items p !! k) ∧
         ∀ f, f ∈ files →
           ∃ tr, items p' !! Orchestrator.name f = Some tr ∧
                 state tr = DONE).
Proof.
  intros Hd Hl. split.
  - destruct (handle_new_items_rehearsed files p (conj Hd Hl))
      as ([] & p' & E & _ & Hrest).
    by exists p'.
  - destruct (handle_approved_rehearsed files p (conj Hd Hl))
      as ([] & p' & E & _ & Hrest).
    by exists p'.
Qed.

End Rehearsal.

Section RehearsalWitness.
Import Py World Pipeline.

Lemma dry_run_walks_trackers_to_the_end_witness :
  let p := Fixtures.dry_pipeline in
  (∃ p', handle_new_items Fixtures.unreadable ["note.md"] p = (Ok tt, p') ∧
         agent_runs p' = 0%nat ∧
         (∀ k, k ∉ Orchestrator.name <$> ["note.md"] →
               items p' !! k = items p !! k) ∧
         ∀ f, f ∈ ["note.md"] →
           ∃ tr, items p' !! Orchestrator.name f = Some tr ∧
                 state tr = AWAITING_APPROVAL ∧
                 error tr = None ∧ retries tr = 0) ∧
  (∃ p', handle_approved ["note.md"] p = (Ok tt, p') ∧
         agent_runs p' = 0%nat ∧
         (∀ k, k ∉ Orchestrator.name <$> ["note.md"] →
               items p' !! k = items p !! k) ∧
         ∀ f, f ∈ ["note.md"] →
           ∃ tr, items p' !! Orchestrator.name f = Some tr ∧
                 state tr = DONE).
Proof.
  apply (dry_run_walks_trackers_to_the_end Fixtures.unreadable ["note.md"]
           Fixtures.dry_pipeline).
  - reflexivity.
  - apply open_vault_writable.
Defined.

End RehearsalWitness.

(* ===================================================================== *)
(** * The weekly briefing is not missed                                   *)
(* ===================================================================== *)

Section DateStrings.
Import Py Chars.

Lemma app_dash_inj (s1 s2 r1 r2 : string) :
  count "-" s1 = 0%nat → count "-" s2 = 0%nat →
  s1 +:+ String "-" r1 = s2 +:+ String "-" r2 →
  s1 = s2 ∧ r1 = r2.
Proof.
  revert s2. induction s1 as [|a s1 IH]; intros [|b s2] H1 H2 E.
  - by injection E as ->.
  - change (String "-" r1 = String b (s2 +:+ String "-" r2)) in E.
    injection E as <- _. cbn in H2. done.
  - change (String a (s1 +:+ String "-" r1) = String "-" r2) in E.
    injection E as -> _. cbn in H1. done.
  - change (String a (s1 +:+ String "-" r1) = String b (s2 +:+ String "-" r2))
      in E.
    injection E as -> E. cbn [count] in H1, H2.
    destruct (IH s2) as [-> ->]; [by case_decide; lia..|done|done].
Qed.

Lemma digit_inj (a b : Z) :
  0 ≤ a < 10 → 0 ≤ b < 10 → digit a = digit b → a = b.
Proof.
  intros Ha Hb E. unfold digit in E.
  apply (f_equal nat_of_ascii) in E.
  rewrite !nat_ascii_embedding in E by lia. lia.
Qed.

Lemma pad2_inj (a b : Z) :
  0 ≤ a < 100 → 0 ≤ b < 100 → pad2 a = pad2 b → a = b.
Proof.
  intros Ha Hb E. rewrite !pad2_digits in E by done.
  injection E as E1 E0.
  apply digit_inj in E1;
    [|split; [apply Z.div_pos | apply Z.div_lt_upper_bound]; lia..].
  apply digit_inj in E0; [|apply Z.mod_pos_bound; lia..].
  rewrite (Z.div_mod a 10), (Z.div_mod b 10) by lia. lia.
Qed.

(** On dates that [datetime] accepts, the text of [strftime("%Y-%m-%d")]
    identifies the calendar date. *)
Lemma strftime_date_inj (a b : datetime) :
  valid a → valid b → strftime_date a = strftime_date b → same_date a b.
Proof.
  intros (Hya & Hma & Hda & _) (Hyb & Hmb & Hdb & _) E.
  unfold strftime_date in E.
  change (pretty (year a) +:+ String "-" (pad2 (month a) +:+ String "-" (pad2 (day a)))
          = pretty (year b) +:+ String "-" (pad2 (month b) +:+ String "-" (pad2 (day b))))
    in E.
  apply app_dash_inj in E as [Ey E];
    [|by apply count_pretty_Z_nonneg; [lia|]..].
  apply app_dash_inj in E as [Em Ed];
    [|by apply count_pad2_digit; [lia|]..].
  apply (inj pretty) in Ey.
  apply pad2_inj in Em; [|lia..]. apply pad2_inj in Ed; [|lia..].
  done.
Qed.

End DateStrings.

Section BriefingNotMissed.
Import Py Orchestrator.

(** An evaluation made on a Sunday between 23:00 and 23:59 is never in
    vain: unless the date remembered at the start is already that day's,
    one of the evaluations fires on that date, whatever the other clock
    values (valid dates) of the evaluations are. *)
Theorem briefing_is_not_missed (nows : list datetime) (sunday : datetime) (o : t) :
  Forall valid nows →
  sunday ∈ nows →
  weekday sunday = 6 → hour sunday = 23 →
  last_briefing_check o ≠ strftime_date sunday →
  ∃ fired, fired ∈ briefing_firings nows o ∧ same_date sunday fired.
Proof.
  intros Hvalid Hin Hday Hhour. revert o.
  assert (Hs : valid sunday) by (by eapply Forall_forall in Hvalid).
  induction Hvalid as [|now nows Hnow Hvalid IH]; intros o Hlast.
  { by apply elem_of_nil in Hin. }
  cbn [briefing_firings].
  destruct (should_run_briefing_at now o) as [[] o'] eqn:E.
  - apply should_run_briefing_fires in E as [_ ->].
    destruct (decide (same_date sunday now)) as [Hsame|Hdiff].
    { exists now. split; [apply elem_of_cons; by left | done]. }
    apply elem_of_cons in Hin as [->|Hin].
    { destruct Hdiff. by unfold same_date. }
    destruct (IH Hin (set_last_briefing_check (strftime_date now) o))
      as (fired & Hf & Hsame).
    { cbn. intros Heq. apply Hdiff. by apply strftime_date_inj. }
    exists fired. split; [apply elem_of_cons; by right | done].
  - apply elem_of_cons in Hin as [->|Hin].
    { exfalso. unfold should_run_briefing_at in E.
      unfold BRIEFING_DAY, BRIEFING_HOUR in E.
      rewrite !bool_decide_eq_true_2 in E by done.
      rewrite bool_decide_eq_false_2 in E by done. discriminate. }
    apply should_run_briefing_idle in E as ->.
    destruct (IH Hin o Hlast) as (fired & Hf & Hsame).
    by exists fired.
Qed.

Lemma briefing_is_not_missed_witness :
  let o := Scenario.orchestrator_with Scenario.always_failing in
  let nows := [DateTime 2026 11 7 23 30 0 0; Scenario.sunday_night 22 59 0;
               Scenario.sunday_night 23 0 15; Scenario.sunday_night 23 59 45] in
  ∃ fired, fired ∈ briefing_firings nows o ∧
           same_date (Scenario.sunday_night 23 59 45) fired.
Proof.
  apply (briefing_is_not_missed
           [DateTime 2026 11 7 23 30 0 0; Scenario.sunday_night 22 59 0;
            Scenario.sunday_night 23 0 15; Scenario.sunday_night 23 59 45]
           (Scenario.sunday_night 23 59 45)
           (Scenario.orchestrator_with Scenario.always_failing)).
  - repeat constructor; cbn; lia.
  - do 3 (apply elem_of_cons; right). apply elem_of_cons. by left.
  - reflexivity.
  - reflexivity.
  - cbn. discriminate.
Defined.

End BriefingNotMissed.

(* ===================================================================== *)
(** * The watcher loop and its budget of consecutive errors               *)
(* ===================================================================== *)

Section ErrorBudget.
Import Py World BaseWatcher.
Variable check_for_updates : nat → outcome nat.
Variable create_action_file : nat → nat → outcome unit.
Variable signal : nat → bool.

Local Abbreviation fails := (fails check_for_updates create_action_file).
Local Abbreviation attempt := (attempt check_for_updates create_action_file).
Local Abbreviation cycles := (cycles check_for_updates create_action_file signal).

Lemma create_all_outcome (cycle k left : nat) (r : t) :
  ∃ res, create_all create_action_file cycle k left r = (res, r) ∧
         (creation_fails create_action_file cycle k left = false ↔ res = Ok tt).
Proof.
  revert k. induction left as [|left IH]; intros k.
  - by exists (Ok tt).
  - cbn [create_all creation_fails].
    unfold mbind, M_bind, bind, of_outcome.
    destruct (create_action_file cycle k) as [[]|e].
    + apply IH.
    + exists (Raise e). split; [done|]. split; discriminate.
Qed.

(** The [try] body either raises, leaving the counter alone, or resets
    the counter; the running flag is as before. *)
Lemma attempt_outcome (cycle : nat) (r : t) :
  ∃ res r',
    attempt cycle r = (res, r') ∧
    running r' = running r ∧ check_interval r' = check_interval r ∧
    if fails cycle
    then (∃ e, res = Raise e) ∧ error_count r' = error_count r
    else res = Ok tt ∧ error_count r' = 0.
Proof.
  unfold BaseWatcher.attempt, BaseWatcher.fails.
  unfold mbind, M_bind, bind, of_outcome.
  destruct (check_for_updates cycle) as [updates|e];
    [|by do 2 eexists; split; [reflexivity|]; eauto].
  destruct (0 <? updates)%nat eqn:Hu.
  - unfold lift, logger, modify. cbn [project inject has_world].
    set (r1 := set_env _ r).
    destruct (create_all_outcome cycle 0 updates r1) as (res & -> & Hres).
    destruct (creation_fails _ _ _ _).
    + destruct res as [[]|e]; [by pose proof (proj2 Hres eq_refl)|].
      do 2 eexists. split; [reflexivity|]. eauto.
    + rewrite (proj1 Hres) by done.
      do 2 eexists. split; [reflexivity|]. done.
  - apply Nat.ltb_ge in Hu. assert (updates = 0%nat) as -> by lia.
    do 2 eexists. split; [reflexivity|]. done.
Qed.

(** One cycle of a running watcher that no signal reaches. *)
Lemma cycles_step (n i : nat) (r : t) :
  running r = true → signal i = false →
  if fails i
  then if MAX_CONSECUTIVE_ERRORS <=? error_count r + 1
       then ∃ r', cycles (S n) i r = (Ok true, r') ∧ running r' = false
       else ∃ r1, cycles (S n) i r = cycles n (S i) r1 ∧
                  running r1 = true ∧ error_count r1 = error_count r + 1
  else ∃ r1, cycles (S n) i r = cycles n (S i) r1 ∧
             running r1 = true ∧ error_count r1 = 0.
Proof.
  intros Hrun Hsig.
  destruct (attempt_outcome i r) as (res & r1 & E & Hrun1 & _ & Hres).
  destruct (fails i);
    [destruct Hres as [[e ->] Hc1];
     destruct (MAX_CONSECUTIVE_ERRORS <=? error_count r + 1) eqn:Hmax
    |destruct Hres as [-> Hc1]].
  all: cbn [BaseWatcher.cycles].
  all: unfold mbind, M_bind, mret, M_ret, try_except, bind, get, ret,
         lift, logger, sleep, shutdown, modify.
  all: cbn [project inject has_world].
  all: rewrite Hrun; cbn [negb]; rewrite E, ?Hsig.
  all: cbn [error_count set_error_count set_env env running set_running
            check_interval fst snd].
  all: rewrite ?Hc1, ?Hmax, ?Hrun1, ?Hrun.
  all: cbn [error_count set_error_count set_env env running set_running
            check_interval fst snd].
  all: rewrite ?Hrun1, ?Hrun.
  all: eexists; split; [reflexivity|].
  all: cbn [error_count set_error_count set_env env running set_running].
  all: rewrite ?Hrun1, ?Hrun; done.
Qed.

(** From cycle [i] with [c] errors counted, the [c] cycles before [i]
    having failed: after [n] more cycles at most the watcher has stopped
    exactly when ten cycles in a row failed. *)
Lemma cycles_stop_after_ten (n : nat) :
  ∀ (i c : nat) (r : t),
    running r = true → error_count r = Z.of_nat c → (c < 10)%nat → (c ≤ i)%nat →
    (∀ k, (i - c ≤ k < i)%nat → fails k = true) →
    (∀ k, signal k = false) →
    ∃ left r',
      cycles n i r = (Ok left, r') ∧
      left = negb (running r') ∧
      if running r'
      then ¬ ∃ j, (i - c ≤ j)%nat ∧ (j + 10 ≤ i + n)%nat ∧
                  ∀ k, (j ≤ k < j + 10)%nat → fails k = true
      else ∃ j, (i - c ≤ j)%nat ∧ (j + 10 ≤ i + n)%nat ∧
                ∀ k, (j ≤ k < j + 10)%nat → fails k = true.
Proof.
  induction n as [|n IH]; intros i c r Hrun Hc Hlt Hci Hprev Hsig.
  - exists false, r. split; [done|]. rewrite Hrun. split; [done|].
    intros (j & ? & ? & _). lia.
  - pose proof (cycles_step n i r Hrun (Hsig i)) as Hstep.
    destruct (fails i) eqn:Hf.
    + rewrite Hc in Hstep.
      destruct (MAX_CONSECUTIVE_ERRORS <=? Z.of_nat c + 1) eqn:Hmax.
      * apply Z.leb_le in Hmax. unfold MAX_CONSECUTIVE_ERRORS in Hmax.
        destruct Hstep as (r' & -> & Hstop).
        exists true, r'. rewrite Hstop. split; [done|]. split; [done|].
        exists (i - c)%nat. repeat split; [lia..|].
        intros k Hk. destruct (decide (k = i)) as [->|Hne]; [done|].
        apply Hprev. lia.
      * apply Z.leb_gt in Hmax. unfold MAX_CONSECUTIVE_ERRORS in Hmax.
        destruct Hstep as (r1 & -> & Hrun1 & Hc1).
        destruct (IH (S i) (S c) r1) as (left & r' & -> & Hleft & Hwin);
          [done | lia | lia | lia | | done |].
        { intros k Hk. destruct (decide (k = i)) as [->|Hne]; [done|].
          apply Hprev. lia. }
        exists left, r'. split; [done|]. split; [done|].
        destruct (running r').
        -- intros (j & ? & ? & ?). apply Hwin. exists j.
           repeat split; first [lia | done].
        -- destruct Hwin as (j & ? & ? & ?). exists j.
           repeat split; first [lia | done].
    + destruct Hstep as (r1 & -> & Hrun1 & Hc1).
      destruct (IH (S i) 0%nat r1) as (left & r' & -> & Hleft & Hwin);
        [done | done | lia | lia | intros k Hk; lia | done |].
      exists left, r'. split; [done|]. split; [done|].
      destruct (running r').
      * intros (j & Hj1 & Hj2 & Hj3). apply Hwin. exists j.
        repeat split; [|lia|done].
        destruct (decide (i < j)%nat); [lia|].
        assert (j + 10 ≤ i ∨ j ≤ i < j + 10)%nat as [|Hin] by lia; [lia|].
        specialize (Hj3 i Hin). congruence.
      * destruct Hwin as (j & ? & ? & ?). exists j.
        repeat split; first [lia | done].
Qed.

(** [run] without a signal: within [fuel] cycles the watcher stops exactly
    when ten cycles in a row have failed, a cycle failing when
    [check_for_updates] or one of the [create_action_file] calls raises;
    any cycle that succeeds in between resets the count.  The loop itself
    never raises. *)
Theorem watcher_stops_after_ten_failures_in_a_row (fuel : nat) (r : t) :
  (∀ k, signal k = false) →
  ∃ left r',
    run check_for_updates create_action_file signal fuel r = (Ok left, r') ∧
    left = negb (running r') ∧
    (running r' = false ↔
       ∃ j, (j + 10 ≤ fuel)%nat ∧ ∀ k, (j ≤ k < j + 10)%nat → fails k = true).
Proof.
  intros Hsig. unfold run, lift, logger, modify.
  unfold mbind, M_bind, mret, M_ret.
  unfold bind at 1. cbn [project inject has_world].
  unfold bind at 1. unfold bind at 1. unfold bind at 1.
  match goal with
  | |- context [BaseWatcher.cycles _ _ _ fuel 0 ?s] =>
      destruct (cycles_stop_after_ten fuel 0 0 s)
        as (left & r1 & -> & Hleft & Hwin); [done | done | lia | lia | | done |]
  end.
  { intros k Hk. lia. }
  destruct (running r1) eqn:Hr; subst left; unfold bind, ret; cbn.
  - do 2 eexists. split; [reflexivity|]. rewrite Hr. split; [done|].
    split; [done|]. intros (j & ? & ?). exfalso. apply Hwin.
    exists j. repeat split; [lia|lia|done].
  - do 2 eexists. split; [reflexivity|]. cbn [running set_env].
    rewrite Hr. split; [done|]. split; [|done]. intros _.
    destruct Hwin as (j & _ & ? & ?). by exists j.
Qed.

End ErrorBudget.

Section ErrorBudgetWitness.
Import Py World BaseWatcher.

(** A source that is down: every check raises.  Of twelve cycles allowed,
    ten are made. *)
Lemma watcher_stops_after_ten_failures_in_a_row_witness :
  let check := λ _ : nat, @Raise nat OSError in
  let create := λ _ _ : nat, Ok tt in
  let quiet := λ _ : nat, false in
  let r := Make 60 false 0 (Scenario.world_with Scenario.always_failing) in
  ∃ left r',
    run check create quiet 12 r = (Ok left, r') ∧
    left = negb (running r') ∧
    (running r' = false ↔
       ∃ j, (j + 10 ≤ 12)%nat ∧
            ∀ k, (j ≤ k < j + 10)%nat → fails check create k = true).
Proof.
  apply (watcher_stops_after_ten_failures_in_a_row
           (λ _, Raise OSError) (λ _ _, Ok tt) (λ _, false) 12
           (Make 60 false 0 (Scenario.world_with Scenario.always_failing))).
  intros k. reflexivity.
Defined.

End ErrorBudgetWitness.
